(** * The string commands of the key-value store (redis-4.0/src/t_string.c)

    A shallow embedding of the command implementations of [t_string.c] and
    the properties its specification states about them.  Objects live in a
    heap of reference-counted cells, the keyspace maps key names to cell
    addresses, and every command is a computation over the server state and
    the client that issued it.  Integer widths are those of an LP64 platform
    ([long], [long long] and [size_t] are 64 bits wide). *)

From Stdlib Require Import ZArith Lia Strings.Byte.
From stdpp Require Import gmap list strings.

Local Open Scope Z_scope.

(** ** Bytes and byte strings *)

Abbreviation sds := (list byte).
Abbreviation loc := positive.

#[global] Instance byte_eq_dec : EqDecision byte := Byte.byte_eq_dec.

#[global] Program Instance byte_countable : Countable byte :=
  inj_countable Byte.to_N Byte.of_N _.
Next Obligation. apply Byte.of_to_N. Qed.

Definition byte_val (b : byte) : Z := Z.of_N (Byte.to_N b).

Definition byte_of_Z (z : Z) : byte := default x00 (Byte.of_N (Z.to_N z)).

(** A string literal as the bytes of an [sds]. *)
Definition str (s : string) : sds := String.list_byte_of_string s.

(** [sdslen]: the length of an [sds], a [size_t]. *)
Definition sdslen (s : sds) : Z := Z.of_nat (length s).

(** ** Machine integers *)

Definition LLONG_MAX : Z := 9223372036854775807.
Definition LLONG_MIN : Z := -9223372036854775808.
Definition LONG_MAX : Z := LLONG_MAX.
Definition LONG_MIN : Z := LLONG_MIN.

(** Conversion to a 64-bit signed integer ([long], [long long]): the value
    modulo 2^64, read in two's complement. *)
Definition to_ll (z : Z) : Z := (z + 2 ^ 63) mod 2 ^ 64 - 2 ^ 63.

(** Conversion to [size_t] / [unsigned long long]. *)
Definition to_size_t (z : Z) : Z := z mod 2 ^ 64.

(** Modelled from the spec: the size of the shared-integer pool
    ([OBJ_SHARED_INTEGERS] of server.h, which is not part of the sources
    at hand); section 3 gives the pool range as [0, 10000). *)
Definition OBJ_SHARED_INTEGERS : Z := 10000.

(** ** Decimal text of integers *)

Definition is_digit (b : byte) : bool :=
  (48 <=? byte_val b) && (byte_val b <=? 57).

Definition digit_val (b : byte) : Z := byte_val b - 48.

Definition digit_byte (d : Z) : byte := byte_of_Z (48 + d).

(** The value of a run of decimal digits, most significant first, on top
    of the value [acc] already read; [None] when a byte is not a digit. *)
Fixpoint digits_val (acc : Z) (ds : sds) : option Z :=
  match ds with
  | [] => Some acc
  | d :: r => if is_digit d then digits_val (acc * 10 + digit_val d) r else None
  end.

(** Modelled from the spec: [string2ll] of util.c (not part of the sources
    at hand).  Section 4.1: the bytes form a canonical signed decimal, with
    no leading zeros except the literal "0", an optional single leading '-',
    no leading '+', and a magnitude within the 64-bit signed range. *)
Definition string2ll (s : sds) : option Z :=
  match s with
  | [] => None
  | [c] => if is_digit c then Some (digit_val c) else None
  | c :: r =>
      let neg := bool_decide (c = "-"%byte) in
      let ds := if neg then r else s in
      match ds with
      | [] => None
      | d :: ds' =>
          if is_digit d && negb (bool_decide (d = "0"%byte)) then
            match digits_val (digit_val d) ds' with
            | Some v =>
                if neg then (if v <=? - LLONG_MIN then Some (- v) else None)
                else (if v <=? LLONG_MAX then Some v else None)
            | None => None
            end
          else None
      end
  end.

(** The decimal digits of a non-negative number, most significant first,
    in front of [acc]; [fuel] bounds the number of digits. *)
Fixpoint digits_of (fuel : nat) (n : Z) (acc : sds) : sds :=
  match fuel with
  | O => acc
  | S f =>
      if n <? 10 then digit_byte n :: acc
      else digits_of f (n / 10) (digit_byte (n mod 10) :: acc)
  end.

(** Modelled from the spec: [ll2string] of util.c (not part of the sources
    at hand), the decimal text of a signed 64-bit integer. *)
Definition ll2string (v : Z) : sds :=
  if v <? 0 then "-"%byte :: digits_of 20 (- v) [] else digits_of 20 v [].

(** ** Objects and the server state *)

(** The type tag of an object.  [t_string.c] only tells strings from the
    rest, so the other kinds carry a number that names them. *)
Inductive otype := OBJ_STRING | OBJ_OTHER (kind : nat).

Inductive oencoding := OBJ_ENCODING_RAW | OBJ_ENCODING_INT | OBJ_ENCODING_OTHER.

(** What [ptr] stands for, by type and encoding: the bytes of a raw string,
    the [long] stored in the pointer field of an integer-encoded string, or
    a container this file never looks into. *)
Inductive objval :=
  | RawVal (s : sds)
  | IntVal (n : Z)
  | OtherVal (kind : nat).

Record robj := mkObj { refcount : Z; body : objval }.

Definition type (o : robj) : otype :=
  match body o with
  | RawVal _ | IntVal _ => OBJ_STRING
  | OtherVal k => OBJ_OTHER k
  end.

Definition encoding (o : robj) : oencoding :=
  match body o with
  | RawVal _ => OBJ_ENCODING_RAW
  | IntVal _ => OBJ_ENCODING_INT
  | OtherVal _ => OBJ_ENCODING_OTHER
  end.

#[global] Instance otype_eq_dec : EqDecision otype.
Proof. solve_decision. Defined.

#[global] Instance oencoding_eq_dec : EqDecision oencoding.
Proof. solve_decision. Defined.

#[global] Instance objval_eq_dec : EqDecision objval.
Proof. solve_decision. Defined.

(** The bytes a string object stands for: its own bytes, or the decimal
    text of its integer. *)
Definition text_of (o : robj) : sds :=
  match body o with
  | RawVal s => s
  | IntVal n => ll2string n
  | OtherVal _ => []
  end.

(** [o->ptr] read as an [sds], as the commands do with their arguments. *)
Definition ptr_sds (o : robj) : sds :=
  match body o with
  | RawVal s => s
  | _ => []
  end.

(** The objects of the [shared] structure that are sent as replies. *)
Inductive shared_reply :=
  | shared_ok | shared_nullbulk | shared_emptybulk | shared_czero
  | shared_cone | shared_colon | shared_crlf | shared_syntaxerr
  | shared_wrongtypeerr.

Inductive reply_t :=
  | RShared (r : shared_reply)
  | RError (msg : string)
  | RBulk (s : sds)
  | RObj (s : sds)
  | RLongLong (n : Z)
  | RMultiBulkLen (n : Z).

Inductive notify_class := NOTIFY_STRING | NOTIFY_GENERIC.

Inductive event :=
  | KeyspaceEvent (cls : notify_class) (name : string) (key : sds)
  | ModifiedKey (key : sds).

Inductive time_unit := UNIT_SECONDS | UNIT_MILLISECONDS.

(** The server, its one database and the client running a command:
    [heap] holds the objects, [dict] and [expires] are the two tables of
    the database, [integers] is [shared.integers], [argv] and [cmd] are
    the client's argument vector and the name of its command, [reply] is
    what was sent back so far. *)
Record state := mkState {
  heap : gmap loc robj;
  dict : gmap sds loc;
  expires : gmap sds Z;
  integers : gmap Z loc;
  dirty : Z;
  mstime : Z;
  events : list event;
  argv : list loc;
  cmd : string;
  reply : list reply_t
}.

Definition set_heap (f : gmap loc robj → gmap loc robj) (s : state) : state :=
  mkState (f (heap s)) (dict s) (expires s) (integers s) (dirty s) (mstime s)
          (events s) (argv s) (cmd s) (reply s).

Definition set_dict (f : gmap sds loc → gmap sds loc) (s : state) : state :=
  mkState (heap s) (f (dict s)) (expires s) (integers s) (dirty s) (mstime s)
          (events s) (argv s) (cmd s) (reply s).

Definition set_expires (f : gmap sds Z → gmap sds Z) (s : state) : state :=
  mkState (heap s) (dict s) (f (expires s)) (integers s) (dirty s) (mstime s)
          (events s) (argv s) (cmd s) (reply s).

Definition set_dirty (f : Z → Z) (s : state) : state :=
  mkState (heap s) (dict s) (expires s) (integers s) (f (dirty s)) (mstime s)
          (events s) (argv s) (cmd s) (reply s).

Definition set_events (f : list event → list event) (s : state) : state :=
  mkState (heap s) (dict s) (expires s) (integers s) (dirty s) (mstime s)
          (f (events s)) (argv s) (cmd s) (reply s).

Definition set_argv (f : list loc → list loc) (s : state) : state :=
  mkState (heap s) (dict s) (expires s) (integers s) (dirty s) (mstime s)
          (events s) (f (argv s)) (cmd s) (reply s).

Definition set_cmd (f : string → string) (s : state) : state :=
  mkState (heap s) (dict s) (expires s) (integers s) (dirty s) (mstime s)
          (events s) (argv s) (f (cmd s)) (reply s).

Definition set_reply (f : list reply_t → list reply_t) (s : state) : state :=
  mkState (heap s) (dict s) (expires s) (integers s) (dirty s) (mstime s)
          (events s) (argv s) (cmd s) (f (reply s)).

(** ** Commands as state transformers *)

Definition M (A : Type) : Type := state → A * state.

#[global] Instance M_ret : MRet M := λ A a s, (a, s).

#[global] Instance M_bind : MBind M :=
  λ A B f m s, let '(a, s') := m s in f a s'.

Definition gets {A} (f : state → A) : M A := λ s, (f s, s).

Definition modify (f : state → state) : M unit := λ s, (tt, f s).

(** The state a command leaves behind. *)
Definition exec {A} (m : M A) (s : state) : state := (m s).2.

(** What a computation returns. *)
Definition eval {A} (m : M A) (s : state) : A := (m s).1.

(** [for (...) body] over the values of the loop variable. *)
Fixpoint forM_ {A} (l : list A) (f : A → M unit) : M unit :=
  match l with
  | [] => mret tt
  | x :: r => f x;; forM_ r f
  end.

(** [return;] *)
Definition return_void : M unit := mret tt.

Definition C_OK : bool := true.
Definition C_ERR : bool := false.

(** ** The object heap *)

(** The object behind a pointer.  A pointer to no cell reads as an object
    of no string type with no reference. *)
Definition getobj (l : loc) : M robj :=
  gets (λ s, default (mkObj 0 (OtherVal 0)) (heap s !! l)).

(** An address beyond every cell in use. *)
Definition fresh_loc (h : gmap loc robj) : loc :=
  map_fold (λ l _ r, Pos.max (Pos.succ l) r) 1%positive h.

(** Modelled from the spec: [createObject] of object.c (not part of the
    sources at hand): a new value is exclusively owned (sections 3 and
    4.1), so it sits in a cell of its own with one reference. *)
Definition createObject (b : objval) : M loc :=
  λ s, let l := fresh_loc (heap s) in (l, set_heap <[l := mkObj 1 b]> s).

(** Modelled from the spec: [incrRefCount] of object.c (not part of the
    sources at hand): one more holder of a possibly-shared instance
    (section 9, reference-counted objects). *)
Definition incrRefCount (l : loc) : M unit :=
  modify (set_heap (alter (λ o, mkObj (refcount o + 1) (body o)) l)).

(** Modelled from the spec: [decrRefCount] of object.c (not part of the
    sources at hand): one holder less.  A cell nobody holds stays where it
    is; addresses are not used twice. *)
Definition decrRefCount (l : loc) : M unit :=
  modify (set_heap (alter (λ o, mkObj (refcount o - 1) (body o)) l)).

(** [o->ptr = v]: a write into the object itself. *)
Definition set_ptr (l : loc) (b : objval) : M unit :=
  modify (set_heap (alter (λ o, mkObj (refcount o) b) l)).

(** Modelled from the spec: [createStringObject] / [createRawStringObject]
    of object.c (not part of the sources at hand): a fresh owned byte
    buffer with the given content (section 4.1). *)
Definition createStringObject (s : sds) : M loc := createObject (RawVal s).

(** Modelled from the spec: [createStringObjectFromLongLong] of object.c
    (not part of the sources at hand).  Section 4.2: the counter commands
    "allocate a new owned Integer value"; a number that does not fit a
    [long] is kept as its decimal text. *)
Definition createStringObjectFromLongLong (value : Z) : M loc :=
  if (LONG_MIN <=? value) && (value <=? LONG_MAX)
  then createObject (IntVal value)
  else createObject (RawVal (ll2string value)).

(** Modelled from the spec: [stringObjectLen] of object.c (not part of the
    sources at hand): the byte length of the value, integers counted by
    the length of their decimal text (section 4.4, strLen). *)
Definition stringObjectLen (o : robj) : Z := sdslen (text_of o).

(** Modelled from the spec: [tryObjectEncoding] of object.c (not part of
    the sources at hand), the [classify] of section 4.1: bytes that are a
    canonical signed decimal become an Integer, a reference to the pool's
    singleton when the number is in the pool range and the pool has it, a
    freshly owned value otherwise; all other bytes stay as they are. *)
Definition tryObjectEncoding (l : loc) : M loc :=
  o ← getobj l;
  match body o with
  | RawVal s =>
      match string2ll s with
      | Some v =>
          p ← gets (λ st, integers st !! v);
          match p with
          | Some sh =>
              if (0 <=? v) && (v <? OBJ_SHARED_INTEGERS) then
                decrRefCount l;; incrRefCount sh;; mret sh
              else
                n ← createObject (IntVal v); decrRefCount l;; mret n
          | None => n ← createObject (IntVal v); decrRefCount l;; mret n
          end
      | None => mret l
      end
  | _ => mret l
  end.

(** ** The keyspace *)

(** The name a key object stands for. *)
Definition keyname (key : loc) : M sds := o ← getobj key; mret (ptr_sds o).

(** Modelled from the spec: [lookupKeyRead] of db.c (not part of the
    sources at hand), the Store's [lookupRead] of section 6.  The tables
    hold the keys that are alive; dropping expired keys is the Store's
    business. *)
Definition lookupKeyRead (key : loc) : M (option loc) :=
  k ← keyname key; gets (λ s, dict s !! k).

(** Modelled from the spec: [lookupKeyWrite] of db.c (not part of the
    sources at hand), the Store's [lookupWrite] of section 6. *)
Definition lookupKeyWrite (key : loc) : M (option loc) :=
  k ← keyname key; gets (λ s, dict s !! k).

(** Modelled from the spec: [dbAdd] of db.c (not part of the sources at
    hand), the Store's [add] of section 6. *)
Definition dbAdd (key val : loc) : M unit :=
  k ← keyname key; modify (set_dict <[k := val]>).

(** Modelled from the spec: [dbOverwrite] of db.c (not part of the sources
    at hand), the Store's [overwrite] of section 6: the key's reference is
    replaced and the value it held loses this holder. *)
Definition dbOverwrite (key val : loc) : M unit :=
  k ← keyname key;
  old ← gets (λ s, dict s !! k);
  modify (set_dict <[k := val]>);;
  match old with
  | Some o => decrRefCount o
  | None => return_void
  end.

(** Modelled from the spec: [signalModifiedKey] of db.c (not part of the
    sources at hand), a side effect reported to the caller (section 9). *)
Definition signalModifiedKey (key : loc) : M unit :=
  k ← keyname key; modify (set_events (λ e, e ++ [ModifiedKey k])).

(** Modelled from the spec: [notifyKeyspaceEvent] of notify.c (not part of
    the sources at hand), the Notifier's [emit] of section 6. *)
Definition notifyKeyspaceEvent (cls : notify_class) (name : string)
    (key : loc) : M unit :=
  k ← keyname key; modify (set_events (λ e, e ++ [KeyspaceEvent cls name k])).

(** Modelled from the spec: [setKey] of db.c (not part of the sources at
    hand): the value reference is replaced wholesale and any previous
    expiration is cleared (section 3, Key Record). *)
Definition setKey (key val : loc) : M unit :=
  o ← lookupKeyWrite key;
  match o with
  | None => dbAdd key val
  | Some _ => dbOverwrite key val
  end;;
  incrRefCount val;;
  k ← keyname key;
  modify (set_expires (delete k));;
  signalModifiedKey key.

(** Modelled from the spec: [setExpire] of db.c (not part of the sources at
    hand), the Store's [setExpire] of section 6. *)
Definition setExpire (key : loc) (when : Z) : M unit :=
  k ← keyname key; modify (set_expires <[k := when]>).

(** Modelled from the spec: [dbUnshareStringValue] of db.c (not part of
    the sources at hand), the [unshare] of section 4.1: a value that is
    aliased or not a plain byte buffer is replaced under its key by a
    fresh owned buffer with the same content; an owned buffer is returned
    as it is. *)
Definition dbUnshareStringValue (key o : loc) : M loc :=
  ob ← getobj o;
  if bool_decide (refcount ob ≠ 1) || bool_decide (encoding ob ≠ OBJ_ENCODING_RAW)
  then
    n ← createStringObject (text_of ob);
    dbOverwrite key n;;
    mret n
  else mret o.

(** ** Replies and arguments *)

Definition addReply (r : reply_t) : M unit :=
  modify (set_reply (λ rs, rs ++ [r])).

Definition addReplyError (msg : string) : M unit := addReply (RError msg).

Definition addReplyLongLong (n : Z) : M unit := addReply (RLongLong n).

(** [addReplyBulk]: the value of a string object as a bulk reply. *)
Definition addReplyBulk (l : loc) : M unit :=
  o ← getobj l; addReply (RBulk (text_of o)).

(** [addReply (c, o)] for a string object [o]: its text as it stands. *)
Definition addReplyObj (l : loc) : M unit :=
  o ← getobj l; addReply (RObj (text_of o)).

(** [c->argv[j]]. *)
Definition arg (j : nat) : M loc := gets (λ s, default 1%positive (argv s !! j)).

(** [c->argv[j] = o]. *)
Definition set_arg (j : nat) (o : loc) : M unit := modify (set_argv <[j := o]>).

(** [c->argc]. *)
Definition argc : M Z := gets (λ s, Z.of_nat (length (argv s))).

(** The error texts the specification names. *)
Definition WrongType : reply_t := RShared shared_wrongtypeerr.
Definition SyntaxError : reply_t := RShared shared_syntaxerr.
Definition StringTooLong : reply_t :=
  RError "string exceeds maximum allowed size (512MB)".
Definition InvalidOffset : reply_t := RError "offset is out of range".
Definition NotANumber : reply_t :=
  RError "value is not an integer or out of range".
Definition Overflow : reply_t :=
  RError "increment or decrement would overflow".
Definition NaNOrInfinity : reply_t :=
  RError "increment would produce NaN or Infinity".
Definition NotAFloat : reply_t := RError "value is not a valid float".
Definition WrongArgCount : reply_t :=
  RError "wrong number of arguments for MSET".
Definition InvalidExpire (name : string) : reply_t :=
  RError ("invalid expire time in " +:+ name).

(** Modelled from the spec: [checkType] of object.c (not part of the
    sources at hand): a present value of another kind is a [WrongType]
    error (section 4.4). *)
Definition checkType (o : robj) (t : otype) : M bool :=
  if bool_decide (type o ≠ t) then addReply WrongType;; mret true
  else mret false.

(** Modelled from the spec: [getLongLongFromObject] of object.c (not part
    of the sources at hand): an absent value counts as 0, an Integer is
    its number, bytes must be integer text (section 4.2). *)
Definition getLongLongFromObject (o : option loc) : M (option Z) :=
  match o with
  | None => mret (Some 0)
  | Some l =>
      ob ← getobj l;
      mret (match body ob with
            | RawVal s => string2ll s
            | IntVal n => Some n
            | OtherVal _ => None
            end)
  end.

(** Modelled from the spec: [getLongLongFromObjectOrReply] of object.c
    (not part of the sources at hand): [None] stands for [C_ERR], which
    comes with the [NotANumber] reply (section 7). *)
Definition getLongLongFromObjectOrReply (o : option loc) : M (option Z) :=
  v ← getLongLongFromObject o;
  match v with
  | Some n => mret (Some n)
  | None => addReply NotANumber;; mret None
  end.

(** Modelled from the spec: [getLongFromObjectOrReply] of object.c (not
    part of the sources at hand): as above, for a [long]. *)
Definition getLongFromObjectOrReply (o : option loc) : M (option Z) :=
  v ← getLongLongFromObject o;
  match v with
  | Some n =>
      if (LONG_MIN <=? n) && (n <=? LONG_MAX) then mret (Some n)
      else addReply NotANumber;; mret None
  | None => addReply NotANumber;; mret None
  end.

(** Modelled from the spec: [sdsnewlen (NULL, n)] of sds.c (not part of the
    sources at hand): a zero-filled buffer of [n] bytes (section 4.3). *)
Definition sdsnewlen_zero (n : Z) : sds := replicate (Z.to_nat n) x00.

(** Modelled from the spec: [sdsgrowzero] of sds.c (not part of the sources
    at hand), the [growZeroFill] of section 4.1: the buffer extended to
    [len] bytes with zeros, its content kept; a buffer that is long
    enough stays as it is. *)
Definition sdsgrowzero (s : sds) (len : Z) : sds :=
  s ++ replicate (Z.to_nat (len - sdslen s)) x00.

(** [memcpy (dst + offset, src, strlen src)] inside the buffer [dst]. *)
Definition memcpy_at (dst : sds) (offset : Z) (src : sds) : sds :=
  take (Z.to_nat offset) dst ++ src
    ++ drop (Z.to_nat offset + length src) dst.

(** Modelled from the spec: [sdscatlen] of sds.c (not part of the sources
    at hand): concatenation (section 4.3, append). *)
Definition sdscatlen (s t : sds) : sds := s ++ t.

(** The command table knows its commands by their lower-case names. *)
Definition lower (b : byte) : byte :=
  if (65 <=? byte_val b) && (byte_val b <=? 90) then byte_of_Z (byte_val b + 32)
  else b.

(** Modelled from the spec: [rewriteClientCommandArgument] of networking.c
    (not part of the sources at hand): argument [i] of the command as it
    will be logged and replicated is replaced by [newval] (section 4.5);
    a new first argument names the command that is logged. *)
Definition rewriteClientCommandArgument (i : nat) (newval : loc) : M unit :=
  incrRefCount newval;;
  oldval ← arg i;
  set_arg i newval;;
  decrRefCount oldval;;
  if bool_decide (i = O) then
    o ← getobj newval;
    modify (set_cmd (λ _, String.string_of_list_byte (lower <$> text_of o)))
  else return_void.

(** ** Long doubles *)

(** What [incrbyfloatCommand] needs from the C library and from object.c:
    the numbers, their sum, the two tests on them, reading one from text
    and from a [long], and the text of one. *)
Class LongDouble := {
  ldouble : Type;
  strtold : sds → option ldouble;
  ld_of_long : Z → ldouble;
  ld_add : ldouble → ldouble → ldouble;
  isnan : ldouble → bool;
  isinf : ldouble → bool;
  ld2string : ldouble → sds
}.

Section with_long_double.
Context {LD : LongDouble}.

(** Modelled from the spec: [getLongDoubleFromObjectOrReply] of object.c
    (not part of the sources at hand): an absent value counts as 0, a
    present one is parsed as a number; text that is no number, or not a
    number at all, is refused (section 4.2).  [None] stands for [C_ERR]. *)
Definition getLongDoubleFromObjectOrReply (o : option loc) : M (option ldouble) :=
  match o with
  | None => mret (Some (ld_of_long 0))
  | Some l =>
      ob ← getobj l;
      let v := match body ob with
               | RawVal s =>
                   match strtold s with
                   | Some x => if isnan x then None else Some x
                   | None => None
                   end
               | IntVal n => Some (ld_of_long n)
               | OtherVal _ => None
               end in
      match v with
      | Some x => mret (Some x)
      | None => addReply NotAFloat;; mret None
      end
  end.

(** Modelled from the spec: [createStringObjectFromLongDouble] of object.c
    (not part of the sources at hand): the text of the number as a fresh
    owned byte buffer, never a pool member (section 4.2). *)
Definition createStringObjectFromLongDouble (value : ldouble) : M loc :=
  createStringObject (ld2string value).

End with_long_double.

(** [lookupKeyReadOrReply]: the lookup, with [r] sent when the key is not
    there. *)
Definition lookupKeyReadOrReply (key : loc) (r : reply_t) : M (option loc) :=
  o ← lookupKeyRead key;
  match o with
  | None => addReply r;; mret None
  | Some l => mret (Some l)
  end.

(** [(long) o->ptr] of an integer-encoded object. *)
Definition ptr_long (o : robj) : Z :=
  match body o with
  | IntVal n => n
  | _ => 0
  end.

(** ** The commands of t_string.c *)

Definition checkStringLength (size : Z) : M bool :=
  if size >? 512 * 1024 * 1024 then
    addReplyError "string exceeds maximum allowed size (512MB)";;
    mret C_ERR
  else mret C_OK.

Definition OBJ_SET_NO_FLAGS : Z := 0.
Definition OBJ_SET_NX : Z := Z.shiftl 1 0.
Definition OBJ_SET_XX : Z := Z.shiftl 1 1.
Definition OBJ_SET_EX : Z := Z.shiftl 1 2.
Definition OBJ_SET_PX : Z := Z.shiftl 1 3.

(** [flags & f] as a truth value. *)
Definition has_flag (flags f : Z) : bool := negb (Z.land flags f =? 0).

Definition setGenericCommand (flags : Z) (key val : loc) (expire : option loc)
    (unit_ : time_unit) (ok_reply abort_reply : option reply_t) : M unit :=
  ms ← match expire with
       | Some e =>
           r ← getLongLongFromObjectOrReply (Some e);
           match r with
           | None => mret None
           | Some milliseconds =>
               if milliseconds <=? 0 then
                 name ← gets cmd;
                 addReplyError ("invalid expire time in " +:+ name);;
                 mret None
               else
                 mret (Some (match unit_ with
                             | UNIT_SECONDS => to_ll (milliseconds * 1000)
                             | UNIT_MILLISECONDS => milliseconds
                             end))
           end
       | None => mret (Some 0)
       end;
  match ms with
  | None => return_void
  | Some milliseconds =>
      nx ← (if has_flag flags OBJ_SET_NX
            then o ← lookupKeyWrite key; mret (bool_decide (o ≠ None))
            else mret false);
      xx ← (if nx then mret false
            else if has_flag flags OBJ_SET_XX
            then o ← lookupKeyWrite key; mret (bool_decide (o = None))
            else mret false);
      if nx || xx then
        addReply (default (RShared shared_nullbulk) abort_reply)
      else
        setKey key val;;
        modify (set_dirty (λ d, d + 1));;
        match expire with
        | Some _ => now ← gets mstime; setExpire key (to_ll (now + milliseconds))
        | None => return_void
        end;;
        notifyKeyspaceEvent NOTIFY_STRING "set" key;;
        match expire with
        | Some _ => notifyKeyspaceEvent NOTIFY_GENERIC "expire" key
        | None => return_void
        end;;
        addReply (default (RShared shared_ok) ok_reply)
  end.

(** [a] is the two-letter option [c0 c1], in either case: the test
    [(a[0] == c0 || a[0] == C0) && (a[1] == c1 || a[1] == C1) && a[2] == 0]
    on a buffer that ends with a zero byte. *)
Definition is_option (a : sds) (c0 C0 c1 C1 : byte) : bool :=
  (bool_decide (nth 0 a x00 = c0) || bool_decide (nth 0 a x00 = C0))
  && (bool_decide (nth 1 a x00 = c1) || bool_decide (nth 1 a x00 = C1))
  && bool_decide (nth 2 a x00 = x00).

(** The option loop of [setCommand] over the arguments from [argv[3]] on;
    [None] when it answered with a syntax error. *)
Fixpoint setCommand_options (rest : list loc) (flags : Z) (expire : option loc)
    (unit_ : time_unit) : M (option (Z * option loc * time_unit)) :=
  match rest with
  | [] => mret (Some (flags, expire, unit_))
  | aj :: rest' =>
      o ← getobj aj;
      let a := ptr_sds o in
      if is_option a "n" "N" "x" "X" && negb (has_flag flags OBJ_SET_XX) then
        setCommand_options rest' (Z.lor flags OBJ_SET_NX) expire unit_
      else if is_option a "x" "X" "x" "X" && negb (has_flag flags OBJ_SET_NX) then
        setCommand_options rest' (Z.lor flags OBJ_SET_XX) expire unit_
      else if is_option a "e" "E" "x" "X" && negb (has_flag flags OBJ_SET_PX) then
        match rest' with
        | next :: rest'' =>
            setCommand_options rest'' (Z.lor flags OBJ_SET_EX) (Some next)
              UNIT_SECONDS
        | [] => addReply (RShared shared_syntaxerr);; mret None
        end
      else if is_option a "p" "P" "x" "X" && negb (has_flag flags OBJ_SET_EX) then
        match rest' with
        | next :: rest'' =>
            setCommand_options rest'' (Z.lor flags OBJ_SET_PX) (Some next)
              UNIT_MILLISECONDS
        | [] => addReply (RShared shared_syntaxerr);; mret None
        end
      else addReply (RShared shared_syntaxerr);; mret None
  end.

Definition setCommand : M unit :=
  rest ← gets (λ s, drop 3 (argv s));
  r ← setCommand_options rest OBJ_SET_NO_FLAGS None UNIT_SECONDS;
  match r with
  | None => return_void
  | Some (flags, expire, unit_) =>
      a2 ← arg 2; e ← tryObjectEncoding a2; set_arg 2 e;;
      key ← arg 1; val ← arg 2;
      setGenericCommand flags key val expire unit_ None None
  end.

Definition setnxCommand : M unit :=
  a2 ← arg 2; e ← tryObjectEncoding a2; set_arg 2 e;;
  key ← arg 1; val ← arg 2;
  setGenericCommand OBJ_SET_NX key val None UNIT_SECONDS
    (Some (RShared shared_cone)) (Some (RShared shared_czero)).

Definition setexCommand : M unit :=
  a3 ← arg 3; e ← tryObjectEncoding a3; set_arg 3 e;;
  key ← arg 1; val ← arg 3; expire ← arg 2;
  setGenericCommand OBJ_SET_NO_FLAGS key val (Some expire) UNIT_SECONDS
    None None.

Definition psetexCommand : M unit :=
  a3 ← arg 3; e ← tryObjectEncoding a3; set_arg 3 e;;
  key ← arg 1; val ← arg 3; expire ← arg 2;
  setGenericCommand OBJ_SET_NO_FLAGS key val (Some expire) UNIT_MILLISECONDS
    None None.

Definition getGenericCommand : M bool :=
  key ← arg 1;
  o ← lookupKeyReadOrReply key (RShared shared_nullbulk);
  match o with
  | None => mret C_OK
  | Some l =>
      ob ← getobj l;
      if bool_decide (type ob ≠ OBJ_STRING) then
        addReply (RShared shared_wrongtypeerr);; mret C_ERR
      else addReplyBulk l;; mret C_OK
  end.

Definition getCommand : M unit := getGenericCommand;; return_void.

Definition getsetCommand : M unit :=
  r ← getGenericCommand;
  if bool_decide (r = C_ERR) then return_void
  else
    a2 ← arg 2; e ← tryObjectEncoding a2; set_arg 2 e;;
    key ← arg 1; val ← arg 2;
    setKey key val;;
    notifyKeyspaceEvent NOTIFY_STRING "set" key;;
    modify (set_dirty (λ d, d + 1)).

(** The end of [setrangeCommand], which both branches reach with the
    object [o] that takes the bytes. *)
Definition setrange_write (key o : loc) (offset : Z) (value : sds) : M unit :=
  (if sdslen value >? 0 then
     ob ← getobj o;
     let grown := sdsgrowzero (ptr_sds ob) (to_size_t (offset + sdslen value)) in
     set_ptr o (RawVal (memcpy_at grown offset value));;
     signalModifiedKey key;;
     notifyKeyspaceEvent NOTIFY_STRING "setrange" key;;
     modify (set_dirty (λ d, d + 1))
   else return_void);;
  ob ← getobj o;
  addReplyLongLong (sdslen (ptr_sds ob)).

Definition setrangeCommand : M unit :=
  a3 ← arg 3; vo ← getobj a3;
  let value := ptr_sds vo in
  a2 ← arg 2;
  r ← getLongFromObjectOrReply (Some a2);
  match r with
  | None => return_void
  | Some offset =>
      if offset <? 0 then addReplyError "offset is out of range"
      else
        key ← arg 1;
        o ← lookupKeyWrite key;
        match o with
        | None =>
            if sdslen value =? 0 then addReply (RShared shared_czero)
            else
              ok ← checkStringLength (to_ll (to_size_t (offset + sdslen value)));
              if bool_decide (ok ≠ C_OK) then return_void
              else
                o ← createObject
                      (RawVal (sdsnewlen_zero (to_size_t (offset + sdslen value))));
                dbAdd key o;;
                setrange_write key o offset value
        | Some o =>
            ob ← getobj o;
            wrong ← checkType ob OBJ_STRING;
            if (wrong : bool) then return_void
            else
              let olen := stringObjectLen ob in
              if sdslen value =? 0 then addReplyLongLong olen
              else
                ok ← checkStringLength
                       (to_ll (to_size_t (offset + sdslen value)));
                if bool_decide (ok ≠ C_OK) then return_void
                else
                  o ← dbUnshareStringValue key o;
                  setrange_write key o offset value
        end
  end.

Definition getrangeCommand : M unit :=
  a2 ← arg 2;
  r1 ← getLongLongFromObjectOrReply (Some a2);
  match r1 with
  | None => return_void
  | Some start =>
      a3 ← arg 3;
      r2 ← getLongLongFromObjectOrReply (Some a3);
      match r2 with
      | None => return_void
      | Some end_ =>
          key ← arg 1;
          o ← lookupKeyReadOrReply key (RShared shared_emptybulk);
          match o with
          | None => return_void
          | Some l =>
              ob ← getobj l;
              wrong ← checkType ob OBJ_STRING;
              if (wrong : bool) then return_void
              else
                let s := if bool_decide (encoding ob = OBJ_ENCODING_INT)
                         then ll2string (ptr_long ob) else ptr_sds ob in
                let strlen := sdslen s in
                if (start <? 0) && (end_ <? 0) && (start >? end_) then
                  addReply (RShared shared_emptybulk)
                else
                  let start := if start <? 0 then to_ll (strlen + start) else start in
                  let end_ := if end_ <? 0 then to_ll (strlen + end_) else end_ in
                  let start := if start <? 0 then 0 else start in
                  let end_ := if end_ <? 0 then 0 else end_ in
                  let end_ := if to_size_t end_ >=? strlen
                              then to_ll (strlen - 1) else end_ in
                  if (start >? end_) || (strlen =? 0) then
                    addReply (RShared shared_emptybulk)
                  else
                    addReply (RBulk (take (Z.to_nat (end_ - start + 1))
                                          (drop (Z.to_nat start) s)))
          end
      end
  end.

(** The body of the loop of [mgetCommand], for the key [c->argv[j]]. *)
Definition mget_one (key : loc) : M unit :=
  o ← lookupKeyRead key;
  match o with
  | None => addReply (RShared shared_nullbulk)
  | Some l =>
      ob ← getobj l;
      if bool_decide (type ob ≠ OBJ_STRING)
      then addReply (RShared shared_nullbulk)
      else addReplyBulk l
  end.

Definition mgetCommand : M unit :=
  n ← argc;
  addReply (RMultiBulkLen (n - 1));;
  keys ← gets (λ s, drop 1 (argv s));
  forM_ keys mget_one.

(** The values [1, 3, 5, ...] below [n] that the loops of
    [msetGenericCommand] give to [j]. *)
Definition pair_indices (n : nat) : list nat :=
  (λ i, 1 + 2 * i)%nat <$> seq 0 (n / 2).

(** The first loop of [msetGenericCommand]: the number of keys that exist. *)
Fixpoint mset_busykeys (js : list nat) (busykeys : Z) : M Z :=
  match js with
  | [] => mret busykeys
  | j :: r =>
      key ← arg j;
      o ← lookupKeyWrite key;
      mset_busykeys r (if bool_decide (o ≠ None) then busykeys + 1 else busykeys)
  end.

(** The body of the second loop of [msetGenericCommand]: the pair at
    [c->argv[j]], [c->argv[j+1]] is stored. *)
Definition mset_assign (j : nat) : M unit :=
  v ← arg (j + 1); e ← tryObjectEncoding v; set_arg (j + 1) e;;
  key ← arg j; val ← arg (j + 1);
  setKey key val;;
  notifyKeyspaceEvent NOTIFY_STRING "set" key.

Definition msetGenericCommand (nx : bool) : M unit :=
  n ← argc;
  if n mod 2 =? 0 then addReplyError "wrong number of arguments for MSET"
  else
    js ← gets (λ s, pair_indices (length (argv s)));
    busykeys ← (if nx then mset_busykeys js 0 else mret 0);
    if negb (busykeys =? 0) then addReply (RShared shared_czero)
    else
      forM_ js mset_assign;;
      modify (set_dirty (λ d, d + (n - 1) / 2));;
      addReply (if nx then RShared shared_cone else RShared shared_ok).

Definition msetCommand : M unit := msetGenericCommand false.

Definition msetnxCommand : M unit := msetGenericCommand true.

Definition incrDecrCommand (incr : Z) : M unit :=
  key ← arg 1;
  o ← lookupKeyWrite key;
  wrong ← match o with
          | Some l => ob ← getobj l; checkType ob OBJ_STRING
          | None => mret false
          end;
  if (wrong : bool) then return_void
  else
    r ← getLongLongFromObjectOrReply o;
    match r with
    | None => return_void
    | Some value =>
        let oldvalue := value in
        if ((incr <? 0) && (oldvalue <? 0) && (incr <? LLONG_MIN - oldvalue))
           || ((incr >? 0) && (oldvalue >? 0) && (incr >? LLONG_MAX - oldvalue))
        then addReplyError "increment or decrement would overflow"
        else
          let value := to_ll (value + incr) in
          ob ← match o with
               | Some l => getobj l
               | None => mret (mkObj 0 (OtherVal 0))
               end;
          new ← match o with
                | Some l =>
                    if bool_decide (refcount ob = 1)
                       && bool_decide (encoding ob = OBJ_ENCODING_INT)
                       && ((value <? 0) || (value >=? OBJ_SHARED_INTEGERS))
                       && (value >=? LONG_MIN) && (value <=? LONG_MAX)
                    then set_ptr l (IntVal value);; mret l
                    else
                      new ← createStringObjectFromLongLong value;
                      dbOverwrite key new;;
                      mret new
                | None =>
                    new ← createStringObjectFromLongLong value;
                    dbAdd key new;;
                    mret new
                end;
          signalModifiedKey key;;
          notifyKeyspaceEvent NOTIFY_STRING "incrby" key;;
          modify (set_dirty (λ d, d + 1));;
          addReply (RShared shared_colon);;
          addReplyObj new;;
          addReply (RShared shared_crlf)
    end.

Definition incrCommand : M unit := incrDecrCommand 1.

Definition decrCommand : M unit := incrDecrCommand (-1).

Definition incrbyCommand : M unit :=
  a2 ← arg 2;
  r ← getLongLongFromObjectOrReply (Some a2);
  match r with
  | None => return_void
  | Some incr => incrDecrCommand incr
  end.

Definition decrbyCommand : M unit :=
  a2 ← arg 2;
  r ← getLongLongFromObjectOrReply (Some a2);
  match r with
  | None => return_void
  | Some incr => incrDecrCommand (to_ll (- incr))
  end.

Section incrbyfloat.
Context {LD : LongDouble}.

Definition incrbyfloatCommand : M unit :=
  key ← arg 1;
  o ← lookupKeyWrite key;
  wrong ← match o with
          | Some l => ob ← getobj l; checkType ob OBJ_STRING
          | None => mret false
          end;
  if (wrong : bool) then return_void
  else
    r1 ← getLongDoubleFromObjectOrReply o;
    match r1 with
    | None => return_void
    | Some value =>
        a2 ← arg 2;
        r2 ← getLongDoubleFromObjectOrReply (Some a2);
        match r2 with
        | None => return_void
        | Some incr =>
            let value := ld_add value incr in
            if isnan value || isinf value then
              addReplyError "increment would produce NaN or Infinity"
            else
              new ← createStringObjectFromLongDouble value;
              match o with
              | Some _ => dbOverwrite key new
              | None => dbAdd key new
              end;;
              signalModifiedKey key;;
              notifyKeyspaceEvent NOTIFY_STRING "incrbyfloat" key;;
              modify (set_dirty (λ d, d + 1));;
              addReplyBulk new;;
              aux ← createStringObject (str "SET");
              rewriteClientCommandArgument 0 aux;;
              decrRefCount aux;;
              rewriteClientCommandArgument 2 new
        end
    end.

End incrbyfloat.

Definition appendCommand : M unit :=
  key ← arg 1;
  o ← lookupKeyWrite key;
  totlen ← match o with
           | None =>
               a2 ← arg 2; e ← tryObjectEncoding a2; set_arg 2 e;;
               val ← arg 2;
               dbAdd key val;;
               incrRefCount val;;
               vo ← getobj val;
               mret (Some (stringObjectLen vo))
           | Some l =>
               ob ← getobj l;
               wrong ← checkType ob OBJ_STRING;
               if (wrong : bool) then mret None
               else
                 append ← arg 2;
                 ao ← getobj append;
                 let totlen :=
                   to_size_t (stringObjectLen ob + sdslen (ptr_sds ao)) in
                 ok ← checkStringLength (to_ll totlen);
                 if bool_decide (ok ≠ C_OK) then mret None
                 else
                   l' ← dbUnshareStringValue key l;
                   ob' ← getobj l';
                   set_ptr l' (RawVal (sdscatlen (ptr_sds ob') (ptr_sds ao)));;
                   ob'' ← getobj l';
                   mret (Some (sdslen (ptr_sds ob'')))
           end;
  match totlen with
  | None => return_void
  | Some totlen =>
      signalModifiedKey key;;
      notifyKeyspaceEvent NOTIFY_STRING "append" key;;
      modify (set_dirty (λ d, d + 1));;
      addReplyLongLong totlen
  end.

Definition strlenCommand : M unit :=
  key ← arg 1;
  o ← lookupKeyReadOrReply key (RShared shared_czero);
  match o with
  | None => return_void
  | Some l =>
      ob ← getobj l;
      wrong ← checkType ob OBJ_STRING;
      if (wrong : bool) then return_void
      else addReplyLongLong (stringObjectLen ob)
  end.

(** ** Decimal numbers *)

(** Modelled from the spec: the numbers of [incrementFloat] (section 4.2),
    "arbitrary-precision decimals": [Dec m e] is [m * 10^e]; the two
    infinities and not-a-number are what the sum is tested for. *)
Inductive decimal :=
  | Dec (m e : Z)
  | DInf (neg : bool)
  | DNaN.

Definition dec_add (x y : decimal) : decimal :=
  match x, y with
  | Dec m1 e1, Dec m2 e2 =>
      let e := Z.min e1 e2 in
      Dec (m1 * 10 ^ (e1 - e) + m2 * 10 ^ (e2 - e)) e
  | DNaN, _ | _, DNaN => DNaN
  | DInf a, DInf b => if bool_decide (a = b) then DInf a else DNaN
  | DInf a, Dec _ _ | Dec _ _, DInf a => DInf a
  end.

Definition dec_isnan (x : decimal) : bool :=
  match x with DNaN => true | _ => false end.

Definition dec_isinf (x : decimal) : bool :=
  match x with DInf _ => true | _ => false end.

(** The longest run of digits at the head of [s], and what follows it. *)
Fixpoint span_digits (s : sds) : sds * sds :=
  match s with
  | d :: r =>
      if is_digit d then let '(ds, rest) := span_digits r in (d :: ds, rest)
      else ([], s)
  | [] => ([], [])
  end.

Definition parse_sign (s : sds) : bool * sds :=
  match s with
  | c :: r =>
      if bool_decide (c = "-"%byte) then (true, r)
      else if bool_decide (c = "+"%byte) then (false, r)
      else (false, s)
  | [] => (false, s)
  end.

(** Decimal text: a sign, digits with an optional point, an optional
    exponent; or a signed infinity. *)
Definition dec_parse (s : sds) : option decimal :=
  let '(neg, s1) := parse_sign s in
  if bool_decide (s1 = str "inf") || bool_decide (s1 = str "infinity")
  then Some (DInf neg)
  else
    let '(ip, s2) := span_digits s1 in
    let '(fp, s3) := match s2 with
                     | c :: r => if bool_decide (c = "."%byte) then span_digits r
                                 else ([], s2)
                     | [] => ([], s2)
                     end in
    if bool_decide (ip = []) && bool_decide (fp = []) then None
    else
      ex ← match s3 with
           | [] => Some 0
           | c :: r =>
               if bool_decide (c = "e"%byte) || bool_decide (c = "E"%byte) then
                 let '(eneg, r1) := parse_sign r in
                 let '(ed, rest) := span_digits r1 in
                 if bool_decide (ed = []) || negb (bool_decide (rest = []))
                 then None
                 else v ← digits_val 0 ed; Some (if eneg then - v else v)
               else None
           end;
      m ← digits_val 0 (ip ++ fp);
      Some (Dec (if neg then - m else m) (ex - sdslen fp)).

(** The digits of a non-negative number of any size. *)
Definition nat_digits (n : Z) : sds := digits_of (S (Z.to_nat (Z.log2 n))) n [].

Fixpoint strip_zeros (rev_digits : sds) : sds :=
  match rev_digits with
  | d :: r => if bool_decide (d = "0"%byte) then strip_zeros r else rev_digits
  | [] => []
  end.

(** The shortest decimal text of a number: no exponent, no zero at the
    end of the fraction, no point without a fraction. *)
Definition dec_format (x : decimal) : sds :=
  match x with
  | Dec m e =>
      let sign := if m <? 0 then ["-"%byte] else [] in
      let a := Z.abs m in
      if e >=? 0 then sign ++ nat_digits (a * 10 ^ e)
      else
        let p := 10 ^ (- e) in
        let frac := reverse (strip_zeros (reverse (tail (nat_digits (p + a mod p))))) in
        sign ++ nat_digits (a / p)
          ++ (if bool_decide (frac = []) then [] else "."%byte :: frac)
  | DInf neg => if neg then str "-inf" else str "inf"
  | DNaN => str "nan"
  end.

#[global] Instance decimal_long_double : LongDouble := {|
  ldouble := decimal;
  strtold := dec_parse;
  ld_of_long := λ n, Dec n 0;
  ld_add := dec_add;
  isnan := dec_isnan;
  isinf := dec_isinf;
  ld2string := dec_format
|}.

(** ** Clients *)

(** The client's argument vector as text. *)
Definition argv_text (s : state) : list sds :=
  (λ l, text_of (eval (getobj l) s)) <$> argv s.

(** The value stored under a key name, as text. *)
Definition value_of (s : state) (k : sds) : option sds :=
  l ← dict s !! k; o ← heap s !! l; Some (text_of o).

(** A server with nothing in it. *)
Definition empty_state : state :=
  mkState ∅ ∅ ∅ ∅ 0 0 [] [] "" [].

(** A new command arrives: the client lets go of the arguments of the
    command before, and the new arguments become objects of its own. *)
Definition with_args (name : string) (args : list sds) (s : state) : state :=
  let s0 := exec (forM_ (argv s) decrRefCount) s in
  let s1 := set_reply (λ _, []) (set_cmd (λ _, name) (set_argv (λ _, []) s0)) in
  foldl (λ st a, let '(l, st') := createStringObject a st in
                 set_argv (λ v, v ++ [l]) st') s1 args.

(** The commands of this file, as the command table names them. *)
Inductive command :=
  | SET | SETNX | SETEX | PSETEX | GET | GETSET | SETRANGE | GETRANGE
  | MGET | MSET | MSETNX | INCR | DECR | INCRBY | DECRBY | INCRBYFLOAT
  | APPEND | STRLEN.

Definition run {LD : LongDouble} (c : command) : M unit :=
  match c with
  | SET => setCommand
  | SETNX => setnxCommand
  | SETEX => setexCommand
  | PSETEX => psetexCommand
  | GET => getCommand
  | GETSET => getsetCommand
  | SETRANGE => setrangeCommand
  | GETRANGE => getrangeCommand
  | MGET => mgetCommand
  | MSET => msetCommand
  | MSETNX => msetnxCommand
  | INCR => incrCommand
  | DECR => decrCommand
  | INCRBY => incrbyCommand
  | DECRBY => decrbyCommand
  | INCRBYFLOAT => incrbyfloatCommand
  | APPEND => appendCommand
  | STRLEN => strlenCommand
  end.

(** The key argument of the command, [c->argv[1]], names [k], and the
    keyspace holds the object [o], at address [l], under that name. *)
Definition key_holds (s : state) (k : sds) (l : loc) (o : robj) : Prop :=
  ∃ key ko, argv s !! 1%nat = Some key ∧ heap s !! key = Some ko
            ∧ ptr_sds ko = k ∧ dict s !! k = Some l ∧ heap s !! l = Some o.

(** The key argument of the command names [k], and the keyspace holds
    nothing under that name. *)
Definition key_absent (s : state) (k : sds) : Prop :=
  ∃ key ko, argv s !! 1%nat = Some key ∧ heap s !! key = Some ko
            ∧ ptr_sds ko = k ∧ dict s !! k = None.

(** The number a string object stands for. *)
Definition number_of (o : robj) : option Z :=
  match body o with
  | RawVal t => string2ll t
  | IntVal n => Some n
  | OtherVal _ => None
  end.

(** Every object of [s] is still there in [s'], with the same content;
    its count of holders may differ. *)
Definition bodies_kept : relation state :=
  λ s s', ∀ l o, heap s !! l = Some o →
                 ∃ o', heap s' !! l = Some o' ∧ body o' = body o.





(** What [MGET] answers for one key: the value when the key holds a
    string, the null marker when the key is absent or holds another kind
    of value. *)
Definition mget_reply (s : state) (key : loc) : reply_t :=
  match dict s !! ptr_sds (eval (getobj key) s) with
  | Some l =>
      match heap s !! l with
      | Some o =>
          if bool_decide (type o = OBJ_STRING) then RBulk (text_of o)
          else RShared shared_nullbulk
      | None => RShared shared_nullbulk
      end
  | None => RShared shared_nullbulk
  end.

(** [MSET a 1] arrives at a server that holds no key: three arguments,
    the command name included. *)
Definition mset_three_args_state : state :=
  with_args "mset" [str "MSET"; str "a"; str "1"] empty_state.

(** The amount a counter command adds: 1 and -1 for INCR and DECR, the
    argument for INCRBY, the negated argument (as a [long long]) for
    DECRBY. *)
Definition counter_delta (c : command) (s : state) : option Z :=
  match c with
  | INCR => Some 1
  | DECR => Some (-1)
  | INCRBY => number_of (eval (getobj (eval (arg 2) s)) s)
  | DECRBY => (λ n, to_ll (- n)) <$> number_of (eval (getobj (eval (arg 2) s)) s)
  | _ => None
  end.

(** A key [k] that holds what [SET k 9223372036854775807] stores, and a
    client that sends [INCR k]. *)
Definition incr_max_state : state :=
  with_args "incr" [str "INCR"; str "k"]
    (exec setCommand
       (with_args "set" [str "SET"; str "k"; str "9223372036854775807"]
          empty_state)).

(** An expire argument that [setGenericCommand] refuses: text that is no
    integer, or an integer that is not positive. *)
Definition bad_expire (eo : robj) : Prop :=
  match number_of eo with
  | None => True
  | Some ms => ms ≤ 0
  end.

(** The error a refused expire argument is answered with. *)
Definition expire_error (s : state) (eo : robj) : reply_t :=
  match number_of eo with
  | None => NotANumber
  | Some _ => InvalidExpire (cmd s)
  end.

(** The keyspace of [s'] is the one of [s]: the same keys hold the same
    objects with the same content, and the expirations are the same. *)
Definition store_unchanged (s s' : state) : Prop :=
  dict s' = dict s ∧ expires s' = expires s ∧ bodies_kept s s'.

(** [SET k v NX EX 0] arrives while [k] holds a value that expires. *)
Definition set_nx_ex0_state : state :=
  with_args "set" [str "SET"; str "k"; str "v"; str "NX"; str "EX"; str "0"]
    (exec setexCommand
       (with_args "setex" [str "SETEX"; str "k"; str "100"; str "old"]
          empty_state)).

(** The [getRange] of section 4.3 of the specification, word by word:
    two negative indices in the wrong order give nothing; a negative index
    counts from the end; what is still negative becomes 0; [end_] is cut to
    the last position; nothing is left when the start is past the end or
    the value is empty; otherwise the slice from [start] to [end_], both
    included. *)
Definition getRange (t : sds) (start end_ : Z) : sds :=
  let L := sdslen t in
  if (start <? 0) && (end_ <? 0) && (start >? end_) then []
  else
    let start := if start <? 0 then L + start else start in
    let end_ := if end_ <? 0 then L + end_ else end_ in
    let start := if start <? 0 then 0 else start in
    let end_ := if end_ <? 0 then 0 else end_ in
    let end_ := if end_ >? L - 1 then L - 1 else end_ in
    if (start >? end_) || (L =? 0) then []
    else take (Z.to_nat (end_ - start + 1)) (drop (Z.to_nat start) t).

(** How a slice is sent: the shared empty reply, or the bytes. *)
Definition range_reply (t : sds) : reply_t :=
  match t with
  | [] => RShared shared_emptybulk
  | _ => RBulk t
  end.

(** Argument [j] of the command is an object that stands for the number
    [n], a signed 64-bit integer. *)
Definition arg_number (s : state) (j : nat) (n : Z) : Prop :=
  ∃ a ao, argv s !! j = Some a ∧ heap s !! a = Some ao
          ∧ number_of ao = Some n ∧ LLONG_MIN ≤ n ≤ LLONG_MAX.

(** [GETRANGE k 10 100] arrives while [k] holds "This is a string". *)
Definition getrange_state (start end_ : string) : state :=
  with_args "getrange" [str "GETRANGE"; str "k"; str start; str end_]
    (exec setCommand
       (with_args "set" [str "SET"; str "k"; str "This is a string"]
          empty_state)).

(** The arguments of [SETRANGE key offset value]: argument 2 stands for
    the number [offset], argument 3 is the bytes [value]. *)
Definition setrange_args (s : state) (offset : Z) (value : sds) : Prop :=
  arg_number s 2 offset
  ∧ ∃ a3 vo, argv s !! 3%nat = Some a3 ∧ heap s !! a3 = Some vo
             ∧ ptr_sds vo = value.

(** The size [setrangeCommand] hands to [checkStringLength] and to the
    allocator: [offset + sdslen (value)], computed in [size_t]. *)
Definition setrange_total (offset : Z) (value : sds) : Z :=
  to_size_t (offset + sdslen value).

(** The bytes [setrangeCommand] leaves in a buffer that held [t]. *)
Definition setrange_bytes (t : sds) (offset : Z) (value : sds) : sds :=
  memcpy_at (sdsgrowzero t (setrange_total offset value)) offset value.

(** The events a command that changed key [k] reports. *)
Definition changed_events (name : string) (k : sds) : list event :=
  [ModifiedKey k; KeyspaceEvent NOTIFY_STRING name k].


(** [SETRANGE k 9223372036854775807 a] arrives at a server that holds no
    key. *)
Definition setrange_max_state : state :=
  with_args "setrange"
    [str "SETRANGE"; str "k"; str "9223372036854775807"; str "a"] empty_state.

(** The bytes of argument [j] of the command. *)
Definition arg_text (s : state) (j : nat) : sds :=
  ptr_sds (eval (getobj (eval (arg j) s)) s).

(** The pairs of an MSET or MSETNX: key name and value, in the order of
    the arguments. *)
Definition batch (s : state) : list (sds * sds) :=
  (λ j, (arg_text s j, arg_text s (j + 1))) <$> pair_indices (length (argv s)).

(** What assigning the pairs one after the other leaves under each name. *)
Definition assigned (b : list (sds * sds)) : gmap sds sds :=
  foldl (λ m kv, <[kv.1 := kv.2]> m) ∅ b.

(** The arguments of the command are objects that hold raw bytes, as the
    ones a client sends. *)
Definition args_raw (s : state) : Prop :=
  ∀ a, a ∈ argv s → ∃ o t, heap s !! a = Some o ∧ body o = RawVal t.

(** Each entry of [shared.integers] is an object that holds its number. *)
Definition pool_ok (s : state) : Prop :=
  ∀ n p, integers s !! n = Some p →
         ∃ o, heap s !! p = Some o ∧ body o = IntVal n.

(** [MSETNX a 1 b 2] arrives while [b] holds "x" and [a] is not there. *)
Definition msetnx_busy_state : state :=
  with_args "msetnx" [str "MSETNX"; str "a"; str "1"; str "b"; str "2"]
    (exec setCommand
       (with_args "set" [str "SET"; str "b"; str "x"] empty_state)).

(** [MSETNX a 1 b 2] arrives at a server that holds no key. *)
Definition msetnx_free_state : state :=
  with_args "msetnx" [str "MSETNX"; str "a"; str "1"; str "b"; str "2"]
    empty_state.

(** The state [st] in the middle of the second loop of
    [msetGenericCommand], started in [s]: the pairs stored so far are the
    ones of [m], the arguments at the positions [js] still to come are
    untouched. *)
Definition mset_inv (s st : state) (m : gmap sds sds) (js : list nat) : Prop :=
  bodies_kept s st ∧ integers st = integers s ∧ reply st = reply s
  ∧ (∀ j, j ∈ js → argv st !! j = argv s !! j
                   ∧ argv st !! (j + 1)%nat = argv s !! (j + 1)%nat)
  ∧ (∀ k v, m !! k = Some v → value_of st k = Some v)
  ∧ (∀ k, m !! k = None → dict st !! k = dict s !! k).

(** Every object of the heap, the arguments of the command and the values
    of the keyspace alike, holds at most 512 MB of bytes. *)
Definition raw_bounded (s : state) : Prop :=
  map_Forall (λ _ o, sdslen (ptr_sds o) ≤ 512 * 1024 * 1024) (heap s).

(** Every value the keyspace holds as a byte buffer is at most 512 MB
    long. *)
Definition stored_bounded (s : state) : Prop :=
  ∀ k l o t, dict s !! k = Some l → heap s !! l = Some o →
             body o = RawVal t → sdslen t ≤ 512 * 1024 * 1024.

(** The bound holds in [s'] when it holds in [s]. *)
Definition bound_kept : relation state :=
  λ s s', raw_bounded s → raw_bounded s'.

(** The offset [setrangeCommand] reads from [c->argv[2]], when it is one. *)
Definition setrange_offset (s : state) : option Z :=
  eval (a2 ← arg 2; getLongFromObjectOrReply (Some a2)) s.

(** The bytes [setrangeCommand] reads from [c->argv[3]]. *)
Definition setrange_value (s : state) : sds :=
  ptr_sds (eval (a3 ← arg 3; getobj a3) s).

(** The sum [offset + sdslen (value)] of [setrangeCommand] is a number a
    [long long] holds. *)
Definition no_wrap (s : state) : Prop :=
  ∀ offset, setrange_offset s = Some offset →
            offset + sdslen (setrange_value s) ≤ LLONG_MAX.

(** Argument 2 of the command is the bytes [data]. *)
Definition append_arg (s : state) (data : sds) : Prop :=
  ∃ a ao, argv s !! 2%nat = Some a ∧ heap s !! a = Some ao
          ∧ ptr_sds ao = data.

(** One byte more than 512 MB. *)
Definition long_value : sds :=
  replicate (Z.to_nat (512 * 1024 * 1024 + 1)) x00.

(** [SET k v] arrives at a server that holds no key, [v] being one byte
    more than 512 MB. *)
Definition set_long_state : state :=
  with_args "set" [str "SET"; str "k"; long_value] empty_state.

(** [APPEND k v] arrives at a server that holds no key, [v] being one
    byte more than 512 MB. *)
Definition append_long_state : state :=
  with_args "append" [str "APPEND"; str "k"; long_value] empty_state.

(** [SETRANGE k 536870912 a] arrives at a server that holds no key. *)
Definition setrange_limit_state : state :=
  with_args "setrange"
    [str "SETRANGE"; str "k"; str "536870912"; str "a"] empty_state.

(** [MSET a 1 b 2 a 3] arrives at a server that holds no key. *)
Definition mset_twice_state : state :=
  with_args "mset"
    [str "MSET"; str "a"; str "1"; str "b"; str "2"; str "a"; str "3"]
    empty_state.

(** [s'] is [s] with more replies, and nothing else changed. *)
Definition replies_only : relation state :=
  λ s s', ∃ r, s' = set_reply (λ rs, rs ++ r) s.

(** Argument [j] of the command is an object that stands for no signed
    64-bit integer. *)
Definition arg_not_number (s : state) (j : nat) : Prop :=
  ∃ a ao, argv s !! j = Some a ∧ heap s !! a = Some ao
          ∧ number_of ao = None.

(** A server whose key [l] holds a value that is no string. *)
Definition other_type_state : state :=
  set_dict <[str "l" := 1%positive]>
    (set_heap <[1%positive := mkObj 1 (OtherVal 1)]> empty_state).

(** A server whose key [k] holds what [SET k 12345] stores. *)
Definition number_state : state :=
  exec setCommand
    (with_args "set" [str "SET"; str "k"; str "12345"] empty_state).

(** What [setGenericCommand] tests before it stores: the key is there
    although NX asks for a new key, or it is not there although XX asks
    for one that exists. *)
Definition set_aborts (flags : Z) (s : state) (k : sds) : bool :=
  (has_flag flags OBJ_SET_NX && bool_decide (dict s !! k ≠ None))
  || (has_flag flags OBJ_SET_XX && bool_decide (dict s !! k = None)).

(** The time to live [setGenericCommand] takes from its [expire]
    argument, in milliseconds: none without the argument; for an argument
    that stands for the positive integer [n], [n] itself or [n * 1000] as
    a [long long], by the unit. *)
Definition set_ttl (s : state) (expire : option loc) (unit_ : time_unit)
    (ttl : option Z) : Prop :=
  match expire with
  | None => ttl = None
  | Some e =>
      ∃ eo n, heap s !! e = Some eo ∧ number_of eo = Some n ∧ 0 < n
              ∧ ttl = Some (match unit_ with
                            | UNIT_SECONDS => to_ll (n * 1000)
                            | UNIT_MILLISECONDS => n
                            end)
  end.

(** The events of a SET that stores under the name [k]. *)
Definition set_events_of (k : sds) (ttl : option Z) : list event :=
  [ModifiedKey k; KeyspaceEvent NOTIFY_STRING "set" k]
  ++ match ttl with
     | Some _ => [KeyspaceEvent NOTIFY_GENERIC "expire" k]
     | None => []
     end.

(** [SET k new XX PX 1500] arrives at time 1000 while [k] holds "old". *)
Definition set_xx_px_state : state :=
  with_args "set"
    [str "SET"; str "k"; str "new"; str "XX"; str "PX"; str "1500"]
    (exec setCommand
       (with_args "set" [str "SET"; str "k"; str "old"]
          (mkState ∅ ∅ ∅ ∅ 0 1000 [] [] "" []))).

(** The step [c->argv[j] = tryObjectEncoding (c->argv[j])]. *)
Definition encode_arg (j : nat) : M unit :=
  a ← arg j; e ← tryObjectEncoding a; set_arg j e.

(** What a SET variant leaves when it does not store: the keyspace, the
    expirations, the objects, the counter of changes and the events are
    the ones before. *)
Definition nothing_stored (s s' : state) : Prop :=
  store_unchanged s s' ∧ dirty s' = dirty s ∧ events s' = events s.

(** The key [k] holds a string value whose text is [v]. *)
Definition holds_string (s : state) (k v : sds) : Prop :=
  ∃ l o, dict s !! k = Some l ∧ heap s !! l = Some o
         ∧ type o = OBJ_STRING ∧ text_of o = v.

(** What a SET variant leaves when it stores [v] under the name [k] with
    the time to live [ttl]. *)
Definition stored (s s' : state) (k v : sds) (ttl : option Z) : Prop :=
  holds_string s' k v
  ∧ expires s' !! k = (λ ms, to_ll (mstime s + ms)) <$> ttl
  ∧ (∀ k', k' ≠ k → dict s' !! k' = dict s !! k'
                    ∧ expires s' !! k' = expires s !! k')
  ∧ bodies_kept s s'
  ∧ dirty s' = dirty s + 1
  ∧ events s' = events s ++ set_events_of k ttl.


(** The options [setCommand] reads from [c->argv[3]] on. *)
Definition set_options (s : state) : option (Z * option loc * time_unit) :=
  eval (setCommand_options (drop 3 (argv s)) OBJ_SET_NO_FLAGS None
          UNIT_SECONDS) s.


(** [SETNX k new] arrives while [k] holds "old". *)
Definition setnx_busy_state : state :=
  with_args "setnx" [str "SETNX"; str "k"; str "new"]
    (exec setCommand
       (with_args "set" [str "SET"; str "k"; str "old"] empty_state)).

(** [SETEX k 10 v] arrives at time 1000 at a server that holds no key. *)
Definition setex_state : state :=
  with_args "setex" [str "SETEX"; str "k"; str "10"; str "v"]
    (mkState ∅ ∅ ∅ ∅ 0 1000 [] [] "" []).

(** [SET k 007] arrives at a server that holds no key. *)
Definition set_plain_state : state :=
  with_args "set" [str "SET"; str "k"; str "007"] empty_state.

(** The arguments of the command are fresh objects with the bytes
    [args], one holder each. *)
Definition args_are (s : state) (args : list sds) : Prop :=
  Forall2 (λ l t, heap s !! l = Some (mkObj 1 (RawVal t))) (argv s) args.

(** [GETSET k new] arrives while [k] holds "old" and expires. *)
Definition getset_state : state :=
  with_args "getset" [str "GETSET"; str "k"; str "new"]
    (exec setexCommand
       (with_args "setex" [str "SETEX"; str "k"; str "100"; str "old"]
          empty_state)).

(** The events of an APPEND that changes the key [k]. *)
Definition append_events (k : sds) : list event :=
  [ModifiedKey k; KeyspaceEvent NOTIFY_STRING "append" k].

(** Every object of [s] but the one at [l] is still there in [s'], with
    the same content. *)
Definition others_kept (l : loc) (s s' : state) : Prop :=
  ∀ l2 o2, l2 ≠ l → heap s !! l2 = Some o2 →
           ∃ o2', heap s' !! l2 = Some o2' ∧ body o2' = body o2.

(** [APPEND k 45] arrives while [k] holds what [SETEX k 100 123] stores. *)
Definition append_state : state :=
  with_args "append" [str "APPEND"; str "k"; str "45"]
    (exec setexCommand
       (with_args "setex" [str "SETEX"; str "k"; str "100"; str "123"]
          empty_state)).

(** [DECRBY k 30] arrives while [k] holds what [SETEX k 100 10] stores. *)
Definition decrby_state : state :=
  with_args "decrby" [str "DECRBY"; str "k"; str "30"]
    (exec setexCommand
       (with_args "setex" [str "SETEX"; str "k"; str "100"; str "10"]
          empty_state)).

(** [INCR k] arrives while [k] holds "abc". *)
Definition incr_text_state : state :=
  with_args "incr" [str "INCR"; str "k"]
    (exec setCommand
       (with_args "set" [str "SET"; str "k"; str "abc"] empty_state)).

(** The number [getLongDoubleFromObjectOrReply] reads from an object: the
    number its text stands for, unless that is not a number, or the
    number of its integer. *)
Definition ld_read `{LongDouble} (o : robj) : option ldouble :=
  match body o with
  | RawVal t =>
      match strtold t with
      | Some x => if isnan x then None else Some x
      | None => None
      end
  | IntVal n => Some (ld_of_long n)
  | OtherVal _ => None
  end.

(** The number INCRBYFLOAT starts from: 0 for a key that is not there,
    what the value reads as otherwise. *)
Definition float_start `{LongDouble} (s : state) (k : sds) : option ldouble :=
  match dict s !! k with
  | None => Some (ld_of_long 0)
  | Some l => ld_read (eval (getobj l) s)
  end.

(** The events of an INCRBYFLOAT that changes the key [k]. *)
Definition incrbyfloat_events (k : sds) : list event :=
  [ModifiedKey k; KeyspaceEvent NOTIFY_STRING "incrbyfloat" k].

(** [INCRBYFLOAT k 5.0e3] arrives while [k] holds "10.50". *)
Definition incrbyfloat_state : state :=
  with_args "incrbyfloat" [str "INCRBYFLOAT"; str "k"; str "5.0e3"]
    (exec setCommand
       (with_args "set" [str "SET"; str "k"; str "10.50"] empty_state)).

(** Every argument of the command is an object of the heap. *)
Definition args_in (s : state) : Prop :=
  ∀ a, a ∈ argv s → is_Some (heap s !! a).

(** No stored value is one of the arguments of the command: the arguments
    are objects made for this command. *)
Definition args_apart (s : state) : Prop :=
  map_Forall (λ _ l, l ∉ argv s) (dict s).

(** In [s'] the command has the name and the arguments read the texts
    they have in [s], when the arguments of [s] are objects of the heap
    and the pool of [s] is in order; both are then so in [s'] as well. *)
Definition args_kept : relation state :=
  λ s s', args_in s → pool_ok s →
          args_in s' ∧ pool_ok s'
          ∧ argv_text s' = argv_text s ∧ cmd s' = cmd s.

(** Every object of [s] at an address in [P] is still there in [s'], with
    the same content. *)
Definition kept_at (P : loc → Prop) : relation state :=
  λ s s', ∀ l o, P l → heap s !! l = Some o →
                 ∃ o', heap s' !! l = Some o' ∧ body o' = body o.

(** Started in a state with the heap and the keyspace of [s], the
    command [m] keeps the content of the objects of [s] in [P]. *)
Definition guards (P : loc → Prop) (s : state) {A} (m : M A) : Prop :=
  ∀ s1, heap s1 = heap s → dict s1 = dict s → kept_at P s (exec m s1).

(** Started where the objects of [s] in [P] still have their content, the
    command [m] keeps it. *)
Definition guards_on (P : loc → Prop) (s : state) {A} (m : M A) : Prop :=
  ∀ s1, kept_at P s s1 → kept_at P s (exec m s1).


(** The arithmetic on machine integers and the text conversions are
    reasoned about through their lemmas, never unfolded by [simpl]. *)
#[global] Arguments to_ll : simpl never.
#[global] Arguments to_size_t : simpl never.
#[global] Arguments string2ll : simpl never.
#[global] Arguments ll2string : simpl never.
#[global] Arguments fresh_loc : simpl never.
#[global] Arguments LLONG_MAX : simpl never.
#[global] Arguments LLONG_MIN : simpl never.
#[global] Arguments LONG_MAX : simpl never.
#[global] Arguments LONG_MIN : simpl never.
#[global] Arguments OBJ_SHARED_INTEGERS : simpl never.
#[global] Arguments Z.mul : simpl never.
#[global] Arguments Z.add : simpl never.
#[global] Arguments Z.sub : simpl never.
#[global] Arguments Z.opp : simpl never.
#[global] Arguments Z.ltb : simpl never.
#[global] Arguments Z.leb : simpl never.
#[global] Arguments Z.gtb : simpl never.
#[global] Arguments Z.geb : simpl never.
#[global] Arguments Z.eqb : simpl never.
#[global] Arguments Z.div : simpl never.
#[global] Arguments Z.modulo : simpl never.
#[global] Arguments Z.pow : simpl never.

(** ** Running commands step by step *)

Lemma exec_bind {A B} (m : M A) (f : A → M B) (s : state) :
  exec (m ≫= f) s = exec (f (eval m s)) (exec m s).
Proof. unfold exec, eval, mbind, M_bind. by destruct (m s). Qed.

Lemma eval_bind {A B} (m : M A) (f : A → M B) (s : state) :
  eval (m ≫= f) s = eval (f (eval m s)) (exec m s).
Proof. unfold exec, eval, mbind, M_bind. by destruct (m s). Qed.

Lemma exec_ret {A} (a : A) (s : state) : exec (mret a) s = s.
Proof. done. Qed.

Lemma eval_ret {A} (a : A) (s : state) : eval (mret a) s = a.
Proof. done. Qed.

Lemma exec_gets {A} (f : state → A) (s : state) : exec (gets f) s = s.
Proof. done. Qed.

Lemma eval_gets {A} (f : state → A) (s : state) : eval (gets f) s = f s.
Proof. done. Qed.

Lemma exec_modify (f : state → state) (s : state) : exec (modify f) s = f s.
Proof. done. Qed.

Lemma exec_forM_nil {A} (f : A → M unit) (s : state) : exec (forM_ [] f) s = s.
Proof. done. Qed.

Lemma exec_forM_cons {A} (f : A → M unit) (x : A) (l : list A) (s : state) :
  exec (forM_ (x :: l) f) s = exec (forM_ l f) (exec (f x) s).
Proof. simpl. by rewrite exec_bind. Qed.

Lemma exec_forM_app {A} (f : A → M unit) (l1 l2 : list A) (s : state) :
  exec (forM_ (l1 ++ l2) f) s = exec (forM_ l2 f) (exec (forM_ l1 f) s).
Proof.
  revert s. induction l1 as [|x l1 IH]; intros s; [done|].
  by rewrite <- app_comm_cons, !exec_forM_cons, IH.
Qed.

(** Unfolds the operations on the state down to pairs. *)
Ltac munfold :=
  repeat progress
    unfold exec, eval, return_void, addReplyBulk, addReplyObj, addReplyError,
      addReplyLongLong, addReply, lookupKeyReadOrReply, lookupKeyRead,
      lookupKeyWrite, keyname, getobj, arg, argc, set_arg, checkType,
      signalModifiedKey, notifyKeyspaceEvent, setExpire, dbAdd, dbOverwrite,
      incrRefCount, decrRefCount, set_ptr, createStringObject, createObject,
      getLongLongFromObjectOrReply, getLongFromObjectOrReply,
      getLongLongFromObject, checkStringLength,
      modify, gets, mbind, M_bind, mret, M_ret in *.

(** Runs a straight-line command symbolically, with a case for each
    lookup that is not known. *)
Ltac mcases := munfold; simpl; repeat (case_match; simplify_eq/=).

(** ** What a command leaves alone *)

(** [preserves R m]: running [m] takes every state to one related to it
    by [R]. *)
Definition preserves {A} (R : relation state) (m : M A) : Prop :=
  ∀ s, R s (exec m s).

Section preserves.
Context (R : relation state) `{!PreOrder R}.

Lemma preserves_bind {A B} (m : M A) (f : A → M B) :
  preserves R m → (∀ a, preserves R (f a)) → preserves R (m ≫= f).
Proof. intros Hm Hf s. rewrite exec_bind. etrans; [apply Hm|apply Hf]. Qed.

Lemma preserves_ret {A} (a : A) : preserves R (mret a : M A).
Proof. intros s. reflexivity. Qed.

Lemma preserves_void : preserves R return_void.
Proof. intros s. reflexivity. Qed.

Lemma preserves_gets {A} (f : state → A) : preserves R (gets f).
Proof. intros s. reflexivity. Qed.

Lemma preserves_forM {A} (l : list A) (f : A → M unit) :
  (∀ x, preserves R (f x)) → preserves R (forM_ l f).
Proof.
  intros Hf. induction l as [|x l IH]; intros s; [reflexivity|].
  rewrite exec_forM_cons. etrans; [apply Hf|apply IH].
Qed.

End preserves.

(** The states that agree on what [f] reads from them. *)
Definition same {A} (f : state → A) : relation state := λ s s', f s' = f s.

#[global] Instance same_preorder {A} (f : state → A) : PreOrder (same f).
Proof. split; [done|]. intros x y z H1 H2. unfold same in *. congruence. Qed.

Create HintDb frame discriminated.

(** Splits a command along its binds and branches; what is left are the
    writes to the state, which [done] settles when they are writes to
    other fields. *)
Ltac head_of t :=
  lazymatch t with
  | ?f _ => head_of f
  | _ => t
  end.

Ltac frame_step :=
  lazymatch goal with
  | |- preserves _ (mbind _ _) => apply preserves_bind; [apply _| |intros ?]
  | |- preserves _ (mret _) => apply preserves_ret; apply _
  | |- preserves _ return_void => apply preserves_void; apply _
  | |- preserves _ (gets _) => apply preserves_gets; apply _
  | |- preserves _ (forM_ _ _) => apply preserves_forM; [apply _|intros ?]
  | |- preserves _ (match ?x with _ => _ end) => destruct x
  | |- preserves _ (modify _) => fail
  | |- preserves _ ?m =>
      first [ solve [eauto with frame]
            | let h := head_of m in progress unfold h ]
  end.

Ltac frame :=
  repeat frame_step; try solve [intros ?; done | eauto with frame].

(** ** The steps of a command *)

Lemma exec_argc (s : state) : exec argc s = s.
Proof. done. Qed.

Lemma eval_argc (s : state) : eval argc s = Z.of_nat (length (argv s)).
Proof. done. Qed.

Lemma exec_arg (j : nat) (s : state) : exec (arg j) s = s.
Proof. done. Qed.

Lemma eval_arg (j : nat) (s : state) :
  eval (arg j) s = default 1%positive (argv s !! j).
Proof. done. Qed.

Lemma exec_getobj (l : loc) (s : state) : exec (getobj l) s = s.
Proof. done. Qed.

Lemma eval_getobj (l : loc) (s : state) :
  eval (getobj l) s = default (mkObj 0 (OtherVal 0)) (heap s !! l).
Proof. done. Qed.

Lemma exec_keyname (key : loc) (s : state) : exec (keyname key) s = s.
Proof. done. Qed.

Lemma eval_keyname (key : loc) (s : state) :
  eval (keyname key) s = ptr_sds (eval (getobj key) s).
Proof. done. Qed.

Lemma exec_lookupKeyWrite (key : loc) (s : state) :
  exec (lookupKeyWrite key) s = s.
Proof. done. Qed.

Lemma eval_lookupKeyWrite (key : loc) (s : state) :
  eval (lookupKeyWrite key) s = dict s !! eval (keyname key) s.
Proof. done. Qed.

Lemma exec_lookupKeyRead (key : loc) (s : state) :
  exec (lookupKeyRead key) s = s.
Proof. done. Qed.

Lemma eval_lookupKeyRead (key : loc) (s : state) :
  eval (lookupKeyRead key) s = dict s !! eval (keyname key) s.
Proof. done. Qed.

Lemma exec_addReply (r : reply_t) (s : state) :
  exec (addReply r) s = set_reply (λ rs, rs ++ [r]) s.
Proof. done. Qed.

Lemma exec_addReplyError (msg : string) (s : state) :
  exec (addReplyError msg) s = set_reply (λ rs, rs ++ [RError msg]) s.
Proof. done. Qed.

Lemma exec_addReplyLongLong (n : Z) (s : state) :
  exec (addReplyLongLong n) s = set_reply (λ rs, rs ++ [RLongLong n]) s.
Proof. done. Qed.

Lemma exec_void (s : state) : exec return_void s = s.
Proof. done. Qed.

Create Rewrite HintDb mrun.

Hint Rewrite @exec_bind @eval_bind @exec_ret @eval_ret @exec_gets @eval_gets
  @exec_modify exec_argc eval_argc exec_arg eval_arg exec_getobj eval_getobj
  exec_keyname eval_keyname exec_lookupKeyWrite eval_lookupKeyWrite
  exec_lookupKeyRead eval_lookupKeyRead exec_addReply exec_addReplyError
  exec_addReplyLongLong exec_void : mrun.

(** ** Type checks and numbers *)

Lemma number_of_string (o : robj) (v : Z) :
  number_of o = Some v → type o = OBJ_STRING.
Proof. unfold number_of, type. by destruct (body o). Qed.

Lemma eval_checkType_string (o : robj) (s : state) :
  type o = OBJ_STRING → eval (checkType o OBJ_STRING) s = false.
Proof. intros H. unfold checkType. by rewrite bool_decide_eq_false_2 by tauto. Qed.

Lemma exec_checkType_string (o : robj) (s : state) :
  type o = OBJ_STRING → exec (checkType o OBJ_STRING) s = s.
Proof. intros H. unfold checkType. by rewrite bool_decide_eq_false_2 by tauto. Qed.

Lemma eval_checkType_other (o : robj) (s : state) :
  type o ≠ OBJ_STRING → eval (checkType o OBJ_STRING) s = true.
Proof. intros H. unfold checkType. by rewrite bool_decide_eq_true_2. Qed.

Lemma exec_checkType_other (o : robj) (s : state) :
  type o ≠ OBJ_STRING →
  exec (checkType o OBJ_STRING) s = set_reply (λ r, r ++ [WrongType]) s.
Proof. intros H. unfold checkType. by rewrite bool_decide_eq_true_2. Qed.

Lemma eval_getLongLongFromObject (l : loc) (o : robj) (s : state) :
  heap s !! l = Some o →
  eval (getLongLongFromObject (Some l)) s = number_of o.
Proof.
  intros H. unfold getLongLongFromObject. autorewrite with mrun.
  by rewrite H.
Qed.

Lemma exec_getLongLongFromObject (o : option loc) (s : state) :
  exec (getLongLongFromObject o) s = s.
Proof. by destruct o. Qed.

Lemma eval_getLongLongFromObjectOrReply (o : option loc) (s : state) :
  eval (getLongLongFromObjectOrReply o) s = eval (getLongLongFromObject o) s.
Proof.
  unfold getLongLongFromObjectOrReply. rewrite eval_bind.
  rewrite exec_getLongLongFromObject.
  by destruct (eval (getLongLongFromObject o) s).
Qed.

Lemma exec_getLongLongFromObjectOrReply (o : option loc) (s : state) :
  exec (getLongLongFromObjectOrReply o) s
  = match eval (getLongLongFromObject o) s with
    | Some _ => s
    | None => set_reply (λ r, r ++ [NotANumber]) s
    end.
Proof.
  unfold getLongLongFromObjectOrReply. rewrite exec_bind.
  rewrite exec_getLongLongFromObject.
  by destruct (eval (getLongLongFromObject o) s).
Qed.

Lemma to_ll_range (z : Z) : LLONG_MIN ≤ to_ll z ≤ LLONG_MAX.
Proof.
  unfold to_ll, LLONG_MIN, LLONG_MAX.
  pose proof (Z.mod_pos_bound (z + 2 ^ 63) (2 ^ 64)). lia.
Qed.

Lemma to_ll_id (z : Z) : LLONG_MIN ≤ z ≤ LLONG_MAX → to_ll z = z.
Proof.
  unfold to_ll, LLONG_MIN, LLONG_MAX. intros H.
  rewrite Z.mod_small; lia.
Qed.

(** ** Writes to the heap and to the keyspace *)

Lemma exec_set_ptr (l : loc) (b : objval) (s : state) :
  exec (set_ptr l b) s = set_heap (alter (λ o, mkObj (refcount o) b) l) s.
Proof. done. Qed.

Lemma exec_incrRefCount (l : loc) (s : state) :
  exec (incrRefCount l) s
  = set_heap (alter (λ o, mkObj (refcount o + 1) (body o)) l) s.
Proof. done. Qed.

Lemma exec_decrRefCount (l : loc) (s : state) :
  exec (decrRefCount l) s
  = set_heap (alter (λ o, mkObj (refcount o - 1) (body o)) l) s.
Proof. done. Qed.

Lemma exec_createObject (b : objval) (s : state) :
  exec (createObject b) s = set_heap <[fresh_loc (heap s) := mkObj 1 b]> s.
Proof. done. Qed.

Lemma eval_createObject (b : objval) (s : state) :
  eval (createObject b) s = fresh_loc (heap s).
Proof. done. Qed.

Lemma exec_createStringObject (t : sds) (s : state) :
  exec (createStringObject t) s
  = set_heap <[fresh_loc (heap s) := mkObj 1 (RawVal t)]> s.
Proof. done. Qed.

Lemma eval_createStringObject (t : sds) (s : state) :
  eval (createStringObject t) s = fresh_loc (heap s).
Proof. done. Qed.

Lemma exec_dbAdd (key val : loc) (s : state) :
  exec (dbAdd key val) s = set_dict <[eval (keyname key) s := val]> s.
Proof. done. Qed.

Lemma exec_dbOverwrite (key val : loc) (s : state) :
  exec (dbOverwrite key val) s
  = match dict s !! eval (keyname key) s with
    | Some o =>
        set_heap (alter (λ o, mkObj (refcount o - 1) (body o)) o)
          (set_dict <[eval (keyname key) s := val]> s)
    | None => set_dict <[eval (keyname key) s := val]> s
    end.
Proof.
  unfold dbOverwrite. autorewrite with mrun. cbn [dict set_dict].
  by destruct (dict s !! _).
Qed.

Lemma exec_signalModifiedKey (key : loc) (s : state) :
  exec (signalModifiedKey key) s
  = set_events (λ e, e ++ [ModifiedKey (eval (keyname key) s)]) s.
Proof. done. Qed.

Lemma exec_notifyKeyspaceEvent (cls : notify_class) (name : string)
    (key : loc) (s : state) :
  exec (notifyKeyspaceEvent cls name key) s
  = set_events (λ e, e ++ [KeyspaceEvent cls name (eval (keyname key) s)]) s.
Proof. done. Qed.

Lemma exec_setExpire (key : loc) (when : Z) (s : state) :
  exec (setExpire key when) s
  = set_expires <[eval (keyname key) s := when]> s.
Proof. done. Qed.

Lemma exec_addReplyObj (l : loc) (s : state) :
  exec (addReplyObj l) s
  = set_reply (λ rs, rs ++ [RObj (text_of (eval (getobj l) s))]) s.
Proof. done. Qed.

Lemma exec_addReplyBulk (l : loc) (s : state) :
  exec (addReplyBulk l) s
  = set_reply (λ rs, rs ++ [RBulk (text_of (eval (getobj l) s))]) s.
Proof. done. Qed.

Lemma exec_set_arg (j : nat) (o : loc) (s : state) :
  exec (set_arg j o) s = set_argv <[j := o]> s.
Proof. done. Qed.

Lemma createStringObjectFromLongLong_long (v : Z) :
  LLONG_MIN ≤ v ≤ LLONG_MAX →
  createStringObjectFromLongLong v = createObject (IntVal v).
Proof.
  intros H. unfold createStringObjectFromLongLong, LONG_MIN, LONG_MAX.
  destruct (Z.leb_spec LLONG_MIN v), (Z.leb_spec v LLONG_MAX); try lia; done.
Qed.

Hint Rewrite exec_set_ptr exec_incrRefCount exec_decrRefCount exec_createObject
  eval_createObject exec_createStringObject eval_createStringObject exec_dbAdd
  exec_dbOverwrite exec_signalModifiedKey exec_notifyKeyspaceEvent
  exec_setExpire exec_addReplyObj exec_addReplyBulk exec_set_arg : mrun.

(** An address past all cells is the address of no cell. *)
Lemma fresh_loc_above (h : gmap loc robj) (l : loc) :
  is_Some (h !! l) → (l < fresh_loc h)%positive.
Proof.
  unfold fresh_loc. revert l.
  induction h as [|k x h Hk Hfold IH] using map_first_key_ind; intros l [o Hl].
  - by rewrite lookup_empty in Hl.
  - rewrite map_fold_insert_first_key by done.
    destruct (decide (k = l)) as [->|Hne].
    + lia.
    + rewrite lookup_insert_ne in Hl by done.
      specialize (IH l (ex_intro _ o Hl)). lia.
Qed.

Lemma fresh_loc_fresh (h : gmap loc robj) : h !! fresh_loc h = None.
Proof.
  destruct (h !! fresh_loc h) eqn:E; [|done].
  pose proof (fresh_loc_above h (fresh_loc h) (ex_intro _ _ E)). lia.
Qed.

Lemma fresh_loc_ne (h : gmap loc robj) (l : loc) :
  is_Some (h !! l) → fresh_loc h ≠ l.
Proof. intros H%fresh_loc_above. lia. Qed.

(** ** Objects that keep their content *)

#[global] Instance bodies_kept_preorder : PreOrder bodies_kept.
Proof.
  split.
  - intros s l o H. eauto.
  - intros s1 s2 s3 H12 H23 l o H.
    destruct (H12 l o H) as (o2 & H2 & E2).
    destruct (H23 l o2 H2) as (o3 & H3 & E3).
    exists o3. split; [done|congruence].
Qed.

Lemma bodies_kept_heap (s s' : state) : heap s' = heap s → bodies_kept s s'.
Proof. intros E l o H. rewrite E. eauto. Qed.

Lemma bodies_kept_alter (f : robj → robj) (l : loc) (s : state) :
  (∀ o, body (f o) = body o) → bodies_kept s (set_heap (alter f l) s).
Proof.
  intros Hf i o H. cbn [heap set_heap].
  destruct (decide (i = l)) as [->|Hne].
  - rewrite lookup_alter_eq, H. eexists; split; [done|]. apply Hf.
  - rewrite lookup_alter_ne by done. eauto.
Qed.

Lemma bodies_kept_alloc (o : robj) (s : state) :
  bodies_kept s (set_heap <[fresh_loc (heap s) := o]> s).
Proof.
  intros i oi H. cbn [heap set_heap].
  rewrite lookup_insert_ne by (apply fresh_loc_ne; eauto). eauto.
Qed.

Lemma preserves_bodies_incrRefCount (l : loc) :
  preserves bodies_kept (incrRefCount l).
Proof. intros s. by apply bodies_kept_alter. Qed.

Lemma preserves_bodies_decrRefCount (l : loc) :
  preserves bodies_kept (decrRefCount l).
Proof. intros s. by apply bodies_kept_alter. Qed.

Lemma preserves_bodies_createObject (b : objval) :
  preserves bodies_kept (createObject b).
Proof. intros s. apply bodies_kept_alloc. Qed.

Lemma preserves_bodies_set_dict (f : gmap sds loc → gmap sds loc) :
  preserves bodies_kept (modify (set_dict f)).
Proof. intros s. by apply bodies_kept_heap. Qed.

Lemma preserves_bodies_set_expires (f : gmap sds Z → gmap sds Z) :
  preserves bodies_kept (modify (set_expires f)).
Proof. intros s. by apply bodies_kept_heap. Qed.

Lemma preserves_bodies_set_events (f : list event → list event) :
  preserves bodies_kept (modify (set_events f)).
Proof. intros s. by apply bodies_kept_heap. Qed.

Lemma preserves_bodies_set_reply (f : list reply_t → list reply_t) :
  preserves bodies_kept (modify (set_reply f)).
Proof. intros s. by apply bodies_kept_heap. Qed.

Lemma preserves_bodies_set_argv (f : list loc → list loc) :
  preserves bodies_kept (modify (set_argv f)).
Proof. intros s. by apply bodies_kept_heap. Qed.

Lemma preserves_bodies_set_dirty (f : Z → Z) :
  preserves bodies_kept (modify (set_dirty f)).
Proof. intros s. by apply bodies_kept_heap. Qed.

Lemma preserves_bodies_set_cmd (f : string → string) :
  preserves bodies_kept (modify (set_cmd f)).
Proof. intros s. by apply bodies_kept_heap. Qed.

#[global] Hint Resolve preserves_bodies_incrRefCount
  preserves_bodies_decrRefCount preserves_bodies_createObject
  preserves_bodies_set_dict preserves_bodies_set_expires
  preserves_bodies_set_events preserves_bodies_set_reply
  preserves_bodies_set_argv preserves_bodies_set_dirty
  preserves_bodies_set_cmd : frame.

Lemma tryObjectEncoding_bodies (l : loc) :
  preserves bodies_kept (tryObjectEncoding l).
Proof. frame. Qed.

Lemma setKey_bodies (key val : loc) : preserves bodies_kept (setKey key val).
Proof. frame. Qed.

#[global] Hint Resolve tryObjectEncoding_bodies setKey_bodies : frame.

(** Lookups in a heap after inserts and updates at known addresses. *)
Ltac heap_simp :=
  repeat first
    [ rewrite lookup_insert_eq
    | rewrite lookup_alter_eq
    | rewrite lookup_insert_ne by (done || (symmetry; done))
    | rewrite lookup_alter_ne by (done || (symmetry; done))
    | progress cbn [fmap option_fmap option_map default from_option id body
                    refcount ptr_sds heap dict expires reply argv cmd
                    set_heap set_dict set_expires set_events set_dirty
                    set_reply set_argv set_cmd] ].

(** ** Decimal text *)

Lemma is_digit_val (c : byte) : is_digit c = true → 0 ≤ digit_val c ≤ 9.
Proof.
  unfold is_digit, digit_val. rewrite andb_true_iff, !Z.leb_le. lia.
Qed.

Lemma digits_val_lower (ds : sds) (acc v : Z) :
  digits_val acc ds = Some v → 0 ≤ acc → acc ≤ v.
Proof.
  revert acc. induction ds as [|c ds IH]; intros acc; simpl.
  - intros [= <-]. lia.
  - destruct (is_digit c) eqn:Hc; [|done]. intros H Hacc.
    apply is_digit_val in Hc. apply IH in H; lia.
Qed.

Lemma string2ll_range (t : sds) (v : Z) :
  string2ll t = Some v → LLONG_MIN ≤ v ≤ LLONG_MAX.
Proof.
  unfold string2ll. destruct t as [|c [|c' r]]; [done| |].
  - destruct (is_digit c) eqn:Hc; [|done]. intros [= <-].
    apply is_digit_val in Hc. unfold LLONG_MIN, LLONG_MAX. lia.
  - cbv zeta.
    set (ds := if bool_decide (c = "-"%byte) then c' :: r else c :: c' :: r).
    destruct ds as [|d ds']; [done|].
    destruct (is_digit d && negb (bool_decide (d = "0"%byte))) eqn:Hd; [|done].
    apply andb_true_iff in Hd as [Hd _]. apply is_digit_val in Hd.
    destruct (digits_val (digit_val d) ds') as [w|] eqn:Hw; [|done].
    apply digits_val_lower in Hw; [|lia].
    destruct (bool_decide (c = "-"%byte)).
    + destruct (Z.leb_spec w (- LLONG_MIN)); [|done]. intros [= <-].
      unfold LLONG_MIN, LLONG_MAX in *. lia.
    + destruct (Z.leb_spec w LLONG_MAX); [|done]. intros [= <-].
      unfold LLONG_MIN, LLONG_MAX in *. lia.
Qed.

Lemma byte_of_val (c : byte) : byte_of_Z (byte_val c) = c.
Proof.
  unfold byte_of_Z, byte_val. by rewrite N2Z.id, Byte.of_to_N.
Qed.

Lemma digit_byte_val (c : byte) : digit_byte (digit_val c) = c.
Proof.
  unfold digit_byte, digit_val.
  replace (48 + (byte_val c - 48)) with (byte_val c) by lia.
  apply byte_of_val.
Qed.

Lemma digits_val_scaled (ds : sds) (acc w : Z) :
  digits_val acc ds = Some w → 0 ≤ acc → acc * 10 ^ Z.of_nat (length ds) ≤ w.
Proof.
  revert acc. induction ds as [|c ds IH]; intros acc; simpl length.
  - intros [= <-]. simpl. lia.
  - simpl digits_val. destruct (is_digit c) eqn:Hc; [|done]. intros H Hacc.
    apply is_digit_val in Hc. apply IH in H; [|lia].
    rewrite Nat2Z.inj_succ, Z.pow_succ_r by lia.
    assert (0 ≤ 10 ^ Z.of_nat (length ds)) by (apply Z.pow_nonneg; lia).
    nia.
Qed.

(** Printing what was read gives back the digits that were read. *)
Lemma digits_of_digits_val (ds : sds) :
  ∀ (acc w : Z) (f : nat) (rest : sds),
    digits_val acc ds = Some w → 1 ≤ acc → w < 10 ^ Z.of_nat f →
    digits_of f w rest = digits_of (f - length ds) acc (ds ++ rest).
Proof.
  induction ds as [|c ds IH]; intros acc w f rest.
  - intros [= <-] _ _. simpl. by rewrite Nat.sub_0_r.
  - simpl digits_val. destruct (is_digit c) eqn:Hc; [|done]. intros H Hacc Hw.
    pose proof (is_digit_val c Hc) as Hdv.
    pose proof (digits_val_scaled ds _ w H ltac:(lia)) as Hlow.
    rewrite (IH _ w f rest H) by lia.
    assert (10 * 10 ^ Z.of_nat (length ds) ≤ w) as Hten.
    { assert (0 ≤ 10 ^ Z.of_nat (length ds)) by (apply Z.pow_nonneg; lia). nia. }
    assert (S (length ds) < f)%nat as Hf.
    { destruct (decide (S (length ds) < f)%nat) as [|Hge]; [done|].
      assert (10 ^ Z.of_nat f ≤ 10 ^ Z.of_nat (S (length ds)))
        by (apply Z.pow_le_mono_r; lia).
      rewrite Nat2Z.inj_succ, Z.pow_succ_r in * by lia. lia. }
    replace (f - length ds)%nat with (S (f - length (c :: ds))) by (simpl; lia).
    cbn [digits_of].
    destruct (Z.ltb_spec (acc * 10 + digit_val c) 10); [lia|].
    replace ((acc * 10 + digit_val c) / 10) with acc
      by (apply Z.div_unique with (r := digit_val c); lia).
    replace ((acc * 10 + digit_val c) mod 10) with (digit_val c)
      by (apply Z.mod_unique with (q := acc); lia).
    by rewrite digit_byte_val.
Qed.

Lemma digits_of_canonical (d : byte) (ds : sds) (w : Z) :
  is_digit d = true → 1 ≤ digit_val d →
  digits_val (digit_val d) ds = Some w → w < 10 ^ 20 →
  digits_of 20 w [] = d :: ds.
Proof.
  intros Hd H1 Hw Hlt. pose proof (is_digit_val d Hd) as Hdv.
  pose proof (digits_val_scaled ds _ w Hw ltac:(lia)) as Hlow.
  rewrite (digits_of_digits_val ds (digit_val d) w 20 [] Hw H1) by done.
  assert (length ds < 20)%nat as Hlen.
  { destruct (decide (length ds < 20)%nat) as [|Hge]; [done|].
    assert (10 ^ 20 ≤ 10 ^ Z.of_nat (length ds))
      by (apply Z.pow_le_mono_r; lia).
    nia. }
  destruct (20 - length ds)%nat as [|g] eqn:Hg; [lia|].
  cbn [digits_of]. destruct (Z.ltb_spec (digit_val d) 10); [|lia].
  by rewrite digit_byte_val, app_nil_r.
Qed.

Lemma digit_not_zero (d : byte) :
  is_digit d = true → d ≠ "0"%byte → 1 ≤ digit_val d.
Proof.
  intros Hd Hne. pose proof (is_digit_val d Hd) as Hdv.
  destruct (decide (digit_val d = 0)) as [Hz|]; [|lia].
  exfalso. apply Hne. rewrite <- (digit_byte_val d), Hz. reflexivity.
Qed.

(** The text of a number that was read from canonical text is that text. *)
Lemma ll2string_string2ll (t : sds) (v : Z) :
  string2ll t = Some v → ll2string v = t.
Proof.
  unfold string2ll, ll2string. destruct t as [|c [|c' r]]; [done| |].
  - destruct (is_digit c) eqn:Hc; [|done]. intros [= <-].
    pose proof (is_digit_val c Hc) as Hdv.
    destruct (Z.ltb_spec (digit_val c) 0); [lia|].
    cbn [digits_of]. destruct (Z.ltb_spec (digit_val c) 10); [|lia].
    by rewrite digit_byte_val.
  - cbv zeta. case_bool_decide as Hneg.
    + subst c. destruct (is_digit c' && _) eqn:Hd; [|done].
      apply andb_true_iff in Hd as [Hd Hnz]. apply negb_true_iff in Hnz.
      apply bool_decide_eq_false in Hnz.
      pose proof (digit_not_zero c' Hd Hnz) as H1.
      destruct (digits_val (digit_val c') r) as [w|] eqn:Hw; [|done].
      pose proof (digits_val_lower r _ w Hw ltac:(lia)) as Hlow.
      destruct (Z.leb_spec w (- LLONG_MIN)) as [Hle|]; [|done]. intros [= <-].
      destruct (Z.ltb_spec (- w) 0); [|lia].
      rewrite Z.opp_involutive. f_equal.
      apply digits_of_canonical; try done. unfold LLONG_MIN in Hle. lia.
    + destruct (is_digit c && _) eqn:Hd; [|done].
      apply andb_true_iff in Hd as [Hd Hnz]. apply negb_true_iff in Hnz.
      apply bool_decide_eq_false in Hnz.
      pose proof (digit_not_zero c Hd Hnz) as H1.
      destruct (digits_val (digit_val c) (c' :: r)) as [w|] eqn:Hw; [|done].
      pose proof (digits_val_lower (c' :: r) _ w Hw ltac:(lia)) as Hlow.
      destruct (Z.leb_spec w LLONG_MAX) as [Hle|]; [|done]. intros [= <-].
      destruct (Z.ltb_spec w 0); [lia|].
      apply digits_of_canonical; try done. unfold LLONG_MAX in Hle. lia.
Qed.

(** ** MGET *)

Lemma mget_one_exec (key : loc) (s : state) :
  exec (mget_one key) s = set_reply (λ r, r ++ [mget_reply s key]) s.
Proof.
  unfold mget_one, mget_reply. munfold. cbv beta.
  destruct (dict s !! _) as [l|]; cbv beta; [|done].
  destruct (heap s !! l) as [o|] eqn:Hl; cbn [default id];
    [|by rewrite bool_decide_eq_true_2].
  destruct (decide (type o = OBJ_STRING)) as [Ht|Ht].
  - rewrite (bool_decide_eq_false_2 (type o ≠ OBJ_STRING)) by tauto.
    by rewrite (bool_decide_eq_true_2 _ Ht), Hl.
  - rewrite (bool_decide_eq_true_2 (type o ≠ OBJ_STRING)) by done.
    by rewrite (bool_decide_eq_false_2 _ Ht).
Qed.

Lemma mget_reply_set_reply (f : list reply_t → list reply_t) (s : state) (key : loc) :
  mget_reply (set_reply f s) key = mget_reply s key.
Proof. done. Qed.

Lemma mget_loop (keys : list loc) (s : state) :
  exec (forM_ keys mget_one) s
  = set_reply (λ r, r ++ (mget_reply s <$> keys)) s.
Proof.
  revert s. induction keys as [|key keys IH]; intros s.
  - rewrite exec_forM_nil. destruct s; unfold set_reply; simpl.
    by rewrite List.app_nil_r.
  - rewrite exec_forM_cons, mget_one_exec, IH.
    destruct s; unfold set_reply; simpl. f_equal.
    rewrite <- app_assoc. f_equal.
Qed.

(** C9: MGET answers with one entry per key, in the order of the keys:
    the value of a key that holds a string, the null marker for a key that
    is absent or holds a value of another kind; nothing else changes, and
    no entry is the wrong-type error. *)
Theorem mget_never_wrongtype (s : state) :
  exec mgetCommand s
  = set_reply (λ r, r ++ RMultiBulkLen (Z.of_nat (length (argv s)) - 1)
                       :: (mget_reply s <$> drop 1 (argv s))) s
  ∧ length (mget_reply s <$> drop 1 (argv s)) = (length (argv s) - 1)%nat
  ∧ ∀ key, mget_reply s key ≠ WrongType.
Proof.
  split; [|split].
  - unfold mgetCommand. rewrite !exec_bind, mget_loop.
    unfold argc, addReply.
    rewrite ?eval_bind, ?exec_gets, ?eval_gets, ?exec_modify.
    destruct s; unfold set_reply; simpl. f_equal.
    by rewrite <- app_assoc.
  - by rewrite length_fmap, length_drop.
  - intros key. unfold mget_reply, WrongType.
    destruct (dict s !! _); [|done]. destruct (heap s !! _); [|done].
    by case_bool_decide.
Qed.

(** ** MSET and MSETNX: the number of arguments *)

Lemma mset_busykeys_exec (js : list nat) (b : Z) (s : state) :
  exec (mset_busykeys js b) s = s.
Proof.
  revert b. induction js as [|j js IH]; intros b; [done|].
  simpl. rewrite !exec_bind. rewrite IH. done.
Qed.

Lemma mset_assign_reply (j : nat) : preserves (same reply) (mset_assign j).
Proof. frame. Qed.

Lemma mset_loop_reply (js : list nat) (s : state) :
  reply (exec (forM_ js mset_assign) s) = reply s.
Proof. apply (preserves_forM (same reply)), mset_assign_reply. Qed.

(** C8 (as the code has it): MSET and MSETNX want whole pairs after the
    command name.  A total number of arguments that is even, the command
    name included, is answered with the wrong-number-of-arguments error
    and nothing else changes; an odd total is never answered with it. *)
Theorem mset_argument_count (nx : bool) (s : state) :
  (Z.even (Z.of_nat (length (argv s))) = true →
     exec (msetGenericCommand nx) s = set_reply (λ r, r ++ [WrongArgCount]) s)
  ∧ (Z.odd (Z.of_nat (length (argv s))) = true →
     ∃ r, reply (exec (msetGenericCommand nx) s) = reply s ++ [r]
          ∧ r ≠ WrongArgCount).
Proof.
  unfold msetGenericCommand. split; intros Hn; autorewrite with mrun.
  - replace (Z.of_nat (length (argv s)) mod 2 =? 0) with true; [done|].
    symmetry. apply Z.eqb_eq. rewrite Zeven_mod in Hn. by apply Z.eqb_eq.
  - replace (Z.of_nat (length (argv s)) mod 2 =? 0) with false.
    2:{ symmetry. apply Z.eqb_neq. rewrite Zodd_mod in Hn.
        apply Z.eqb_eq in Hn. lia. }
    autorewrite with mrun.
    assert (exec (if nx then mset_busykeys (pair_indices (length (argv s))) 0
                  else mret 0) s = s) as ->.
    { destruct nx; [apply mset_busykeys_exec|done]. }
    destruct (negb _); autorewrite with mrun.
    + eexists; split; [reflexivity|done].
    + cbn [reply set_reply set_dirty]. rewrite mset_loop_reply.
      eexists; split; [reflexivity|]. by destruct nx.
Qed.

(** A command of three arguments, the name included, is an odd count, and
    it is carried out: no error, and the key is set. *)
Lemma mset_odd_count_accepted :
  Z.odd (Z.of_nat (length (argv mset_three_args_state))) = true
  ∧ reply (exec msetCommand mset_three_args_state) = [RShared shared_ok]
  ∧ reply (exec msetCommand mset_three_args_state) ≠ [WrongArgCount]
  ∧ value_of (exec msetCommand mset_three_args_state) (str "a")
    = Some (str "1").
Proof. by vm_compute. Qed.

Lemma mset_argument_count_witness :
  exec msetCommand (with_args "mset" [str "MSET"; str "a"] empty_state)
  = set_reply (λ r, r ++ [WrongArgCount])
      (with_args "mset" [str "MSET"; str "a"] empty_state).
Proof.
  apply (proj1 (mset_argument_count false
                  (with_args "mset" [str "MSET"; str "a"] empty_state))).
  reflexivity.
Defined.

(** ** The counters: overflow *)

Lemma run_counter `{LongDouble} (c : command) (s : state) (d : Z) :
  counter_delta c s = Some d →
  exec (run c) s = exec (incrDecrCommand d) s.
Proof.
  destruct c; try discriminate; cbn [counter_delta run].
  - by intros [= <-].
  - by intros [= <-].
  - unfold incrbyCommand, number_of, getLongLongFromObjectOrReply,
      getLongLongFromObject.
    autorewrite with mrun.
    destruct (body _); cbn [fmap option_fmap option_map]; intros Hd;
      rewrite ?Hd; autorewrite with mrun; try discriminate;
      by simplify_eq.
  - unfold decrbyCommand, number_of, getLongLongFromObjectOrReply,
      getLongLongFromObject.
    autorewrite with mrun.
    destruct (body _); cbn [fmap option_fmap option_map]; intros Hd;
      try discriminate.
    + destruct (string2ll s0); [|discriminate].
      autorewrite with mrun. by simplify_eq/=.
    + autorewrite with mrun. by simplify_eq/=.
Qed.

(** The test in front of the addition, in terms of the sum. *)
Lemma overflow_test (d v : Z) :
  LLONG_MIN ≤ v ≤ LLONG_MAX →
  LLONG_MIN ≤ d ≤ LLONG_MAX →
  (d <? 0) && (v <? 0) && (d <? LLONG_MIN - v)
  || (d >? 0) && (v >? 0) && (d >? LLONG_MAX - v)
  = negb (bool_decide (LLONG_MIN ≤ v + d ≤ LLONG_MAX)).
Proof.
  unfold LLONG_MIN, LLONG_MAX. intros Hv Hd.
  destruct (Z.ltb_spec d 0), (Z.ltb_spec v 0),
    (Z.ltb_spec d (-9223372036854775808 - v)),
    (Z.gtb_spec d 0), (Z.gtb_spec v 0),
    (Z.gtb_spec d (9223372036854775807 - v));
    case_bool_decide; simpl; try done; lia.
Qed.

(** The common start of a counter command on a key that holds a number. *)
Lemma incrDecr_start (s : state) (d v : Z) (k : sds) (l : loc) (o : robj) :
  key_holds s k l o →
  number_of o = Some v →
  LLONG_MIN ≤ v ≤ LLONG_MAX →
  LLONG_MIN ≤ d ≤ LLONG_MAX →
  exec (incrDecrCommand d) s
  = if bool_decide (LLONG_MIN ≤ v + d ≤ LLONG_MAX) then
      exec (
        new ← (if bool_decide (refcount o = 1)
                  && bool_decide (encoding o = OBJ_ENCODING_INT)
                  && ((v + d <? 0) || (v + d >=? OBJ_SHARED_INTEGERS))
                  && (v + d >=? LONG_MIN) && (v + d <=? LONG_MAX)
               then set_ptr l (IntVal (v + d));; mret l
               else
                 new ← createObject (IntVal (v + d));
                 dbOverwrite (default 1%positive (argv s !! 1%nat)) new;;
                 mret new);
        signalModifiedKey (default 1%positive (argv s !! 1%nat));;
        notifyKeyspaceEvent NOTIFY_STRING "incrby"
          (default 1%positive (argv s !! 1%nat));;
        modify (set_dirty (λ d, d + 1));;
        addReply (RShared shared_colon);;
        addReplyObj new;;
        addReply (RShared shared_crlf)) s
    else set_reply (λ r, r ++ [Overflow]) s.
Proof.
  intros (key & ko & Hkey & Hko & Hname & Hk & Hl) Hn Hv Hd.
  unfold incrDecrCommand. autorewrite with mrun.
  rewrite Hkey. cbn [default from_option id]. rewrite Hko. cbn [default from_option id].
  rewrite Hname, Hk. autorewrite with mrun. rewrite Hl. cbn [default from_option id].
  rewrite eval_checkType_string, exec_checkType_string
    by eauto using number_of_string.
  rewrite exec_bind, eval_getLongLongFromObjectOrReply,
    exec_getLongLongFromObjectOrReply, (eval_getLongLongFromObject l o), Hn
    by done.
  rewrite overflow_test by done.
  case_bool_decide as Hsum; cbn [negb]; [|by autorewrite with mrun].
  rewrite (to_ll_id (v + d)) by done.
  rewrite (createStringObjectFromLongLong_long (v + d)) by done.
  autorewrite with mrun. rewrite Hl. cbn [default from_option id].
  done.
Qed.

Lemma incrDecr_overflow (s : state) (d v : Z) (k : sds) (l : loc) (o : robj) :
  key_holds s k l o →
  number_of o = Some v →
  LLONG_MIN ≤ v ≤ LLONG_MAX →
  LLONG_MIN ≤ d ≤ LLONG_MAX →
  ¬ (LLONG_MIN ≤ v + d ≤ LLONG_MAX) →
  exec (incrDecrCommand d) s = set_reply (λ r, r ++ [Overflow]) s.
Proof.
  intros Hk Hn Hv Hd Hov. rewrite (incrDecr_start s d v k l o) by done.
  by rewrite bool_decide_eq_false_2.
Qed.

Lemma set_reply_app (s : state) (a b : list reply_t) :
  reply s ++ a ++ b = (reply s ++ a) ++ b.
Proof. by rewrite app_assoc. Qed.

(** The counter is written into the object the key holds. *)
Lemma incrDecr_inplace (s : state) (d v : Z) (k : sds) (l : loc) (o : robj) :
  key_holds s k l o →
  number_of o = Some v →
  LLONG_MIN ≤ v ≤ LLONG_MAX →
  LLONG_MIN ≤ d ≤ LLONG_MAX →
  LLONG_MIN ≤ v + d ≤ LLONG_MAX →
  refcount o = 1 → encoding o = OBJ_ENCODING_INT →
  ¬ (0 ≤ v + d < OBJ_SHARED_INTEGERS) →
  let s' := exec (incrDecrCommand d) s in
  heap s' = <[l := mkObj 1 (IntVal (v + d))]> (heap s)
  ∧ dict s' = dict s ∧ expires s' = expires s
  ∧ reply s' = reply s ++ [RShared shared_colon; RObj (ll2string (v + d));
                           RShared shared_crlf].
Proof.
  intros Hk Hn Hv Hd Hsum Hrc Henc Hpool s'. subst s'.
  rewrite (incrDecr_start s d v k l o) by done.
  rewrite bool_decide_eq_true_2 by done.
  rewrite !bool_decide_eq_true_2 by done.
  replace ((v + d <? 0) || (v + d >=? OBJ_SHARED_INTEGERS)) with true.
  2:{ symmetry. apply orb_true_iff. rewrite Z.ltb_lt, Z.geb_le. lia. }
  replace (v + d >=? LONG_MIN) with true
    by (symmetry; apply Z.geb_le; unfold LONG_MIN; lia).
  replace (v + d <=? LONG_MAX) with true
    by (symmetry; apply Z.leb_le; unfold LONG_MAX; lia).
  cbn [andb]. autorewrite with mrun.
  destruct Hk as (key & ko & Hkey & Hko & Hname & Hk & Hl).
  cbn [heap dict expires reply set_heap set_dict set_events set_dirty
       set_reply].
  assert (alter (λ o0 : robj, {| refcount := refcount o0; body := IntVal (v + d) |}) l (heap s)
          = <[l := mkObj 1 (IntVal (v + d))]> (heap s)) as ->.
  { apply map_eq. intros i. destruct (decide (i = l)) as [->|Hne].
    - rewrite lookup_alter_eq, lookup_insert_eq, Hl. simpl. by rewrite Hrc.
    - by rewrite lookup_alter_ne, lookup_insert_ne. }
  repeat split.
  rewrite lookup_insert_eq. cbn [default from_option id].
  by rewrite <- !app_assoc.
Qed.

(** The counter goes into a new object, which the key then holds. *)
Lemma incrDecr_fresh (s : state) (d v : Z) (k : sds) (l : loc) (o : robj) :
  key_holds s k l o →
  number_of o = Some v →
  LLONG_MIN ≤ v ≤ LLONG_MAX →
  LLONG_MIN ≤ d ≤ LLONG_MAX →
  LLONG_MIN ≤ v + d ≤ LLONG_MAX →
  ¬ (refcount o = 1 ∧ encoding o = OBJ_ENCODING_INT
     ∧ ¬ (0 ≤ v + d < OBJ_SHARED_INTEGERS)) →
  let s' := exec (incrDecrCommand d) s in
  let new := fresh_loc (heap s) in
  heap s' = <[l := mkObj (refcount o - 1) (body o)]>
              (<[new := mkObj 1 (IntVal (v + d))]> (heap s))
  ∧ dict s' = <[k := new]> (dict s) ∧ expires s' = expires s
  ∧ reply s' = reply s ++ [RShared shared_colon; RObj (ll2string (v + d));
                           RShared shared_crlf].
Proof.
  intros Hk Hn Hv Hd Hsum Hnot s' new. subst s' new.
  rewrite (incrDecr_start s d v k l o) by done.
  rewrite bool_decide_eq_true_2 by done.
  assert (bool_decide (refcount o = 1)
          && bool_decide (encoding o = OBJ_ENCODING_INT)
          && ((v + d <? 0) || (v + d >=? OBJ_SHARED_INTEGERS))
          && (v + d >=? LONG_MIN) && (v + d <=? LONG_MAX) = false) as ->.
  { apply not_true_iff_false. rewrite !andb_true_iff, !bool_decide_eq_true,
      orb_true_iff, Z.ltb_lt, Z.geb_le. intros ((((? & ?) & ?) & ?) & ?).
    apply Hnot. repeat split; try done. lia. }
  destruct Hk as (key & ko & Hkey & Hko & Hname & Hk & Hl).
  pose proof (fresh_loc_ne (heap s) key (ex_intro _ _ Hko)) as Hfk.
  pose proof (fresh_loc_ne (heap s) l (ex_intro _ _ Hl)) as Hfl.
  autorewrite with mrun. rewrite Hkey. cbn [default from_option id].
  cbn [heap dict expires reply set_heap set_dict set_events set_dirty
       set_reply].
  rewrite lookup_insert_ne, Hko by done. cbn [default from_option id].
  rewrite Hname, Hk.
  cbn [heap dict expires reply set_heap set_dict set_events set_dirty
       set_reply].
  assert (alter (λ o0 : robj, {| refcount := refcount o0 - 1; body := body o0 |}) l
            (<[fresh_loc (heap s):={| refcount := 1; body := IntVal (v + d) |}]> (heap s))
          = <[l := mkObj (refcount o - 1) (body o)]>
              (<[fresh_loc (heap s) := mkObj 1 (IntVal (v + d))]> (heap s))) as ->.
  { apply map_eq. intros i. destruct (decide (i = l)) as [->|Hne].
    - by rewrite lookup_alter_eq, lookup_insert_eq, lookup_insert_ne, Hl.
    - by rewrite lookup_alter_ne, (lookup_insert_ne _ l) by done. }
  repeat split.
  rewrite lookup_insert_ne, lookup_insert_eq by done.
  cbn [default from_option id].
  by rewrite <- !app_assoc.
Qed.

(** C2: a counter command on a key that holds the number [v], adding the
    amount [d]: when [v + d] leaves the signed 64-bit range the command
    answers with the overflow error and nothing else changes (the stored
    value, its encoding and its expiration are those of before); when
    [v + d] is in range the answer is the sum, not the error.  The test is
    the one on the signs and bounds that stands in front of the addition. *)
Theorem counter_overflow_checked `{LongDouble} (c : command) (s : state)
    (d v : Z) (k : sds) (l : loc) (o : robj) :
  counter_delta c s = Some d →
  LLONG_MIN ≤ d ≤ LLONG_MAX →
  key_holds s k l o →
  number_of o = Some v →
  LLONG_MIN ≤ v ≤ LLONG_MAX →
  (¬ (LLONG_MIN ≤ v + d ≤ LLONG_MAX) →
     exec (run c) s = set_reply (λ r, r ++ [Overflow]) s)
  ∧ (LLONG_MIN ≤ v + d ≤ LLONG_MAX →
     reply (exec (run c) s)
     = reply s ++ [RShared shared_colon; RObj (ll2string (v + d));
                   RShared shared_crlf]).
Proof.
  intros Hc Hd Hk Hn Hv. rewrite (run_counter c s d Hc). split; intros Hsum.
  - by apply (incrDecr_overflow s d v k l o).
  - destruct (decide (refcount o = 1 ∧ encoding o = OBJ_ENCODING_INT
                      ∧ ¬ (0 ≤ v + d < OBJ_SHARED_INTEGERS)))
      as [(Hrc & Henc & Hpool)|Hnot].
    + by apply (incrDecr_inplace s d v k l o).
    + by apply (incrDecr_fresh s d v k l o).
Qed.

Lemma counter_overflow_checked_witness :
  value_of incr_max_state (str "k") = Some (str "9223372036854775807")
  ∧ exec incrCommand incr_max_state
    = set_reply (λ r, r ++ [Overflow]) incr_max_state.
Proof.
  split; [by vm_compute|].
  refine (proj1 (counter_overflow_checked INCR incr_max_state 1 LLONG_MAX
                   (str "k") 4%positive (mkObj 1 (IntVal LLONG_MAX))
                   _ _ _ _ _) _).
  - reflexivity.
  - unfold LLONG_MIN, LLONG_MAX. lia.
  - exists 6%positive, (mkObj 1 (RawVal (str "k"))). by vm_compute.
  - reflexivity.
  - unfold LLONG_MIN, LLONG_MAX. lia.
  - unfold LLONG_MIN, LLONG_MAX. lia.
Defined.

(** A counter command on a key that is not there starts from 0. *)
Lemma incrDecr_absent (s : state) (d : Z) (k : sds) :
  key_absent s k →
  LLONG_MIN ≤ d ≤ LLONG_MAX →
  let s' := exec (incrDecrCommand d) s in
  let new := fresh_loc (heap s) in
  heap s' = <[new := mkObj 1 (IntVal d)]> (heap s)
  ∧ dict s' = <[k := new]> (dict s) ∧ expires s' = expires s
  ∧ reply s' = reply s ++ [RShared shared_colon; RObj (ll2string d);
                           RShared shared_crlf].
Proof.
  intros (key & ko & Hkey & Hko & Hname & Hk) Hd s' new. subst s' new.
  unfold incrDecrCommand. autorewrite with mrun.
  rewrite Hkey. cbn [default from_option id]. rewrite Hko.
  cbn [default from_option id]. rewrite Hname, Hk. autorewrite with mrun.
  rewrite eval_getLongLongFromObjectOrReply,
    exec_getLongLongFromObjectOrReply.
  cbn [getLongLongFromObject]. rewrite eval_ret.
  rewrite (overflow_test d 0) by (unfold LLONG_MIN, LLONG_MAX in *; lia).
  rewrite bool_decide_eq_true_2 by (unfold LLONG_MIN, LLONG_MAX in *; lia).
  cbn [negb]. replace (0 + d) with d by lia.
  rewrite (to_ll_id d) by done.
  rewrite (createStringObjectFromLongLong_long d) by done.
  pose proof (fresh_loc_ne (heap s) key (ex_intro _ _ Hko)) as Hfk.
  autorewrite with mrun. heap_simp. rewrite Hko. heap_simp. rewrite Hname.
  heap_simp. repeat split. by rewrite <- !app_assoc.
Qed.

(** ** SET: the expire argument is looked at first *)

Lemma setGeneric_bad_expire (s : state) (flags : Z) (key val e : loc)
    (eo : robj) (u : time_unit) (ok_reply abort_reply : option reply_t) :
  heap s !! e = Some eo →
  bad_expire eo →
  exec (setGenericCommand flags key val (Some e) u ok_reply abort_reply) s
  = set_reply (λ r, r ++ [expire_error s eo]) s.
Proof.
  intros He Hbad. unfold setGenericCommand, bad_expire, expire_error in *.
  rewrite !exec_bind, !eval_bind.
  rewrite eval_getLongLongFromObjectOrReply, exec_getLongLongFromObjectOrReply,
    (eval_getLongLongFromObject e eo) by done.
  destruct (number_of eo) as [ms|]; [|done].
  destruct (Z.leb_spec ms 0); [|lia].
  by autorewrite with mrun.
Qed.

Lemma setCommand_options_exec (n : nat) :
  ∀ (rest : list loc) (flags : Z) (expire : option loc) (u : time_unit)
    (s : state) r,
    (length rest ≤ n)%nat →
    eval (setCommand_options rest flags expire u) s = Some r →
    exec (setCommand_options rest flags expire u) s = s.
Proof.
  induction n as [|n IH]; intros rest flags expire u s r Hlen.
  { destruct rest; [done|simpl in Hlen; lia]. }
  destruct rest as [|aj rest']; [done|]. simpl in Hlen.
  cbn [setCommand_options]. rewrite exec_bind, eval_bind.
  rewrite exec_getobj. set (a := ptr_sds _).
  destruct (is_option a "n" "N" "x" "X" && _); [apply IH; lia|].
  destruct (is_option a "x" "X" "x" "X" && _); [apply IH; lia|].
  destruct (is_option a "e" "E" "x" "X" && _).
  { destruct rest' as [|next rest'']; [done|]. apply IH. simpl in Hlen. lia. }
  destruct (is_option a "p" "P" "x" "X" && _).
  { destruct rest' as [|next rest'']; [done|]. apply IH. simpl in Hlen. lia. }
  done.
Qed.

Lemma tryObjectEncoding_argv (l : loc) (s : state) :
  argv (exec (tryObjectEncoding l) s) = argv s.
Proof.
  assert (preserves (same argv) (tryObjectEncoding l)) as Hp by frame.
  apply Hp.
Qed.

Lemma encode_arg_store (j : nat) (s : state) :
  let s1 := exec (a ← arg j; e ← tryObjectEncoding a; set_arg j e) s in
  dict s1 = dict s ∧ expires s1 = expires s ∧ reply s1 = reply s
  ∧ cmd s1 = cmd s ∧ bodies_kept s s1.
Proof.
  cbv zeta. repeat split.
  - assert (preserves (same dict) (a ← arg j; e ← tryObjectEncoding a; set_arg j e))
      as Hp by frame. apply Hp.
  - assert (preserves (same expires) (a ← arg j; e ← tryObjectEncoding a; set_arg j e))
      as Hp by frame. apply Hp.
  - assert (preserves (same reply) (a ← arg j; e ← tryObjectEncoding a; set_arg j e))
      as Hp by frame. apply Hp.
  - assert (preserves (same cmd) (a ← arg j; e ← tryObjectEncoding a; set_arg j e))
      as Hp by frame. apply Hp.
  - assert (preserves bodies_kept (a ← arg j; e ← tryObjectEncoding a; set_arg j e))
      as Hp by frame. apply Hp.
Qed.

Lemma expire_error_kept (s s1 : state) (e : loc) (eo : robj) :
  heap s !! e = Some eo → bodies_kept s s1 → cmd s1 = cmd s → bad_expire eo →
  ∃ eo1, heap s1 !! e = Some eo1 ∧ bad_expire eo1
         ∧ expire_error s1 eo1 = expire_error s eo.
Proof.
  intros He Hb Hc Hbad. destruct (Hb e eo He) as (eo1 & H1 & E).
  exists eo1. unfold bad_expire, expire_error, number_of in *.
  rewrite E, Hc. done.
Qed.

(** The state after the expire argument was refused on the way through
    [setGenericCommand], the value argument [j] encoded before. *)
Lemma set_refused (j : nat) (s : state) (flags : Z) (e : loc) (eo : robj)
    (u : time_unit) (ok_reply abort_reply : option reply_t)
    (key val : state → loc) :
  heap s !! e = Some eo →
  bad_expire eo →
  let s1 := exec (a ← arg j; e ← tryObjectEncoding a; set_arg j e) s in
  let s' := exec (setGenericCommand flags (key s1) (val s1) (Some e) u
                    ok_reply abort_reply) s1 in
  store_unchanged s s' ∧ reply s' = reply s ++ [expire_error s eo].
Proof.
  intros He Hbad s1 s'.
  destruct (encode_arg_store j s) as (Hd & Hx & Hr & Hc & Hb). fold s1 in Hd, Hx, Hr, Hc, Hb.
  destruct (expire_error_kept s s1 e eo He Hb Hc Hbad) as (eo1 & He1 & Hbad1 & Eerr).
  subst s'. rewrite (setGeneric_bad_expire s1 flags _ _ e eo1) by done.
  unfold store_unchanged. cbn [dict expires reply set_reply].
  rewrite Hd, Hx, Hr, Eerr. repeat split.
  etrans; [apply Hb|]. by apply bodies_kept_heap.
Qed.

(** C10: in SET, SETEX and PSETEX the expire argument is judged before
    the NX or XX condition is looked at.  Whatever the flags and whether
    or not the key is there, an expire argument that is no integer or is
    not positive is answered with its error, the keyspace stays as it
    was (keys, values and expirations), and the answer is never the one
    for a condition that was not met. *)
Theorem set_expire_checked_first (s : state) (e : loc) (eo : robj) :
  heap s !! e = Some eo →
  bad_expire eo →
  (∀ flags key val u ok_reply abort_reply,
     exec (setGenericCommand flags key val (Some e) u ok_reply abort_reply) s
     = set_reply (λ r, r ++ [expire_error s eo]) s)
  ∧ (∀ flags u,
       eval (setCommand_options (drop 3 (argv s)) OBJ_SET_NO_FLAGS None
               UNIT_SECONDS) s = Some (flags, Some e, u) →
       store_unchanged s (exec setCommand s)
       ∧ reply (exec setCommand s) = reply s ++ [expire_error s eo])
  ∧ (argv s !! 2%nat = Some e →
       (store_unchanged s (exec setexCommand s)
        ∧ reply (exec setexCommand s) = reply s ++ [expire_error s eo])
       ∧ (store_unchanged s (exec psetexCommand s)
          ∧ reply (exec psetexCommand s) = reply s ++ [expire_error s eo]))
  ∧ expire_error s eo ≠ RShared shared_nullbulk.
Proof.
  intros He Hbad. split; [|split; [|split]].
  - intros. by apply setGeneric_bad_expire.
  - intros flags u Hopt.
    pose proof (set_refused 2 s flags e eo u None None
                  (λ s1, eval (arg 1) s1) (λ s1, eval (arg 2) s1) He Hbad) as H.
    cbv zeta in H. unfold setCommand.
    rewrite exec_bind, eval_gets, exec_gets, exec_bind, Hopt.
    rewrite (setCommand_options_exec _ _ _ _ _ _ _ (le_n _) Hopt).
    autorewrite with mrun in *. exact H.
  - intros Ha2.
    pose proof (set_refused 3 s OBJ_SET_NO_FLAGS e eo UNIT_SECONDS None None
                  (λ s1, eval (arg 1) s1) (λ s1, eval (arg 3) s1) He Hbad) as H1.
    pose proof (set_refused 3 s OBJ_SET_NO_FLAGS e eo UNIT_MILLISECONDS None
                  None (λ s1, eval (arg 1) s1) (λ s1, eval (arg 3) s1) He Hbad)
      as H2.
    cbv zeta in H1, H2. unfold setexCommand, psetexCommand.
    autorewrite with mrun in *. cbn [argv set_argv] in *.
    rewrite tryObjectEncoding_argv in *.
    rewrite (list_lookup_insert_ne _ 3%nat 2%nat) by done. rewrite Ha2.
    cbn [default from_option id]. done.
  - unfold expire_error, NotANumber, InvalidExpire. by destruct (number_of eo).
Qed.

Lemma set_expire_checked_first_witness :
  value_of set_nx_ex0_state (str "k") = Some (str "old")
  ∧ reply (exec setCommand set_nx_ex0_state)
    = [InvalidExpire "set"]
  ∧ value_of (exec setCommand set_nx_ex0_state) (str "k") = Some (str "old")
  ∧ expires (exec setCommand set_nx_ex0_state) = expires set_nx_ex0_state.
Proof.
  split; [by vm_compute|].
  destruct (set_expire_checked_first set_nx_ex0_state 10%positive
              (mkObj 1 (RawVal (str "0"))))
    as (_ & Hset & _); [by vm_compute|by vm_compute|].
  destruct (Hset (Z.lor OBJ_SET_NX OBJ_SET_EX) UNIT_SECONDS)
    as ((Hd & Hx & Hb) & Hr); [by vm_compute|].
  split; [exact Hr|]. split; [|exact Hx].
  unfold value_of. rewrite Hd.
  destruct (Hb 4%positive (mkObj 1 (RawVal (str "old")))) as (o' & Ho & Eb);
    [by vm_compute|].
  replace (dict set_nx_ex0_state !! str "k") with (Some 4%positive)
    by (by vm_compute).
  cbn [mbind option_bind]. rewrite Ho. cbn [mbind option_bind].
  unfold text_of. by rewrite Eb.
Defined.

(** ** GETRANGE *)

Lemma text_of_by_encoding (o : robj) :
  type o = OBJ_STRING →
  (if bool_decide (encoding o = OBJ_ENCODING_INT)
   then ll2string (ptr_long o) else ptr_sds o) = text_of o.
Proof.
  unfold type, encoding, ptr_long, ptr_sds, text_of.
  by destruct (body o).
Qed.

Lemma eval_arg_number (s : state) (j : nat) (n : Z) :
  arg_number s j n →
  eval (getLongLongFromObject (Some (eval (arg j) s))) s = Some n.
Proof.
  intros (a & ao & Ha & Hao & Hn & _). rewrite eval_arg, Ha.
  cbn [default from_option id]. by rewrite (eval_getLongLongFromObject a ao).
Qed.

Lemma to_size_t_id (z : Z) : 0 ≤ z ≤ LLONG_MAX → to_size_t z = z.
Proof. unfold to_size_t, LLONG_MAX. intros H. rewrite Z.mod_small; lia. Qed.

(** The slice the command sends is never empty. *)
Lemma slice_nonempty (t : sds) (a b : Z) :
  0 ≤ a → a ≤ b → b < sdslen t →
  take (Z.to_nat (b - a + 1)) (drop (Z.to_nat a) t) ≠ [].
Proof.
  unfold sdslen. intros Ha Hab Hb Hnil.
  apply (f_equal length) in Hnil.
  rewrite length_take, length_drop in Hnil. simpl in Hnil. lia.
Qed.

Lemma range_reply_nonempty (t : sds) : t ≠ [] → range_reply t = RBulk t.
Proof. by destruct t. Qed.

Lemma getrange_exec (s : state) (k : sds) (l : loc) (o : robj)
    (start end_ : Z) :
  key_holds s k l o →
  type o = OBJ_STRING →
  sdslen (text_of o) ≤ LLONG_MAX →
  arg_number s 2 start →
  arg_number s 3 end_ →
  exec getrangeCommand s
  = set_reply (λ r, r ++ [range_reply (getRange (text_of o) start end_)]) s.
Proof.
  intros (key & ko & Hkey & Hko & Hname & Hk & Hl) Ht HL H2 H3.
  pose proof H2 as (_ & _ & _ & _ & _ & Hs).
  pose proof H3 as (_ & _ & _ & _ & _ & He).
  unfold getrangeCommand.
  rewrite exec_bind, exec_arg, exec_bind, eval_getLongLongFromObjectOrReply,
    exec_getLongLongFromObjectOrReply, (eval_arg_number s 2 start) by done.
  rewrite exec_bind, exec_arg, exec_bind, eval_getLongLongFromObjectOrReply,
    exec_getLongLongFromObjectOrReply, (eval_arg_number s 3 end_) by done.
  unfold lookupKeyReadOrReply. autorewrite with mrun.
  rewrite Hkey. cbn [default from_option id]. rewrite Hko.
  cbn [default from_option id]. rewrite Hname, Hk.
  autorewrite with mrun. rewrite Hl. cbn [default from_option id].
  rewrite eval_checkType_string, exec_checkType_string by done.
  rewrite (text_of_by_encoding o Ht).
  unfold getRange. set (t := text_of o) in *. set (L := sdslen t) in *.
  assert (0 ≤ L) by (unfold L, sdslen; lia).
  destruct ((start <? 0) && (end_ <? 0) && (start >? end_)); [done|].
  unfold LLONG_MIN, LLONG_MAX in *.
  assert (∀ z, -9223372036854775808 ≤ z ≤ 9223372036854775807 → to_ll z = z)
    as Hll by (intros; apply to_ll_id; unfold LLONG_MIN, LLONG_MAX; lia).
  assert (∀ z, 0 ≤ z ≤ 9223372036854775807 → to_size_t z = z)
    as Hsz by (intros; apply to_size_t_id; unfold LLONG_MAX; lia).
  destruct (Z.ltb_spec start 0) as [Hs0|Hs0];
    destruct (Z.ltb_spec end_ 0) as [He0|He0];
    rewrite ?(Hll (L + start)), ?(Hll (L + end_)) by lia.
  all: repeat match goal with
       | |- context [ ?a <? 0 ] => destruct (Z.ltb_spec a 0)
       end; try lia.
  all: rewrite ?Hsz, ?(Hll (L - 1)) by lia.
  all: repeat match goal with
       | |- context [ ?a >=? ?b ] => destruct (Z.geb_spec a b)
       | |- context [ ?a >? ?b ] => destruct (Z.gtb_spec a b)
       | |- context [ ?a =? ?b ] => destruct (Z.eqb_spec a b)
       end; try lia; cbn [orb]; try done.
  all: autorewrite with mrun; try (rewrite range_reply_nonempty; [done|]).
  all: try (apply slice_nonempty; fold L; lia).
Qed.

(** C4 (as the code has it): GETRANGE on a key that holds a string value
    answers with the [getRange] of the specification, taken on the text
    of the value (the decimal text of an integer), for all signed 64-bit
    indices; an empty result is sent as the shared empty reply.  The
    example value "This is a string" is 16 bytes long, and on it the
    indices (0,3) give "This", (-3,-1) give "ing", (0,-1) give the whole
    value and (10,100) give "string". *)
Theorem getrange_by_spec (s : state) (k : sds) (l : loc) (o : robj)
    (start end_ : Z) :
  key_holds s k l o →
  type o = OBJ_STRING →
  sdslen (text_of o) ≤ LLONG_MAX →
  arg_number s 2 start →
  arg_number s 3 end_ →
  exec getrangeCommand s
  = set_reply (λ r, r ++ [range_reply (getRange (text_of o) start end_)]) s
  ∧ sdslen (str "This is a string") = 16
  ∧ getRange (str "This is a string") 0 3 = str "This"
  ∧ getRange (str "This is a string") (-3) (-1) = str "ing"
  ∧ getRange (str "This is a string") 0 (-1) = str "This is a string"
  ∧ getRange (str "This is a string") 10 100 = str "string".
Proof.
  intros Hk Ht HL H2 H3. split; [by apply (getrange_exec s k l o)|].
  by vm_compute.
Qed.

Lemma getrange_by_spec_witness :
  reply (exec getrangeCommand (getrange_state "10" "100"))
  = [RBulk (str "string")].
Proof.
  destruct (getrange_by_spec (getrange_state "10" "100") (str "k") 3%positive
              (mkObj 1 (RawVal (str "This is a string"))) 10 100)
    as [H _].
  - exists 5%positive, (mkObj 1 (RawVal (str "k"))). by vm_compute.
  - reflexivity.
  - by vm_compute.
  - exists 6%positive, (mkObj 1 (RawVal (str "10"))). by vm_compute.
  - exists 7%positive, (mkObj 1 (RawVal (str "100"))). by vm_compute.
  - rewrite H. reflexivity.
Defined.

(** The example value of the specification has 16 bytes, not 17. *)
Lemma getrange_example_is_not_17_bytes :
  stringObjectLen (mkObj 1 (RawVal (str "This is a string"))) ≠ 17.
Proof. by vm_compute. Qed.

(** ** SETRANGE, case by case *)

Lemma eval_getLongFromObjectOrReply (s : state) (j : nat) (n : Z) :
  arg_number s j n →
  eval (getLongFromObjectOrReply (Some (eval (arg j) s))) s = Some n.
Proof.
  intros H. pose proof H as (_ & _ & _ & _ & _ & Hn).
  unfold getLongFromObjectOrReply. rewrite eval_bind, (eval_arg_number s j n) by done.
  rewrite exec_getLongLongFromObject. unfold LONG_MIN, LONG_MAX.
  destruct (Z.leb_spec LLONG_MIN n), (Z.leb_spec n LLONG_MAX); try lia; done.
Qed.

Lemma exec_getLongFromObjectOrReply (s : state) (j : nat) (n : Z) :
  arg_number s j n →
  exec (getLongFromObjectOrReply (Some (eval (arg j) s))) s = s.
Proof.
  intros H. pose proof H as (_ & _ & _ & _ & _ & Hn).
  unfold getLongFromObjectOrReply. rewrite exec_bind, (eval_arg_number s j n) by done.
  rewrite exec_getLongLongFromObject. unfold LONG_MIN, LONG_MAX.
  destruct (Z.leb_spec LLONG_MIN n), (Z.leb_spec n LLONG_MAX); try lia; done.
Qed.

Lemma sdslen_nonneg (t : sds) : 0 ≤ sdslen t.
Proof. unfold sdslen. lia. Qed.

Lemma sdslen_zero (t : sds) : sdslen t = 0 ↔ t = [].
Proof. unfold sdslen. destruct t; simpl; split; try done; lia. Qed.

(** The start of [setrangeCommand], up to the lookup of the key. *)
Lemma setrange_start (s : state) (offset : Z) (value : sds) :
  setrange_args s offset value →
  exec setrangeCommand s
  = exec (
      if offset <? 0 then addReplyError "offset is out of range"
      else
        key ← arg 1;
        o ← lookupKeyWrite key;
        match o with
        | None =>
            if sdslen value =? 0 then addReply (RShared shared_czero)
            else
              ok ← checkStringLength (to_ll (to_size_t (offset + sdslen value)));
              if bool_decide (ok ≠ C_OK) then return_void
              else
                o ← createObject
                      (RawVal (sdsnewlen_zero (to_size_t (offset + sdslen value))));
                dbAdd key o;;
                setrange_write key o offset value
        | Some o =>
            ob ← getobj o;
            wrong ← checkType ob OBJ_STRING;
            if (wrong : bool) then return_void
            else
              let olen := stringObjectLen ob in
              if sdslen value =? 0 then addReplyLongLong olen
              else
                ok ← checkStringLength
                       (to_ll (to_size_t (offset + sdslen value)));
                if bool_decide (ok ≠ C_OK) then return_void
                else
                  o ← dbUnshareStringValue key o;
                  setrange_write key o offset value
        end) s.
Proof.
  intros (H2 & a3 & vo & Ha3 & Hvo & Hval).
  unfold setrangeCommand.
  rewrite exec_bind, eval_arg, exec_arg, Ha3. cbn [default from_option id].
  rewrite exec_bind, eval_getobj, exec_getobj, Hvo. cbn [default from_option id].
  rewrite Hval.
  rewrite exec_bind, exec_arg, exec_bind.
  rewrite (eval_getLongFromObjectOrReply s 2 offset),
    (exec_getLongFromObjectOrReply s 2 offset) by done.
  done.
Qed.

Lemma setrange_negative_offset (s : state) (offset : Z) (value : sds) :
  setrange_args s offset value → offset < 0 →
  exec setrangeCommand s = set_reply (λ r, r ++ [InvalidOffset]) s.
Proof.
  intros Ha Ho. rewrite (setrange_start s offset value Ha).
  destruct (Z.ltb_spec offset 0); [done|lia].
Qed.

Lemma eval_checkStringLength (size : Z) (s : state) :
  eval (checkStringLength size) s = negb (size >? 512 * 1024 * 1024).
Proof. unfold checkStringLength. by destruct (_ >? _). Qed.

Lemma exec_checkStringLength (size : Z) (s : state) :
  exec (checkStringLength size) s
  = if size >? 512 * 1024 * 1024 then set_reply (λ r, r ++ [StringTooLong]) s
    else s.
Proof. unfold checkStringLength. by destruct (_ >? _). Qed.

(** Key absent. *)
Lemma setrange_absent (s : state) (k : sds) (offset : Z) (value : sds) :
  setrange_args s offset value → 0 ≤ offset →
  key_absent s k →
  let size := to_ll (setrange_total offset value) in
  let s' := exec setrangeCommand s in
  if sdslen value =? 0 then s' = set_reply (λ r, r ++ [RShared shared_czero]) s
  else if size >? 512 * 1024 * 1024 then
    s' = set_reply (λ r, r ++ [StringTooLong]) s
  else
    let new := fresh_loc (heap s) in
    let bytes := setrange_bytes
                   (sdsnewlen_zero (setrange_total offset value)) offset value in
    heap s' = <[new := mkObj 1 (RawVal bytes)]> (heap s)
    ∧ dict s' = <[k := new]> (dict s)
    ∧ expires s' = expires s
    ∧ reply s' = reply s ++ [RLongLong (sdslen bytes)].
Proof.
  intros Ha Ho (key & ko & Hkey & Hko & Hname & Hk) size s'. subst size s'.
  rewrite (setrange_start s offset value Ha).
  destruct (Z.ltb_spec offset 0); [lia|].
  rewrite exec_bind, eval_arg, exec_arg, Hkey. cbn [default from_option id].
  rewrite exec_bind, eval_lookupKeyWrite, exec_lookupKeyWrite, eval_keyname,
    eval_getobj, Hko. cbn [default from_option id]. rewrite Hname, Hk.
  destruct (Z.eqb_spec (sdslen value) 0) as [Hz|Hnz]; [done|].
  rewrite exec_bind, eval_checkStringLength, exec_checkStringLength.
  unfold setrange_total.
  destruct (_ >? _) eqn:Hsz; cbn [negb].
  { by rewrite bool_decide_eq_true_2. }
  rewrite bool_decide_eq_false_2 by (unfold C_OK; tauto).
  pose proof (fresh_loc_ne (heap s) key (ex_intro _ _ Hko)) as Hfk.
  unfold setrange_write, setrange_bytes, setrange_total.
  destruct (Z.gtb_spec (sdslen value) 0); [|pose proof (sdslen_nonneg value); lia].
  autorewrite with mrun.
  cbn [heap dict expires reply set_heap set_dict set_events set_dirty
       set_reply].
  rewrite !(lookup_insert_ne _ (fresh_loc (heap s)) key), Hko by done.
  cbn [default from_option id]. rewrite Hname.
  cbn [heap dict expires reply set_heap set_dict set_events set_dirty
       set_reply].
  rewrite lookup_alter_eq, !lookup_insert_eq. cbn [fmap option_fmap option_map default from_option id body refcount ptr_sds].
  repeat split.
  apply map_eq. intros i. destruct (decide (i = fresh_loc (heap s))) as [->|Hne].
  - by rewrite lookup_alter_eq, !lookup_insert_eq.
  - by rewrite lookup_alter_ne, !lookup_insert_ne.
Qed.

Lemma raw_text (o : robj) :
  encoding o = OBJ_ENCODING_RAW → ptr_sds o = text_of o.
Proof. unfold encoding, ptr_sds, text_of. by destruct (body o). Qed.

Lemma unshare_owned (s : state) (key l : loc) (o : robj) :
  heap s !! l = Some o → refcount o = 1 → encoding o = OBJ_ENCODING_RAW →
  eval (dbUnshareStringValue key l) s = l
  ∧ exec (dbUnshareStringValue key l) s = s.
Proof.
  intros Hl Hrc Henc. unfold dbUnshareStringValue.
  rewrite eval_bind, exec_bind, eval_getobj, exec_getobj, Hl.
  cbn [default from_option id].
  rewrite (bool_decide_eq_false_2 (refcount o ≠ 1)) by tauto.
  by rewrite (bool_decide_eq_false_2 (encoding o ≠ OBJ_ENCODING_RAW)) by tauto.
Qed.

Lemma unshare_shared (s : state) (key l : loc) (o : robj) :
  heap s !! l = Some o →
  ¬ (refcount o = 1 ∧ encoding o = OBJ_ENCODING_RAW) →
  eval (dbUnshareStringValue key l) s = fresh_loc (heap s)
  ∧ exec (dbUnshareStringValue key l) s
    = exec (dbOverwrite key (fresh_loc (heap s)))
        (set_heap <[fresh_loc (heap s) := mkObj 1 (RawVal (text_of o))]> s).
Proof.
  intros Hl Hex. unfold dbUnshareStringValue.
  rewrite eval_bind, exec_bind, eval_getobj, exec_getobj, Hl.
  cbn [default from_option id].
  assert (bool_decide (refcount o ≠ 1)
          || bool_decide (encoding o ≠ OBJ_ENCODING_RAW) = true) as ->.
  { apply orb_true_iff. rewrite !bool_decide_eq_true.
    destruct (decide (refcount o = 1)); [|by left].
    destruct (decide (encoding o = OBJ_ENCODING_RAW)); [|by right].
    tauto. }
  rewrite !eval_bind, !exec_bind, eval_createStringObject,
    exec_createStringObject. done.
Qed.

(** Key present. *)
Lemma setrange_present (s : state) (k : sds) (l : loc) (o : robj)
    (offset : Z) (value : sds) :
  setrange_args s offset value → 0 ≤ offset →
  key_holds s k l o →
  let size := to_ll (setrange_total offset value) in
  let s' := exec setrangeCommand s in
  if bool_decide (type o ≠ OBJ_STRING) then
    s' = set_reply (λ r, r ++ [WrongType]) s
  else if sdslen value =? 0 then
    s' = set_reply (λ r, r ++ [RLongLong (stringObjectLen o)]) s
  else if size >? 512 * 1024 * 1024 then
    s' = set_reply (λ r, r ++ [StringTooLong]) s
  else
    let bytes := setrange_bytes (text_of o) offset value in
    expires s' = expires s
    ∧ reply s' = reply s ++ [RLongLong (sdslen bytes)]
    ∧ if bool_decide (refcount o = 1 ∧ encoding o = OBJ_ENCODING_RAW) then
        heap s' = <[l := mkObj 1 (RawVal bytes)]> (heap s)
        ∧ dict s' = dict s
      else
        let new := fresh_loc (heap s) in
        heap s' = <[new := mkObj 1 (RawVal bytes)]>
                    (<[l := mkObj (refcount o - 1) (body o)]> (heap s))
        ∧ dict s' = <[k := new]> (dict s).
Proof.
  intros Ha Ho (key & ko & Hkey & Hko & Hname & Hk & Hl) size s'.
  subst size s'.
  rewrite (setrange_start s offset value Ha).
  destruct (Z.ltb_spec offset 0); [lia|].
  rewrite exec_bind, eval_arg, exec_arg, Hkey. cbn [default from_option id].
  rewrite exec_bind, eval_lookupKeyWrite, exec_lookupKeyWrite, eval_keyname,
    eval_getobj, Hko. cbn [default from_option id]. rewrite Hname, Hk.
  rewrite exec_bind, eval_getobj, exec_getobj, Hl. cbn [default from_option id].
  rewrite exec_bind.
  case_bool_decide as Ht.
  { by rewrite eval_checkType_other, exec_checkType_other. }
  rewrite eval_checkType_string, exec_checkType_string by done.
  cbv zeta.
  destruct (Z.eqb_spec (sdslen value) 0) as [Hz|Hnz]; [done|].
  rewrite exec_bind, eval_checkStringLength, exec_checkStringLength.
  unfold setrange_total.
  destruct (_ >? _) eqn:Hsz; cbn [negb].
  { by rewrite bool_decide_eq_true_2. }
  rewrite bool_decide_eq_false_2 by (unfold C_OK; tauto).
  pose proof (fresh_loc_ne (heap s) key (ex_intro _ _ Hko)) as Hfk.
  pose proof (fresh_loc_ne (heap s) l (ex_intro _ _ Hl)) as Hfl.
  unfold setrange_bytes, setrange_total.
  rewrite exec_bind.
  destruct (decide (refcount o = 1 ∧ encoding o = OBJ_ENCODING_RAW))
    as [[Hrc Henc]|Hex].
  - rewrite (bool_decide_eq_true_2 (refcount o = 1 ∧ _)) by done.
    destruct (unshare_owned s key l o Hl Hrc Henc) as [-> ->].
    unfold setrange_write.
    destruct (Z.gtb_spec (sdslen value) 0);
      [|pose proof (sdslen_nonneg value); lia].
    autorewrite with mrun.
    cbn [heap dict expires reply set_heap set_dict set_events set_dirty
         set_reply].
    rewrite Hl. cbn [default from_option id].
    rewrite lookup_alter_eq, Hl.
    cbn [fmap option_fmap option_map default from_option id body refcount
         ptr_sds].
    rewrite (raw_text o Henc). repeat split.
    apply map_eq. intros i. destruct (decide (i = l)) as [->|Hne].
    + rewrite lookup_alter_eq, lookup_insert_eq, Hl. simpl. by rewrite Hrc.
    + by rewrite lookup_alter_ne, lookup_insert_ne.
  - rewrite (bool_decide_eq_false_2 (refcount o = 1 ∧ _)) by done.
    destruct (unshare_shared s key l o Hl Hex) as [-> ->].
    assert (l ≠ fresh_loc (heap s)) as Hlf by done.
    unfold setrange_write.
    destruct (Z.gtb_spec (sdslen value) 0);
      [|pose proof (sdslen_nonneg value); lia].
    autorewrite with mrun.
    cbn [heap dict expires reply set_heap set_dict set_events set_dirty
         set_reply].
    rewrite !(lookup_insert_ne _ (fresh_loc (heap s)) key), Hko by done.
    cbn [default from_option id]. rewrite Hname, Hk.
    cbn [heap dict expires reply set_heap set_dict set_events set_dirty
         set_reply].
    heap_simp.
    repeat split.
    apply map_eq. intros i.
    destruct (decide (i = fresh_loc (heap s))) as [->|Hne].
    + by rewrite lookup_alter_eq, lookup_alter_ne, !lookup_insert_eq.
    + rewrite lookup_alter_ne, (lookup_insert_ne _ (fresh_loc (heap s)) i) by done.
      destruct (decide (i = l)) as [->|Hne2].
      * by rewrite lookup_alter_eq, lookup_insert_ne, lookup_insert_eq, Hl.
      * by rewrite lookup_alter_ne, !lookup_insert_ne.
Qed.

(** ** No write into a shared object *)


Lemma setCommand_options_preserves (R : relation state) `{!PreOrder R} :
  (∀ f s, R s (set_reply f s)) →
  ∀ rest flags expire u, preserves R (setCommand_options rest flags expire u).
Proof.
  intros HR rest. remember (length rest) as n eqn:Hn.
  assert (length rest ≤ n)%nat as Hlen by lia. clear Hn. revert rest Hlen.
  induction n as [|n IH]; intros rest Hlen flags expire u.
  { destruct rest; [|simpl in Hlen; lia]. intros s. reflexivity. }
  destruct rest as [|aj rest']; [intros s; reflexivity|]. simpl in Hlen.
  cbn [setCommand_options].
  apply preserves_bind; [done|intros s; reflexivity|intros o].
  assert (preserves R (addReply (RShared shared_syntaxerr) ≫= λ _,
                       mret (None : option (Z * option loc * time_unit))))
    as Herr.
  { apply preserves_bind; [done|intros s; apply HR|intros ? s; reflexivity]. }
  destruct (_ && _); [apply IH; lia|].
  destruct (_ && _); [apply IH; lia|].
  destruct (_ && _).
  { destruct rest' as [|next rest'']; [done|]. apply IH. simpl in Hlen. lia. }
  destruct (_ && _).
  { destruct rest' as [|next rest'']; [done|]. apply IH. simpl in Hlen. lia. }
  done.
Qed.

Lemma mset_busykeys_preserves (R : relation state) `{!PreOrder R} js b :
  preserves R (mset_busykeys js b).
Proof. intros s. rewrite mset_busykeys_exec. reflexivity. Qed.

Lemma setCommand_options_bodies rest flags expire u :
  preserves bodies_kept (setCommand_options rest flags expire u).
Proof.
  apply setCommand_options_preserves; [apply _|].
  intros f s. by apply bodies_kept_heap.
Qed.

Lemma mset_busykeys_bodies js b : preserves bodies_kept (mset_busykeys js b).
Proof. apply mset_busykeys_preserves; apply _. Qed.

#[global] Hint Resolve setCommand_options_bodies mset_busykeys_bodies : frame.

Section keeps.
Context {LD : LongDouble}.












End keeps.

(** *** Commands that write into an object *)



Section keeps_from.
Context (s : state).





End keeps_from.



Lemma getLongLongFromObjectOrReply_heap (o : option loc) :
  preserves (same heap) (getLongLongFromObjectOrReply o).
Proof. destruct o; frame. Qed.

Lemma getLongFromObjectOrReply_heap (o : option loc) :
  preserves (same heap) (getLongFromObjectOrReply o).
Proof. destruct o; frame. Qed.

#[global] Hint Resolve getLongLongFromObjectOrReply_heap
  getLongFromObjectOrReply_heap : frame.


Section keeps_on.
Context (s : state).







End keeps_on.








(** ** SETRANGE: the bytes, and the size that is checked *)

Lemma setrange_total_id (offset : Z) (value : sds) :
  0 ≤ offset → offset + sdslen value < 2 ^ 64 →
  setrange_total offset value = offset + sdslen value.
Proof.
  intros Ho Hlt. unfold setrange_total, to_size_t.
  pose proof (sdslen_nonneg value). rewrite Z.mod_small; lia.
Qed.

Lemma length_sdsgrowzero (t : sds) (n : Z) :
  sdslen (sdsgrowzero t n) = Z.max (sdslen t) n.
Proof.
  unfold sdsgrowzero, sdslen. rewrite length_app, length_replicate. lia.
Qed.

Lemma setrange_bytes_length (t : sds) (offset : Z) (value : sds) :
  0 ≤ offset → offset + sdslen value < 2 ^ 64 →
  sdslen (setrange_bytes t offset value)
  = Z.max (sdslen t) (offset + sdslen value).
Proof.
  intros Ho Hlt. unfold setrange_bytes.
  rewrite setrange_total_id by done.
  pose proof (length_sdsgrowzero t (offset + sdslen value)) as Hg.
  unfold memcpy_at, sdslen in *.
  rewrite !length_app, length_take, length_drop. lia.
Qed.

(** Every byte of the result: the data from [offset] on, the old bytes
    elsewhere, and zeros where there were no old bytes. *)
Lemma setrange_bytes_lookup (t : sds) (offset : Z) (value : sds) (i : nat) :
  0 ≤ offset → offset + sdslen value < 2 ^ 64 →
  (i < Z.to_nat (Z.max (sdslen t) (offset + sdslen value)))%nat →
  setrange_bytes t offset value !! i
  = if decide (Z.to_nat offset ≤ i < Z.to_nat offset + length value)%nat
    then value !! (i - Z.to_nat offset)%nat
    else if decide (i < length t)%nat then t !! i else Some x00.
Proof.
  intros Ho Hlt Hi. unfold setrange_bytes.
  rewrite setrange_total_id by done.
  unfold memcpy_at, sdsgrowzero, sdslen in *.
  set (n := Z.to_nat offset) in *.
  set (z := Z.to_nat (offset + Z.of_nat (length value) - Z.of_nat (length t))).
  assert (length (t ++ replicate z x00) = (length t + z)%nat) as Hlen
    by (by rewrite length_app, length_replicate).
  assert (n + length value ≤ length t + z)%nat as Hfit by (unfold n, z; lia).
  destruct (decide (i < n)%nat) as [Hin|Hin].
  - rewrite lookup_app_l by (rewrite length_take; lia).
    rewrite lookup_take_lt by done.
    rewrite decide_False by lia.
    destruct (decide (i < length t)%nat).
    + by rewrite lookup_app_l.
    + rewrite lookup_app_r by lia. apply lookup_replicate_2. lia.
  - rewrite lookup_app_r by (rewrite length_take; lia).
    rewrite length_take, Hlen.
    replace (i - n `min` (length t + z))%nat with (i - n)%nat by lia.
    destruct (decide (n ≤ i < n + length value)%nat) as [Hv|Hv].
    + by rewrite lookup_app_l by lia.
    + rewrite lookup_app_r by lia. rewrite lookup_drop.
      replace (n + length value + (i - n - length value))%nat with i by lia.
      destruct (decide (i < length t)%nat).
      * by rewrite lookup_app_l.
      * rewrite lookup_app_r by lia. apply lookup_replicate_2. lia.
Qed.

Lemma size_checked_id (offset : Z) (value : sds) :
  0 ≤ offset → offset + sdslen value ≤ LLONG_MAX →
  to_ll (setrange_total offset value) = offset + sdslen value.
Proof.
  intros Ho Hle. pose proof (sdslen_nonneg value).
  rewrite setrange_total_id by (unfold LLONG_MAX in *; lia).
  apply to_ll_id. unfold LLONG_MIN, LLONG_MAX in *. lia.
Qed.

(** What the specification says of SETRANGE holds wherever offset plus
    length stays within a [long long]: the errors for a negative offset
    and for a result above 512 MiB, the two answers for empty data, and
    the bytes of the value that is left under the key. *)
Lemma setrange_within_range (s : state) (offset : Z) (value : sds) :
  setrange_args s offset value →
  offset + sdslen value ≤ LLONG_MAX →
  let s' := exec setrangeCommand s in
  let total := offset + sdslen value in
  (offset < 0 → s' = set_reply (λ r, r ++ [InvalidOffset]) s)
  ∧ (0 ≤ offset → ∀ k, key_absent s k →
       (value = [] → s' = set_reply (λ r, r ++ [RShared shared_czero]) s)
       ∧ (value ≠ [] → total > 512 * 1024 * 1024 →
            s' = set_reply (λ r, r ++ [StringTooLong]) s)
       ∧ (value ≠ [] → total ≤ 512 * 1024 * 1024 →
            ∃ new bytes,
              heap s !! new = None ∧ dict s' !! k = Some new
              ∧ heap s' !! new = Some (mkObj 1 (RawVal bytes))
              ∧ sdslen bytes = total
              ∧ (∀ i, (i < Z.to_nat offset)%nat → bytes !! i = Some x00)
              ∧ (∀ j, (j < length value)%nat →
                   bytes !! (Z.to_nat offset + j)%nat = value !! j)
              ∧ reply s' = reply s ++ [RLongLong total]))
  ∧ (0 ≤ offset → ∀ k l o, key_holds s k l o → type o = OBJ_STRING →
       (value = [] →
          s' = set_reply (λ r, r ++ [RLongLong (stringObjectLen o)]) s)
       ∧ (value ≠ [] → total > 512 * 1024 * 1024 →
            s' = set_reply (λ r, r ++ [StringTooLong]) s)
       ∧ (value ≠ [] → total ≤ 512 * 1024 * 1024 →
            ∃ l' bytes,
              dict s' !! k = Some l'
              ∧ heap s' !! l' = Some (mkObj 1 (RawVal bytes))
              ∧ sdslen bytes = Z.max (sdslen (text_of o)) total
              ∧ (∀ i, (i < Z.to_nat offset)%nat ∨ (Z.to_nat total ≤ i)%nat →
                   (i < length (text_of o))%nat → bytes !! i = text_of o !! i)
              ∧ (∀ i, (length (text_of o) ≤ i < Z.to_nat offset)%nat →
                   bytes !! i = Some x00)
              ∧ (∀ j, (j < length value)%nat →
                   bytes !! (Z.to_nat offset + j)%nat = value !! j)
              ∧ reply s' = reply s ++ [RLongLong (sdslen bytes)])).
Proof.
  intros Ha Hle s' total. subst s' total.
  pose proof (sdslen_nonneg value) as Hvl.
  split; [by apply (setrange_negative_offset s offset value)|]. split.
  - intros Ho k Hk. pose proof (setrange_absent s k offset value Ha Ho Hk) as H.
    cbv zeta in H. rewrite (size_checked_id offset value) in H by done.
    split; [|split].
    + intros ->. by rewrite (proj2 (Z.eqb_eq _ _)) in H.
    + intros Hv Hbig.
      rewrite (proj2 (Z.eqb_neq _ _)) in H by (intros E; by apply sdslen_zero in E).
      destruct (Z.gtb_spec (offset + sdslen value) (512 * 1024 * 1024));
        [done|lia].
    + intros Hv Hsmall.
      rewrite (proj2 (Z.eqb_neq _ _)) in H by (intros E; by apply sdslen_zero in E).
      destruct (Z.gtb_spec (offset + sdslen value) (512 * 1024 * 1024));
        [lia|].
      destruct H as (Hh & Hd & _ & Hr).
      assert (offset + sdslen value < 2 ^ 64) as Hlt
        by (unfold LLONG_MAX in *; lia).
      pose proof (setrange_bytes_length
                    (sdsnewlen_zero (setrange_total offset value)) offset value
                    Ho Hlt) as Hlen.
      assert (sdslen (sdsnewlen_zero (setrange_total offset value))
              = offset + sdslen value) as Hzl.
      { unfold sdsnewlen_zero, sdslen at 1. rewrite length_replicate.
        rewrite setrange_total_id by done. lia. }
      rewrite Hzl in Hlen.
      eexists _, _. rewrite Hd, Hh, !lookup_insert_eq.
      split; [apply fresh_loc_fresh|]. split; [reflexivity|].
      split; [reflexivity|]. split; [lia|]. split; [|split].
      * intros i Hi. rewrite setrange_bytes_lookup by (rewrite ?Hzl; lia).
        rewrite decide_False by lia.
        unfold sdsnewlen_zero. rewrite length_replicate.
        rewrite setrange_total_id by done.
        rewrite decide_True by (unfold sdslen in *; lia).
        apply lookup_replicate_2. unfold sdslen in *. lia.
      * intros j Hj.
        rewrite setrange_bytes_lookup by (rewrite ?Hzl; unfold sdslen in *; lia).
        rewrite decide_True by lia. f_equal. lia.
      * rewrite Hr. do 3 f_equal. lia.
  - intros Ho k l o Hk Ht.
    pose proof (setrange_present s k l o offset value Ha Ho Hk) as H.
    cbv zeta in H. rewrite (size_checked_id offset value) in H by done.
    rewrite (bool_decide_eq_false_2 (type o ≠ OBJ_STRING)) in H by tauto.
    split; [|split].
    + intros ->. by rewrite (proj2 (Z.eqb_eq _ _)) in H.
    + intros Hv Hbig.
      rewrite (proj2 (Z.eqb_neq _ _)) in H by (intros E; by apply sdslen_zero in E).
      destruct (Z.gtb_spec (offset + sdslen value) (512 * 1024 * 1024));
        [done|lia].
    + intros Hv Hsmall.
      rewrite (proj2 (Z.eqb_neq _ _)) in H by (intros E; by apply sdslen_zero in E).
      destruct (Z.gtb_spec (offset + sdslen value) (512 * 1024 * 1024));
        [lia|].
      destruct H as (_ & Hr & H).
      assert (offset + sdslen value < 2 ^ 64) as Hlt
        by (unfold LLONG_MAX in *; lia).
      pose proof (setrange_bytes_length (text_of o) offset value Ho Hlt) as Hlen.
      assert (∃ l', dict (exec setrangeCommand s) !! k = Some l'
                    ∧ heap (exec setrangeCommand s) !! l'
                      = Some (mkObj 1 (RawVal (setrange_bytes (text_of o)
                                                 offset value)))) as (l' & Hd' & Hh').
      { destruct (bool_decide _); destruct H as [Hh Hd].
        - exists l. destruct Hk as (? & ? & ? & ? & ? & Hdk & ?).
          by rewrite Hh, Hd, lookup_insert_eq.
        - eexists. by rewrite Hh, Hd, !lookup_insert_eq. }
      exists l', (setrange_bytes (text_of o) offset value).
      split; [done|]. split; [done|]. split; [done|].
      split; [|split; [|split]].
      * intros i Hi Hit.
        rewrite setrange_bytes_lookup by (unfold sdslen in *; lia).
        rewrite decide_False by (unfold sdslen in *; lia).
        by rewrite decide_True.
      * intros i Hi.
        rewrite setrange_bytes_lookup by (unfold sdslen in *; lia).
        rewrite decide_False by lia. by rewrite decide_False by lia.
      * intros j Hj.
        rewrite setrange_bytes_lookup by (unfold sdslen in *; lia).
        rewrite decide_True by lia. f_equal. lia.
      * done.
Qed.

(** C5, at the input on which the code leaves the claim: [SETRANGE k
    9223372036854775807 a] on a key that is not there.  Offset plus
    length is 2^63, far above 512 MiB, but the size handed to
    [checkStringLength] is that sum turned into a [long long], which is
    negative; the check lets it through, no error is sent, and the
    command goes on to build a value of 2^63 bytes under the key. *)
Theorem setrange_wrapped_size_accepted :
  LONG_MAX + sdslen (str "a") > 512 * 1024 * 1024
  ∧ to_ll (setrange_total LONG_MAX (str "a")) = LLONG_MIN
  ∧ reply (exec setrangeCommand setrange_max_state)
    = [RLongLong 9223372036854775808]
  ∧ reply (exec setrangeCommand setrange_max_state) ≠ [StringTooLong]
  ∧ ∃ new bytes,
      dict (exec setrangeCommand setrange_max_state) !! str "k" = Some new
      ∧ heap (exec setrangeCommand setrange_max_state) !! new
        = Some (mkObj 1 (RawVal bytes))
      ∧ sdslen bytes = 9223372036854775808.
Proof.
  assert (setrange_args setrange_max_state LONG_MAX (str "a")) as Ha.
  { split.
    - exists 3%positive, (mkObj 1 (RawVal (str "9223372036854775807"))).
      by vm_compute.
    - exists 4%positive, (mkObj 1 (RawVal (str "a"))). by vm_compute. }
  assert (key_absent setrange_max_state (str "k")) as Hk.
  { exists 2%positive, (mkObj 1 (RawVal (str "k"))). by vm_compute. }
  assert (to_ll (setrange_total LONG_MAX (str "a")) = LLONG_MIN) as Hsize
    by (by vm_compute).
  pose proof (setrange_absent setrange_max_state (str "k") LONG_MAX (str "a")
                Ha ltac:(by vm_compute) Hk) as H.
  cbv zeta in H. rewrite Hsize in H.
  replace (sdslen (str "a") =? 0) with false in H by (by vm_compute).
  replace (LLONG_MIN >? 512 * 1024 * 1024) with false in H by (by vm_compute).
  destruct H as (Hh & Hd & _ & Hr).
  assert (sdslen (setrange_bytes
                    (sdsnewlen_zero (setrange_total LONG_MAX (str "a")))
                    LONG_MAX (str "a")) = 9223372036854775808) as Hlen.
  { rewrite setrange_bytes_length by (by vm_compute).
    unfold sdsnewlen_zero, sdslen at 1. rewrite length_replicate.
    rewrite setrange_total_id by (by vm_compute).
    replace (sdslen (str "a")) with 1 by (by vm_compute).
    unfold LONG_MAX, LLONG_MAX. lia. }
  split; [vm_compute; reflexivity|]. split; [exact Hsize|].
  rewrite Hr, Hlen. split; [vm_compute; reflexivity|].
  split; [vm_compute; discriminate|].
  exists (fresh_loc (heap setrange_max_state)),
    (setrange_bytes (sdsnewlen_zero (setrange_total LONG_MAX (str "a")))
       LONG_MAX (str "a")).
  rewrite Hd, Hh, !lookup_insert_eq.
  split; [reflexivity|]. split; [reflexivity|exact Hlen].
Qed.

(** ** MSETNX: all or nothing *)

Lemma text_of_raw (o : robj) (t : sds) : body o = RawVal t → text_of o = t.
Proof. unfold text_of. by intros ->. Qed.

Lemma ptr_sds_raw (o : robj) (t : sds) : body o = RawVal t → ptr_sds o = t.
Proof. unfold ptr_sds. by intros ->. Qed.

(** [tryObjectEncoding] gives an object with the text of the one it was
    given, and leaves the keyspace and the other objects alone. *)
Lemma tryObjectEncoding_text (s : state) (a : loc) (o : robj) (t : sds) :
  heap s !! a = Some o → body o = RawVal t → pool_ok s →
  ∃ oe, heap (exec (tryObjectEncoding a) s) !! eval (tryObjectEncoding a) s
        = Some oe
        ∧ text_of oe = t.
Proof.
  intros Ha Hb Hpool. unfold tryObjectEncoding.
  rewrite exec_bind, eval_bind, eval_getobj, exec_getobj, Ha.
  cbn [default from_option id]. rewrite Hb.
  destruct (string2ll t) as [v|] eqn:Hv.
  2:{ rewrite exec_ret, eval_ret, Ha. eexists; split; [done|].
      by apply text_of_raw. }
  apply ll2string_string2ll in Hv.
  assert (∃ oe, heap (exec (n ← createObject (IntVal v); decrRefCount a;; mret n) s)
                !! eval (n ← createObject (IntVal v); decrRefCount a;; mret n) s
                = Some oe ∧ text_of oe = t) as Hnew.
  { autorewrite with mrun. heap_simp.
    pose proof (fresh_loc_ne (heap s) a (ex_intro _ _ Ha)).
    heap_simp. eexists; split; [done|]. done. }
  rewrite exec_bind, eval_bind, exec_gets, eval_gets.
  destruct (integers s !! v) as [sh|] eqn:Hsh; [|done].
  destruct ((0 <=? v) && (v <? OBJ_SHARED_INTEGERS)); [|done].
  destruct (Hpool v sh Hsh) as (po & Hpo & Hpb).
  autorewrite with mrun. heap_simp.
  destruct (decide (sh = a)) as [->|Hne].
  - rewrite Ha in Hpo. simplify_eq. congruence.
  - heap_simp. rewrite Hpo. heap_simp. eexists; split; [done|].
    unfold text_of. cbn [body]. by rewrite Hpb.
Qed.

Lemma tryObjectEncoding_dict (l : loc) : preserves (same dict) (tryObjectEncoding l).
Proof. frame. Qed.

Lemma tryObjectEncoding_integers (l : loc) :
  preserves (same integers) (tryObjectEncoding l).
Proof. frame. Qed.

Lemma mset_assign_integers (j : nat) : preserves (same integers) (mset_assign j).
Proof. frame. Qed.

Lemma mset_assign_bodies (j : nat) : preserves bodies_kept (mset_assign j).
Proof. frame. Qed.

Lemma setKey_dict (key val : loc) (s : state) :
  dict (exec (setKey key val) s) = <[eval (keyname key) s := val]> (dict s).
Proof.
  unfold setKey. autorewrite with mrun.
  destruct (dict s !! _) eqn:E; autorewrite with mrun; heap_simp;
    rewrite ?E; by heap_simp.
Qed.

Lemma text_of_body (o o' : robj) : body o' = body o → text_of o' = text_of o.
Proof. unfold text_of. by intros ->. Qed.

(** One pair of the batch is stored. *)
Lemma mset_assign_step (st : state) (j : nat) (kl a : loc) (ko oa : robj)
    (kt t : sds) :
  argv st !! j = Some kl → argv st !! (j + 1)%nat = Some a →
  heap st !! kl = Some ko → body ko = RawVal kt →
  heap st !! a = Some oa → body oa = RawVal t →
  pool_ok st →
  let st2 := exec (mset_assign j) st in
  ∃ e, dict st2 = <[kt := e]> (dict st)
       ∧ argv st2 = <[(j + 1)%nat := e]> (argv st)
       ∧ ∃ oe, heap st2 !! e = Some oe ∧ text_of oe = t.
Proof.
  intros Hj Hj1 Hkl Hkb Ha Hab Hpool st2.
  destruct (tryObjectEncoding_text st a oa t Ha Hab Hpool) as (oe & He & Het).
  pose proof (tryObjectEncoding_dict a st) as Hd1.
  pose proof (tryObjectEncoding_argv a st) as Hv1.
  pose proof (tryObjectEncoding_bodies a st kl ko Hkl) as (ko1 & Hko1 & Hkb1).
  unfold same in Hd1.
  set (e := eval (tryObjectEncoding a) st) in *.
  set (st1 := exec (tryObjectEncoding a) st) in *.
  assert (j ≠ (j + 1)%nat) as Hne by lia.
  assert (j + 1 < length (argv st))%nat as Hlt by (by eapply lookup_lt_Some).
  assert (st2 = exec (setKey kl e;; notifyKeyspaceEvent NOTIFY_STRING "set" kl)
                  (set_argv <[(j + 1)%nat := e]> st1)) as Hst2.
  { subst st2. unfold mset_assign.
    rewrite exec_bind, eval_arg, exec_arg, Hj1. cbn [default from_option id].
    rewrite exec_bind. fold e st1. rewrite exec_bind, exec_set_arg.
    rewrite exec_bind, eval_arg, exec_arg. cbn [argv set_argv].
    rewrite Hv1, list_lookup_insert_ne, Hj by done.
    cbn [default from_option id].
    rewrite exec_bind, eval_arg, exec_arg. cbn [argv set_argv].
    rewrite Hv1, list_lookup_insert_eq by done. done. }
  set (st1' := set_argv <[(j + 1)%nat := e]> st1) in *.
  exists e. rewrite Hst2, exec_bind, exec_notifyKeyspaceEvent.
  cbn [dict argv heap set_events].
  split; [|split].
  - rewrite setKey_dict, eval_keyname, eval_getobj. subst st1'.
    cbn [heap dict set_argv]. rewrite Hko1. cbn [default from_option id].
    by rewrite (ptr_sds_raw ko1 kt), Hd1 by congruence.
  - assert (preserves (same argv) (setKey kl e)) as Hp by frame.
    rewrite (Hp st1'). subst st1'. cbn [argv set_argv]. by rewrite Hv1.
  - destruct (setKey_bodies kl e st1' e oe He) as (oe' & Hoe' & Eb).
    exists oe'. split; [done|]. by rewrite (text_of_body oe oe').
Qed.

Lemma value_of_Some (s : state) (k v : sds) :
  value_of s k = Some v ↔
  ∃ l o, dict s !! k = Some l ∧ heap s !! l = Some o ∧ text_of o = v.
Proof.
  unfold value_of. split.
  - destruct (dict s !! k) as [l|]; [|done]. cbn [mbind option_bind].
    destruct (heap s !! l) as [o|] eqn:Hl; [|done]. cbn [mbind option_bind].
    intros [= <-]. by exists l, o.
  - intros (l & o & -> & Hl & <-). cbn [mbind option_bind]. by rewrite Hl.
Qed.

Lemma pool_ok_kept (s st : state) :
  pool_ok s → bodies_kept s st → integers st = integers s → pool_ok st.
Proof.
  intros Hp Hb Hi n p Hn. rewrite Hi in Hn.
  destruct (Hp n p Hn) as (o & Ho & Eb).
  destruct (Hb p o Ho) as (o' & Ho' & Eb'). exists o'. split; [done|congruence].
Qed.

Lemma arg_raw_text (s : state) (j : nat) (a : loc) :
  args_raw s → argv s !! j = Some a →
  ∃ o, heap s !! a = Some o ∧ body o = RawVal (arg_text s j).
Proof.
  intros Hraw Hj. destruct (Hraw a) as (o & t & Ho & Hb).
  { by eapply list_elem_of_lookup_2. }
  exists o. split; [done|]. unfold arg_text.
  rewrite eval_arg, Hj, eval_getobj. cbn [default from_option id].
  rewrite Ho. cbn [default from_option id]. by rewrite (ptr_sds_raw o t).
Qed.

Lemma mset_loop_inv (s : state) :
  args_raw s → pool_ok s →
  ∀ (js : list nat) (st : state) (m : gmap sds sds),
    NoDup js →
    Forall (λ j, Nat.odd j = true ∧ (j + 1 < length (argv s))%nat) js →
    mset_inv s st m js →
    mset_inv s (exec (forM_ js mset_assign) st)
      (foldl (λ m kv, <[kv.1 := kv.2]> m) m
         ((λ j, (arg_text s j, arg_text s (j + 1))) <$> js)) [].
Proof.
  intros Hraw Hpool js. induction js as [|j r IH]; intros st m Hnd Hall Hinv.
  { by rewrite exec_forM_nil. }
  rewrite exec_forM_cons. cbn [fmap list_fmap foldl].
  apply NoDup_cons in Hnd as [Hjr Hnd].
  apply Forall_cons in Hall as [[Hodd Hlt] Hall].
  apply IH; [done|done|]. clear IH.
  destruct Hinv as (Hb & Hi & Hr & Hpos & Hval & Hnone).
  destruct (Hpos j) as [Hj Hj1]; [by left|].
  destruct (lookup_lt_is_Some_2 (argv s) j) as [kl Hkl]; [lia|].
  destruct (lookup_lt_is_Some_2 (argv s) (j + 1)) as [a Ha]; [lia|].
  rewrite Hkl in Hj. rewrite Ha in Hj1.
  destruct (arg_raw_text s j kl Hraw Hkl) as (ko0 & Hko0 & Hkb0).
  destruct (arg_raw_text s (j + 1) a Hraw Ha) as (oa0 & Hoa0 & Hab0).
  destruct (Hb kl ko0 Hko0) as (ko & Hko & Hkb). rewrite Hkb0 in Hkb.
  destruct (Hb a oa0 Hoa0) as (oa & Hoa & Hab). rewrite Hab0 in Hab.
  pose proof (pool_ok_kept s st Hpool Hb Hi) as Hpool'.
  destruct (mset_assign_step st j kl a ko oa (arg_text s j) (arg_text s (j + 1))
              Hj Hj1 Hko Hkb Hoa Hab Hpool') as (e & Hd2 & Hv2 & oe & Hoe & Het).
  pose proof (mset_assign_bodies j st) as Hb2.
  pose proof (mset_assign_integers j st) as Hi2.
  pose proof (mset_assign_reply j st) as Hr2. unfold same in Hi2, Hr2.
  set (st2 := exec (mset_assign j) st) in *.
  split; [by etrans|]. split; [congruence|]. split; [congruence|].
  split; [|split].
  - intros j2 Hj2. apply (Forall_forall _ r) with (x := j2) in Hall as [Hodd2 _];
      [|done].
    assert (j2 ≠ j) as Hne by (intros ->; done).
    destruct (Hpos j2) as [Hp1 Hp2]; [by right|].
    assert ((j + 1)%nat ≠ j2) as Hpar.
    { intros E. rewrite <- E in Hodd2.
      rewrite Nat.add_1_r, Nat.odd_succ in Hodd2.
      rewrite <- Nat.negb_odd, Hodd in Hodd2. done. }
    rewrite Hv2. by rewrite !list_lookup_insert_ne by lia.
  - intros k v Hk. cbn [fst snd] in Hk.
    destruct (decide (k = arg_text s j)) as [->|Hne].
    + rewrite lookup_insert_eq in Hk. simplify_eq.
      apply value_of_Some. exists e, oe. by rewrite Hd2, lookup_insert_eq.
    + rewrite lookup_insert_ne in Hk by done.
      apply Hval, value_of_Some in Hk as (l & o & Hdl & Hl & Ht).
      destruct (Hb2 l o Hl) as (o' & Ho' & Eb).
      apply value_of_Some. exists l, o'.
      rewrite Hd2, lookup_insert_ne by done.
      split; [done|]. split; [done|]. by rewrite (text_of_body o o').
  - intros k Hk. cbn [fst snd] in Hk.
    apply lookup_insert_None in Hk as [Hk Hne].
    rewrite Hd2, lookup_insert_ne by done. by apply Hnone.
Qed.

Lemma busykeys_lower (js : list nat) (b : Z) (s : state) :
  b ≤ eval (mset_busykeys js b) s.
Proof.
  revert b. induction js as [|j r IH]; intros b; [done|].
  cbn [mset_busykeys]. rewrite !eval_bind, !exec_arg, exec_lookupKeyWrite.
  etrans; [|apply IH]. case_bool_decide; lia.
Qed.

Lemma busykeys_none (js : list nat) (b : Z) (s : state) :
  (∀ j, j ∈ js → dict s !! arg_text s j = None) →
  eval (mset_busykeys js b) s = b.
Proof.
  revert b. induction js as [|j r IH]; intros b Hall; [done|].
  cbn [mset_busykeys]. rewrite !eval_bind, !exec_arg, exec_lookupKeyWrite.
  rewrite eval_lookupKeyWrite, eval_keyname. fold (arg_text s j).
  rewrite (Hall j) by (by left). rewrite bool_decide_eq_false_2 by tauto.
  apply IH. intros j2 Hj2. apply Hall. by right.
Qed.

Lemma busykeys_some (js : list nat) (b : Z) (s : state) (j : nat) :
  j ∈ js → dict s !! arg_text s j ≠ None →
  b < eval (mset_busykeys js b) s.
Proof.
  revert b. induction js as [|j1 r IH]; intros b Hj Hbusy.
  { by apply elem_of_nil in Hj. }
  cbn [mset_busykeys]. rewrite !eval_bind, !exec_arg, exec_lookupKeyWrite.
  rewrite eval_lookupKeyWrite, eval_keyname. fold (arg_text s j1).
  apply elem_of_cons in Hj as [->|Hj].
  - rewrite bool_decide_eq_true_2 by done.
    pose proof (busykeys_lower r (b + 1) s). lia.
  - specialize (IH (if bool_decide (dict s !! arg_text s j1 ≠ None)
                    then b + 1 else b) Hj Hbusy).
    case_bool_decide; lia.
Qed.

Lemma pair_indices_spec (n : nat) :
  Z.odd (Z.of_nat n) = true →
  NoDup (pair_indices n)
  ∧ Forall (λ j, Nat.odd j = true ∧ (j + 1 < n)%nat) (pair_indices n).
Proof.
  intros Hodd. unfold pair_indices. split.
  - apply NoDup_fmap_2; [intros i1 i2; lia|apply NoDup_seq].
  - apply Forall_fmap, Forall_forall. intros i Hi. apply elem_of_seq in Hi.
    cbn beta. split.
    + replace (1 + 2 * i)%nat with (S (2 * i)) by lia.
      by rewrite Nat.odd_succ, Nat.even_mul.
    + assert (n = S (2 * (n / 2)))%nat as Hn.
      { rewrite Zodd_mod in Hodd. apply Z.eqb_eq in Hodd.
        pose proof (Nat.div_mod_eq n 2) as Hdm.
        assert (n mod 2 = 1)%nat by (apply Nat2Z.inj; rewrite Nat2Z.inj_mod; done).
        lia. }
      lia.
Qed.

Lemma assigned_covers (b : list (sds * sds)) (kv : sds * sds) :
  kv ∈ b → is_Some (assigned b !! kv.1).
Proof.
  unfold assigned. induction b as [|x b IH] using rev_ind.
  { intros H. by apply elem_of_nil in H. }
  rewrite foldl_app. cbn [foldl]. intros [Hin|Hin%list_elem_of_singleton]%elem_of_app.
  - destruct (decide (x.1 = kv.1)) as [->|Hne].
    + rewrite lookup_insert_eq. eauto.
    + rewrite lookup_insert_ne by done. by apply IH.
  - subst x. rewrite lookup_insert_eq. eauto.
Qed.

(** X1: MSETNX first looks at every key of the batch.  When one of them
    is there, the answer is the failure reply and nothing else changes:
    no key of the batch is created or modified.  When none is there,
    every pair is assigned (each key then holds the value of its last
    pair), no other key is touched, and the answer is the success reply. *)
Theorem msetnx_all_or_nothing (s : state) :
  Z.odd (Z.of_nat (length (argv s))) = true →
  ((∃ kv, kv ∈ batch s ∧ dict s !! kv.1 ≠ None) →
     exec msetnxCommand s = set_reply (λ r, r ++ [RShared shared_czero]) s)
  ∧ (args_raw s → pool_ok s →
     (∀ kv, kv ∈ batch s → dict s !! kv.1 = None) →
     let s' := exec msetnxCommand s in
     reply s' = reply s ++ [RShared shared_cone]
     ∧ (∀ kv, kv ∈ batch s → is_Some (assigned (batch s) !! kv.1))
     ∧ (∀ k v, assigned (batch s) !! k = Some v → value_of s' k = Some v)
     ∧ (∀ k, assigned (batch s) !! k = None → dict s' !! k = dict s !! k)
     ∧ bodies_kept s s').
Proof.
  intros Hodd.
  assert ((Z.of_nat (length (argv s)) mod 2 =? 0) = false) as Hmod.
  { apply Z.eqb_neq. rewrite Zodd_mod in Hodd. apply Z.eqb_eq in Hodd. lia. }
  unfold msetnxCommand, msetGenericCommand.
  rewrite exec_bind, eval_argc, exec_argc, Hmod.
  rewrite exec_bind, eval_gets, exec_gets, exec_bind, mset_busykeys_exec.
  split.
  - intros ((k & v) & Hin & Hbusy). unfold batch in Hin.
    apply list_elem_of_fmap in Hin as (j & [= -> ->] & Hj).
    pose proof (busykeys_some _ 0 s j Hj Hbusy) as Hpos.
    destruct (Z.eqb_spec (eval (mset_busykeys (pair_indices (length (argv s))) 0) s) 0);
      [lia|]. done.
  - intros Hraw Hpool Hfree. cbv zeta.
    rewrite busykeys_none.
    2:{ intros j Hj. apply (Hfree (arg_text s j, arg_text s (j + 1))).
        unfold batch. apply list_elem_of_fmap. eauto. }
    rewrite Z.eqb_refl. cbn [negb].
    rewrite !exec_bind, exec_addReply, exec_modify.
    destruct (pair_indices_spec (length (argv s)) Hodd) as [Hnd Hall].
    destruct (mset_loop_inv s Hraw Hpool (pair_indices (length (argv s))) s ∅
                Hnd Hall) as (Hb & _ & Hr & _ & Hval & Hnone).
    { repeat split; done. }
    fold (batch s) in Hval, Hnone. fold (assigned (batch s)) in Hval, Hnone.
    cbn [reply dict heap set_reply set_dirty]. rewrite Hr.
    split; [done|]. split; [apply assigned_covers|].
    split; [|split; [done|]].
    + intros k v Hk. apply Hval in Hk. revert Hk. unfold value_of.
      by cbn [dict heap set_reply set_dirty].
    + etrans; [apply Hb|]. by apply bodies_kept_heap.
Qed.

Lemma msetnx_all_or_nothing_witness :
  (value_of msetnx_busy_state (str "b") = Some (str "x")
   ∧ exec msetnxCommand msetnx_busy_state
     = set_reply (λ r, r ++ [RShared shared_czero]) msetnx_busy_state)
  ∧ reply (exec msetnxCommand msetnx_free_state) = [RShared shared_cone]
  ∧ value_of (exec msetnxCommand msetnx_free_state) (str "a") = Some (str "1")
  ∧ value_of (exec msetnxCommand msetnx_free_state) (str "b") = Some (str "2").
Proof.
  split.
  - split; [by vm_compute|].
    apply (proj1 (msetnx_all_or_nothing msetnx_busy_state ltac:(reflexivity))).
    exists (str "b", str "2"). split; [|by vm_compute].
    unfold batch. apply list_elem_of_fmap. exists 3%nat.
    split; [by vm_compute|]. vm_compute. by repeat constructor.
  - destruct (proj2 (msetnx_all_or_nothing msetnx_free_state ltac:(reflexivity)))
      as (Hr & _ & Hval & _).
    + intros a Ha. vm_compute in Ha.
      repeat (apply elem_of_cons in Ha as [->|Ha];
              [eexists _, _; by vm_compute|]).
      by apply elem_of_nil in Ha.
    + intros n p Hn. by vm_compute in Hn.
    + intros kv Hkv. vm_compute in Hkv.
      repeat (apply elem_of_cons in Hkv as [->|Hkv]; [by vm_compute|]).
      by apply elem_of_nil in Hkv.
    + split; [exact Hr|]. split; apply Hval; by vm_compute.
Defined.

(** ** The limit on the length of a value *)

Lemma digits_of_length (fuel : nat) (n : Z) (acc : sds) :
  (length (digits_of fuel n acc) ≤ fuel + length acc)%nat.
Proof.
  revert n acc. induction fuel as [|f IH]; intros n acc; cbn [digits_of].
  - lia.
  - destruct (n <? 10); [simpl; lia|].
    etrans; [apply IH|]. simpl. lia.
Qed.

Lemma ll2string_length (v : Z) : sdslen (ll2string v) ≤ 21.
Proof.
  unfold ll2string, sdslen.
  pose proof (digits_of_length 20 v []) as H1.
  pose proof (digits_of_length 20 (- v) []) as H2.
  destruct (v <? 0); cbn [length] in *; lia.
Qed.

Lemma text_of_bounded (s : state) (l : loc) (o : robj) :
  raw_bounded s → heap s !! l = Some o →
  sdslen (text_of o) ≤ 512 * 1024 * 1024.
Proof.
  intros Hb Hl. specialize (Hb l o Hl). cbn beta in Hb.
  unfold text_of, ptr_sds in *. destruct (body o); [done| |done].
  pose proof (ll2string_length n). lia.
Qed.

#[global] Instance bound_kept_preorder : PreOrder bound_kept.
Proof.
  split; [intros s H; exact H|].
  intros s1 s2 s3 H12 H23 H. exact (H23 (H12 H)).
Qed.

Lemma raw_bounded_heap (s s' : state) :
  heap s' = heap s → raw_bounded s → raw_bounded s'.
Proof. unfold raw_bounded. intros -> H. exact H. Qed.

Lemma raw_bounded_bodies (s : state) (f : robj → robj) (l : loc) :
  (∀ o, body (f o) = body o) →
  raw_bounded s → raw_bounded (set_heap (alter f l) s).
Proof.
  intros Hf Hb i o. cbn [heap set_heap].
  destruct (decide (i = l)) as [->|Hne].
  - rewrite lookup_alter_eq. destruct (heap s !! l) as [o0|] eqn:E; [|done].
    intros [= <-]. specialize (Hb l o0 E). cbn beta in *.
    unfold ptr_sds in *. by rewrite Hf.
  - rewrite lookup_alter_ne by done. apply Hb.
Qed.

Lemma raw_bounded_write (s : state) (l : loc) (b : objval) :
  sdslen (ptr_sds (mkObj 1 b)) ≤ 512 * 1024 * 1024 →
  raw_bounded s → raw_bounded (exec (set_ptr l b) s).
Proof.
  intros Hlen Hb i o. rewrite exec_set_ptr. cbn [heap set_heap].
  destruct (decide (i = l)) as [->|Hne].
  - rewrite lookup_alter_eq. destruct (heap s !! l) as [o0|] eqn:E; [|done].
    by intros [= <-].
  - rewrite lookup_alter_ne by done. apply Hb.
Qed.

Lemma raw_bounded_alloc (s : state) (b : objval) :
  sdslen (ptr_sds (mkObj 1 b)) ≤ 512 * 1024 * 1024 →
  raw_bounded s → raw_bounded (exec (createObject b) s).
Proof.
  intros Hlen Hb. rewrite exec_createObject. unfold raw_bounded.
  cbn [heap set_heap]. apply map_Forall_insert_2; [exact Hlen|exact Hb].
Qed.

Lemma preserves_bound_heap {A} (m : M A) :
  preserves (same heap) m → preserves bound_kept m.
Proof. intros Hm s Hb. exact (raw_bounded_heap s _ (Hm s) Hb). Qed.

Lemma preserves_bound_incrRefCount (l : loc) :
  preserves bound_kept (incrRefCount l).
Proof.
  intros s Hb. rewrite exec_incrRefCount. apply raw_bounded_bodies; [done|exact Hb].
Qed.

Lemma preserves_bound_decrRefCount (l : loc) :
  preserves bound_kept (decrRefCount l).
Proof.
  intros s Hb. rewrite exec_decrRefCount. apply raw_bounded_bodies; [done|exact Hb].
Qed.

Lemma preserves_bound_createInt (v : Z) :
  preserves bound_kept (createObject (IntVal v)).
Proof. intros s Hb. apply raw_bounded_alloc; [done|exact Hb]. Qed.

Lemma preserves_bound_createString (t : sds) :
  sdslen t ≤ 512 * 1024 * 1024 → preserves bound_kept (createStringObject t).
Proof. intros Ht s Hb. apply raw_bounded_alloc; [exact Ht|exact Hb]. Qed.

Lemma preserves_bound_createSET :
  preserves bound_kept (createStringObject (str "SET")).
Proof. by apply preserves_bound_createString. Qed.

Lemma preserves_bound_createLongLong (v : Z) :
  preserves bound_kept (createStringObjectFromLongLong v).
Proof.
  unfold createStringObjectFromLongLong. destruct (_ && _).
  - apply preserves_bound_createInt.
  - apply preserves_bound_createString. pose proof (ll2string_length v). lia.
Qed.

Lemma preserves_bound_set_int (l : loc) (v : Z) :
  preserves bound_kept (set_ptr l (IntVal v)).
Proof. intros s Hb. apply raw_bounded_write; [done|exact Hb]. Qed.

Lemma preserves_bound_set_dict (f : gmap sds loc → gmap sds loc) :
  preserves bound_kept (modify (set_dict f)).
Proof. intros s Hb. exact (raw_bounded_heap s _ eq_refl Hb). Qed.

Lemma preserves_bound_set_expires (f : gmap sds Z → gmap sds Z) :
  preserves bound_kept (modify (set_expires f)).
Proof. intros s Hb. exact (raw_bounded_heap s _ eq_refl Hb). Qed.

Lemma preserves_bound_set_events (f : list event → list event) :
  preserves bound_kept (modify (set_events f)).
Proof. intros s Hb. exact (raw_bounded_heap s _ eq_refl Hb). Qed.

Lemma preserves_bound_set_reply (f : list reply_t → list reply_t) :
  preserves bound_kept (modify (set_reply f)).
Proof. intros s Hb. exact (raw_bounded_heap s _ eq_refl Hb). Qed.

Lemma preserves_bound_set_argv (f : list loc → list loc) :
  preserves bound_kept (modify (set_argv f)).
Proof. intros s Hb. exact (raw_bounded_heap s _ eq_refl Hb). Qed.

Lemma preserves_bound_set_dirty (f : Z → Z) :
  preserves bound_kept (modify (set_dirty f)).
Proof. intros s Hb. exact (raw_bounded_heap s _ eq_refl Hb). Qed.

Lemma preserves_bound_set_cmd (f : string → string) :
  preserves bound_kept (modify (set_cmd f)).
Proof. intros s Hb. exact (raw_bounded_heap s _ eq_refl Hb). Qed.

#[global] Hint Resolve preserves_bound_incrRefCount
  preserves_bound_decrRefCount preserves_bound_createInt
  preserves_bound_createSET preserves_bound_createLongLong
  preserves_bound_set_int preserves_bound_set_dict
  preserves_bound_set_expires preserves_bound_set_events
  preserves_bound_set_reply preserves_bound_set_argv
  preserves_bound_set_dirty preserves_bound_set_cmd : frame.

Lemma preserves_bound_unshare (key o : loc) :
  preserves bound_kept (dbUnshareStringValue key o).
Proof.
  intros s Hb. unfold dbUnshareStringValue.
  rewrite exec_bind, exec_getobj, eval_getobj.
  assert (sdslen (text_of (default (mkObj 0 (OtherVal 0)) (heap s !! o)))
          ≤ 512 * 1024 * 1024) as Hlen.
  { destruct (heap s !! o) as [ob|] eqn:E; [exact (text_of_bounded s o ob Hb E)|].
    done. }
  destruct (_ || _); [|exact Hb].
  assert (preserves bound_kept
            (n ← createStringObject
                   (text_of (default (mkObj 0 (OtherVal 0)) (heap s !! o)));
             dbOverwrite key n;; mret n)) as Hp.
  { apply preserves_bind; [apply _|apply preserves_bound_createString, Hlen|].
    intros n. frame. }
  exact (Hp s Hb).
Qed.

#[global] Hint Resolve preserves_bound_unshare : frame.

Lemma setCommand_options_bound rest flags expire u :
  preserves bound_kept (setCommand_options rest flags expire u).
Proof.
  apply setCommand_options_preserves; [apply _|].
  intros f s Hb. exact (raw_bounded_heap s _ eq_refl Hb).
Qed.

Lemma mset_busykeys_bound js b : preserves bound_kept (mset_busykeys js b).
Proof. apply mset_busykeys_preserves; apply _. Qed.

#[global] Hint Resolve setCommand_options_bound mset_busykeys_bound : frame.

Lemma set_bound : preserves bound_kept setCommand.
Proof. frame. Qed.

Lemma setnx_bound : preserves bound_kept setnxCommand.
Proof. frame. Qed.

Lemma setex_bound : preserves bound_kept setexCommand.
Proof. frame. Qed.

Lemma psetex_bound : preserves bound_kept psetexCommand.
Proof. frame. Qed.

Lemma get_bound : preserves bound_kept getCommand.
Proof. frame. Qed.

Lemma getset_bound : preserves bound_kept getsetCommand.
Proof. frame. Qed.

Lemma getrange_bound : preserves bound_kept getrangeCommand.
Proof. frame. Qed.

Lemma mget_bound : preserves bound_kept mgetCommand.
Proof. frame. Qed.

Lemma mset_bound nx : preserves bound_kept (msetGenericCommand nx).
Proof. frame. Qed.

Lemma strlen_bound : preserves bound_kept strlenCommand.
Proof. frame. Qed.

Lemma incrDecr_bound (d : Z) : preserves bound_kept (incrDecrCommand d).
Proof. frame. Qed.

Lemma incrby_bound : preserves bound_kept incrbyCommand.
Proof. frame. Qed.

Lemma decrby_bound : preserves bound_kept decrbyCommand.
Proof. frame. Qed.

Lemma incrbyfloat_bound `{LongDouble} :
  (∀ x, sdslen (ld2string x) ≤ 512 * 1024 * 1024) →
  preserves bound_kept incrbyfloatCommand.
Proof.
  intros Hld.
  assert (∀ x, preserves bound_kept (createStringObjectFromLongDouble x)) as Hc.
  { intros x. by apply preserves_bound_createString. }
  frame.
Qed.

(** *** SETRANGE and APPEND *)

Ltac bound_frame Hb :=
  lazymatch goal with
  | |- raw_bounded (exec ?m ?s) =>
      let Hp := fresh in
      assert (preserves bound_kept m) as Hp by frame; exact (Hp s Hb)
  end.

Lemma bound_then {A B} (m : M A) (f : A → M B) (s : state) :
  raw_bounded (exec m s) → (∀ a, preserves bound_kept (f a)) →
  raw_bounded (exec (m ≫= f) s).
Proof. intros Hm Hf. rewrite exec_bind. exact (Hf _ _ Hm). Qed.

Lemma ptr_bounded (s : state) (l : loc) :
  raw_bounded s →
  sdslen (ptr_sds (default (mkObj 0 (OtherVal 0)) (heap s !! l)))
  ≤ 512 * 1024 * 1024.
Proof.
  intros Hb. destruct (heap s !! l) as [o|] eqn:E; [|done].
  exact (Hb l o E).
Qed.

Lemma text_bounded (s : state) (l : loc) :
  raw_bounded s →
  sdslen (text_of (default (mkObj 0 (OtherVal 0)) (heap s !! l)))
  ≤ 512 * 1024 * 1024.
Proof.
  intros Hb. destruct (heap s !! l) as [o|] eqn:E; [|done].
  exact (text_of_bounded s l o Hb E).
Qed.

Lemma exec_getLongFromObjectOrReply_any (o : option loc) (s : state) :
  exec (getLongFromObjectOrReply o) s
  = match eval (getLongFromObjectOrReply o) s with
    | Some _ => s
    | None => set_reply (λ r, r ++ [NotANumber]) s
    end.
Proof.
  unfold getLongFromObjectOrReply.
  rewrite exec_bind, eval_bind, exec_getLongLongFromObject.
  destruct (eval (getLongLongFromObject o) s) as [n|]; [|done].
  by destruct (_ && _).
Qed.

Lemma exec_checkType_any (o : robj) (s : state) :
  exec (checkType o OBJ_STRING) s
  = if eval (checkType o OBJ_STRING) s
    then set_reply (λ r, r ++ [WrongType]) s else s.
Proof.
  destruct (decide (type o = OBJ_STRING)) as [Ht|Ht].
  - by rewrite eval_checkType_string, exec_checkType_string.
  - by rewrite eval_checkType_other, exec_checkType_other.
Qed.

Lemma setrange_write_bound (s : state) (key o : loc) (offset : Z)
    (value : sds) :
  0 ≤ offset → offset + sdslen value ≤ 512 * 1024 * 1024 →
  raw_bounded s →
  raw_bounded (exec (setrange_write key o offset value) s).
Proof.
  intros Ho Hlen Hb. unfold setrange_write.
  apply bound_then; [|intros; frame].
  destruct (_ >? _); [|exact Hb].
  rewrite exec_bind, exec_getobj, eval_getobj. cbv zeta.
  apply bound_then; [|intros; frame].
  apply raw_bounded_write; [|exact Hb].
  cbn [ptr_sds body].
  change (memcpy_at _ offset value)
    with (setrange_bytes
            (ptr_sds (default (mkObj 0 (OtherVal 0)) (heap s !! o)))
            offset value).
  rewrite setrange_bytes_length by lia.
  pose proof (ptr_bounded s o Hb). lia.
Qed.

Lemma setrange_bound (s : state) :
  raw_bounded s → no_wrap s → raw_bounded (exec setrangeCommand s).
Proof.
  intros Hb Hw. unfold no_wrap, setrange_offset, setrange_value in Hw.
  rewrite !eval_bind, !exec_arg, !eval_arg, eval_getobj in Hw.
  unfold setrangeCommand.
  rewrite exec_bind, exec_arg, eval_arg, exec_bind, exec_getobj, eval_getobj.
  cbv zeta.
  rewrite exec_bind, exec_arg, eval_arg, exec_bind.
  rewrite exec_getLongFromObjectOrReply_any.
  destruct (eval (getLongFromObjectOrReply _) s) as [offset|];
    [|exact (raw_bounded_heap s _ eq_refl Hb)].
  specialize (Hw offset eq_refl).
  set (value := ptr_sds _) in *.
  pose proof (sdslen_nonneg value) as Hv.
  destruct (Z.ltb_spec offset 0) as [|Ho];
    [exact (raw_bounded_heap s _ eq_refl Hb)|].
  pose proof (size_checked_id offset value Ho Hw) as Hsize.
  unfold setrange_total in Hsize.
  assert (to_size_t (offset + sdslen value) = offset + sdslen value) as Htot.
  { apply (setrange_total_id offset value Ho). unfold LLONG_MAX in Hw. lia. }
  rewrite exec_bind, exec_arg, eval_arg, exec_bind, exec_lookupKeyWrite.
  destruct (eval (lookupKeyWrite _) s) as [l|].
  - rewrite exec_bind, exec_getobj, exec_bind, exec_checkType_any.
    destruct (eval (checkType _ _) s);
      [exact (raw_bounded_heap s _ eq_refl Hb)|].
    cbv zeta.
    destruct (_ =? _); [exact (raw_bounded_heap s _ eq_refl Hb)|].
    rewrite exec_bind, eval_checkStringLength, exec_checkStringLength, Hsize.
    destruct (Z.gtb_spec (offset + sdslen value) (512 * 1024 * 1024));
      cbn [negb].
    { rewrite bool_decide_eq_true_2 by done.
      exact (raw_bounded_heap s _ eq_refl Hb). }
    rewrite bool_decide_eq_false_2 by (unfold C_OK; tauto).
    rewrite exec_bind. apply setrange_write_bound; [done..|].
    exact (preserves_bound_unshare _ _ s Hb).
  - destruct (_ =? _); [exact (raw_bounded_heap s _ eq_refl Hb)|].
    rewrite exec_bind, eval_checkStringLength, exec_checkStringLength, Hsize.
    destruct (Z.gtb_spec (offset + sdslen value) (512 * 1024 * 1024));
      cbn [negb].
    { rewrite bool_decide_eq_true_2 by done.
      exact (raw_bounded_heap s _ eq_refl Hb). }
    rewrite bool_decide_eq_false_2 by (unfold C_OK; tauto).
    rewrite exec_bind, exec_bind. apply setrange_write_bound; [done..|].
    apply preserves_bound_set_dict.
    apply raw_bounded_alloc; [|exact Hb].
    cbn [ptr_sds body]. rewrite Htot. unfold sdsnewlen_zero, sdslen in *.
    rewrite length_replicate. lia.
Qed.

Lemma held_string (s : state) (l : loc) :
  type (default (mkObj 0 (OtherVal 0)) (heap s !! l)) = OBJ_STRING →
  heap s !! l = Some (default (mkObj 0 (OtherVal 0)) (heap s !! l)).
Proof. by destruct (heap s !! l). Qed.

(** The buffer [dbUnshareStringValue] returns holds the bytes of the
    value. *)
Lemma unshare_text (s : state) (key l : loc) (o : robj) :
  heap s !! l = Some o →
  ptr_sds (default (mkObj 0 (OtherVal 0))
             (heap (exec (dbUnshareStringValue key l) s)
                !! eval (dbUnshareStringValue key l) s))
  = text_of o.
Proof.
  intros Hl.
  destruct (decide (refcount o = 1 ∧ encoding o = OBJ_ENCODING_RAW))
    as [[Hrc Henc]|Hex].
  - destruct (unshare_owned s key l o Hl Hrc Henc) as [-> ->].
    rewrite Hl. by apply raw_text.
  - destruct (unshare_shared s key l o Hl Hex) as [-> ->].
    rewrite exec_dbOverwrite. cbn [dict heap set_heap set_dict].
    destruct (dict s !! _) as [old|]; cbn [heap set_heap set_dict].
    + destruct (decide (old = fresh_loc (heap s))) as [->|Hne].
      * by rewrite lookup_alter_eq, lookup_insert_eq.
      * by rewrite lookup_alter_ne, lookup_insert_eq.
    + by rewrite lookup_insert_eq.
Qed.

Lemma append_total (s : state) (l a : loc) :
  raw_bounded s →
  let ob := default (mkObj 0 (OtherVal 0)) (heap s !! l) in
  let ao := default (mkObj 0 (OtherVal 0)) (heap s !! a) in
  to_ll (to_size_t (stringObjectLen ob + sdslen (ptr_sds ao)))
  = stringObjectLen ob + sdslen (ptr_sds ao).
Proof.
  intros Hb ob ao. pose proof (text_bounded s l Hb) as H1.
  pose proof (ptr_bounded s a Hb) as H2. fold ob in H1. fold ao in H2.
  unfold stringObjectLen.
  pose proof (sdslen_nonneg (text_of ob)). pose proof (sdslen_nonneg (ptr_sds ao)).
  unfold to_size_t. rewrite Z.mod_small by lia.
  apply to_ll_id. unfold LLONG_MIN, LLONG_MAX. lia.
Qed.

Lemma append_bound (s : state) :
  raw_bounded s → raw_bounded (exec appendCommand s).
Proof.
  intros Hb. unfold appendCommand.
  rewrite exec_bind, exec_arg, eval_arg, exec_bind, exec_lookupKeyWrite.
  apply bound_then; [|intros [t|]; frame].
  destruct (eval (lookupKeyWrite _) s) as [l|]; [|bound_frame Hb].
  rewrite exec_bind, exec_getobj, eval_getobj, exec_bind, exec_checkType_any.
  destruct (eval (checkType _ _) s) eqn:Hty;
    [exact (raw_bounded_heap s _ eq_refl Hb)|].
  assert (type (default (mkObj 0 (OtherVal 0)) (heap s !! l)) = OBJ_STRING)
    as Ht.
  { destruct (decide (type (default (mkObj 0 (OtherVal 0)) (heap s !! l))
                      = OBJ_STRING)) as [|Hne]; [done|].
    by rewrite eval_checkType_other in Hty. }
  rewrite exec_bind, exec_arg, eval_arg, exec_bind, exec_getobj, eval_getobj.
  cbv zeta.
  rewrite exec_bind, eval_checkStringLength, exec_checkStringLength.
  rewrite (append_total s l _ Hb).
  destruct (Z.gtb_spec
              (stringObjectLen (default (mkObj 0 (OtherVal 0)) (heap s !! l))
               + sdslen (ptr_sds (default (mkObj 0 (OtherVal 0))
                                    (heap s !! default 1%positive
                                                 (argv s !! 2%nat)))))
              (512 * 1024 * 1024)) as [|Hle]; cbn [negb].
  { rewrite bool_decide_eq_true_2 by done.
    exact (raw_bounded_heap s _ eq_refl Hb). }
  rewrite bool_decide_eq_false_2 by (unfold C_OK; tauto).
  rewrite exec_bind, exec_bind, exec_getobj, eval_getobj.
  apply bound_then; [|intros; frame].
  apply raw_bounded_write; [|exact (preserves_bound_unshare _ _ s Hb)].
  cbn [ptr_sds body].
  rewrite (unshare_text s _ l _ (held_string s l Ht)).
  unfold sdscatlen, stringObjectLen, sdslen in *. rewrite length_app. lia.
Qed.

Lemma run_bound `{LongDouble} (c : command) (s : state) :
  raw_bounded s →
  (c = SETRANGE → no_wrap s) →
  (c = INCRBYFLOAT → ∀ x, sdslen (ld2string x) ≤ 512 * 1024 * 1024) →
  raw_bounded (exec (run c) s).
Proof.
  intros Hb Hw Hld. destruct c; cbn [run].
  - exact (set_bound s Hb).
  - exact (setnx_bound s Hb).
  - exact (setex_bound s Hb).
  - exact (psetex_bound s Hb).
  - exact (get_bound s Hb).
  - exact (getset_bound s Hb).
  - exact (setrange_bound s Hb (Hw eq_refl)).
  - exact (getrange_bound s Hb).
  - exact (mget_bound s Hb).
  - exact (mset_bound false s Hb).
  - exact (mset_bound true s Hb).
  - exact (incrDecr_bound 1 s Hb).
  - exact (incrDecr_bound (-1) s Hb).
  - exact (incrby_bound s Hb).
  - exact (decrby_bound s Hb).
  - exact (incrbyfloat_bound (Hld eq_refl) s Hb).
  - exact (append_bound s Hb).
  - exact (strlen_bound s Hb).
Qed.

Lemma raw_bounded_stored (s : state) : raw_bounded s → stored_bounded s.
Proof.
  intros Hb k l o t _ Hl Ht. specialize (Hb l o Hl). cbn beta in Hb.
  unfold ptr_sds in Hb. by rewrite Ht in Hb.
Qed.

Lemma setrange_args_read (s : state) (offset : Z) (value : sds) :
  setrange_args s offset value →
  setrange_offset s = Some offset ∧ setrange_value s = value.
Proof.
  intros Ha. pose proof Ha as (H2 & a3 & vo & Ha3 & Hvo & Hval).
  unfold setrange_offset, setrange_value.
  rewrite !eval_bind, !exec_arg.
  rewrite (eval_getLongFromObjectOrReply s 2 offset) by done.
  by rewrite eval_arg, eval_getobj, Ha3; cbn [default from_option id]; rewrite Hvo.
Qed.

Lemma setrange_rejects (s : state) (k : sds) (offset : Z) (value : sds) :
  no_wrap s → setrange_args s offset value → 0 ≤ offset → value ≠ [] →
  offset + sdslen value > 512 * 1024 * 1024 →
  key_absent s k ∨ (∃ l o, key_holds s k l o ∧ type o = OBJ_STRING) →
  exec setrangeCommand s = set_reply (λ r, r ++ [StringTooLong]) s.
Proof.
  intros Hw Ha Ho Hv Hlong Hk.
  destruct (setrange_args_read s offset value Ha) as [Hoff Hval].
  specialize (Hw offset Hoff). rewrite Hval in Hw.
  pose proof (size_checked_id offset value Ho Hw) as Hsize.
  assert (sdslen value ≠ 0) as Hnz by (by rewrite sdslen_zero).
  destruct Hk as [Hk|(l & o & Hk & Ht)].
  - pose proof (setrange_absent s k offset value Ha Ho Hk) as Hp.
    cbv zeta in Hp. rewrite Hsize in Hp.
    destruct (Z.eqb_spec (sdslen value) 0); [done|].
    destruct (Z.gtb_spec (offset + sdslen value) (512 * 1024 * 1024)); [|lia].
    exact Hp.
  - pose proof (setrange_present s k l o offset value Ha Ho Hk) as Hp.
    cbv zeta in Hp. rewrite Hsize in Hp.
    rewrite (bool_decide_eq_false_2 (type o ≠ OBJ_STRING)) in Hp by tauto.
    destruct (Z.eqb_spec (sdslen value) 0); [done|].
    destruct (Z.gtb_spec (offset + sdslen value) (512 * 1024 * 1024)); [|lia].
    exact Hp.
Qed.

Lemma append_rejects (s : state) (k : sds) (l : loc) (o : robj) (data : sds) :
  raw_bounded s → key_holds s k l o → type o = OBJ_STRING →
  append_arg s data →
  stringObjectLen o + sdslen data > 512 * 1024 * 1024 →
  exec appendCommand s = set_reply (λ r, r ++ [StringTooLong]) s.
Proof.
  intros Hb (key & ko & Hkey & Hko & Hname & Hdk & Hl) Ht
    (a & ao & Ha & Hao & Hdata) Hlong.
  pose proof (append_total s l a Hb) as Htot. cbv zeta in Htot.
  rewrite Hl, Hao in Htot. cbn [default from_option id] in Htot.
  unfold appendCommand.
  rewrite exec_bind, exec_arg, eval_arg, Hkey. cbn [default from_option id].
  rewrite exec_bind, exec_lookupKeyWrite, eval_lookupKeyWrite, eval_keyname,
    eval_getobj, Hko. cbn [default from_option id]. rewrite Hname, Hdk.
  rewrite exec_bind.
  rewrite ?eval_bind, ?exec_bind, ?exec_getobj, ?eval_getobj, !Hl.
  cbn [default from_option id].
  rewrite ?eval_checkType_string, ?exec_checkType_string by done.
  rewrite ?eval_bind, ?exec_bind, ?exec_arg, ?eval_arg, !Ha.
  cbn [default from_option id].
  rewrite ?eval_bind, ?exec_bind, ?exec_getobj, ?eval_getobj, !Hao.
  cbn [default from_option id]. cbv zeta.
  rewrite ?eval_bind, ?exec_bind, ?eval_checkStringLength,
    ?exec_checkStringLength.
  rewrite !Htot, !Hdata.
  destruct (Z.gtb_spec (stringObjectLen o + sdslen data) (512 * 1024 * 1024));
    [|lia].
  cbn [negb]. by rewrite !bool_decide_eq_true_2.
Qed.

(** X2: when every byte buffer of the heap (the
    stored values and the arguments of the command) is at most 512 MB
    long before a command, the sum of SETRANGE's offset and length fits a
    [long long], and the text of INCRBYFLOAT's number is within the limit,
    then every byte buffer, and so every stored value, is at most 512 MB
    long after the command.  SETRANGE, and APPEND on a key that is
    there, check the length of the result: a result that is too long is
    answered with the error for it, and nothing else changes. *)
Theorem length_limit_kept `{LongDouble} (c : command) (s : state) :
  raw_bounded s →
  (c = SETRANGE → no_wrap s) →
  (c = INCRBYFLOAT → ∀ x, sdslen (ld2string x) ≤ 512 * 1024 * 1024) →
  raw_bounded (exec (run c) s)
  ∧ stored_bounded (exec (run c) s)
  ∧ (c = SETRANGE →
     ∀ k offset value,
       setrange_args s offset value → 0 ≤ offset → value ≠ [] →
       offset + sdslen value > 512 * 1024 * 1024 →
       key_absent s k ∨ (∃ l o, key_holds s k l o ∧ type o = OBJ_STRING) →
       exec (run c) s = set_reply (λ r, r ++ [StringTooLong]) s)
  ∧ (c = APPEND →
     ∀ k l o data,
       key_holds s k l o → type o = OBJ_STRING → append_arg s data →
       stringObjectLen o + sdslen data > 512 * 1024 * 1024 →
       exec (run c) s = set_reply (λ r, r ++ [StringTooLong]) s).
Proof.
  intros Hb Hw Hld.
  pose proof (run_bound c s Hb Hw Hld) as Hb'.
  split; [exact Hb'|]. split; [exact (raw_bounded_stored _ Hb')|]. split.
  - intros -> k offset value Ha Ho Hv Hlong Hk. cbn [run].
    exact (setrange_rejects s k offset value (Hw eq_refl) Ha Ho Hv Hlong Hk).
  - intros -> k l o data Hk Ht Ha Hlong. cbn [run].
    exact (append_rejects s k l o data Hb Hk Ht Ha Hlong).
Qed.

Lemma raw_bounded_limit_state : raw_bounded setrange_limit_state.
Proof.
  unfold raw_bounded. apply (bool_decide_unpack _). vm_compute. exact I.
Qed.

Lemma no_wrap_limit_state : no_wrap setrange_limit_state.
Proof.
  intros offset Hoff. vm_compute in Hoff. injection Hoff as <-.
  vm_compute. discriminate.
Qed.

Lemma length_limit_kept_witness :
  exec setrangeCommand setrange_limit_state
  = set_reply (λ r, r ++ [StringTooLong]) setrange_limit_state
  ∧ stored_bounded (exec setrangeCommand setrange_limit_state).
Proof.
  destruct (length_limit_kept (H := decimal_long_double) SETRANGE
              setrange_limit_state)
    as (_ & Hstored & Hreject & _).
  - exact raw_bounded_limit_state.
  - intros _. exact no_wrap_limit_state.
  - discriminate.
  - split; [|exact Hstored].
    apply (Hreject eq_refl (str "k") 536870912 (str "a")).
    + split.
      * exists 3%positive, (mkObj 1 (RawVal (str "536870912"))).
        by vm_compute.
      * exists 4%positive, (mkObj 1 (RawVal (str "a"))). by vm_compute.
    + lia.
    + discriminate.
    + vm_compute. reflexivity.
    + left. exists 2%positive, (mkObj 1 (RawVal (str "k"))). by vm_compute.
Defined.

(** *** Commands that do not check the length *)

Lemma set_stores_unchecked (r : sds) :
  reply (exec setCommand
           (with_args "set" [str "SET"; str "k"; x00 :: x00 :: r] empty_state))
  = [RShared shared_ok]
  ∧ value_of
      (exec setCommand
         (with_args "set" [str "SET"; str "k"; x00 :: x00 :: r] empty_state))
      (str "k")
    = Some (x00 :: x00 :: r).
Proof. split; vm_compute; reflexivity. Qed.

Lemma append_stores_unchecked (r : sds) :
  reply (exec appendCommand
           (with_args "append" [str "APPEND"; str "k"; x00 :: x00 :: r]
              empty_state))
  = [RLongLong (sdslen (x00 :: x00 :: r))]
  ∧ value_of
      (exec appendCommand
         (with_args "append" [str "APPEND"; str "k"; x00 :: x00 :: r]
            empty_state))
      (str "k")
    = Some (x00 :: x00 :: r).
Proof. split; vm_compute; reflexivity. Qed.

Lemma replicate_two (z : Z) :
  2 ≤ z →
  replicate (Z.to_nat z) x00
  = x00 :: x00 :: replicate (Z.to_nat (z - 2)) x00.
Proof.
  intros Hz. replace z with (Z.succ (Z.succ (z - 2))) at 1 by lia.
  rewrite !Z2Nat.inj_succ by lia. reflexivity.
Qed.

Lemma long_value_bytes :
  long_value
  = x00 :: x00 :: replicate (Z.to_nat (512 * 1024 * 1024 + 1 - 2)) x00.
Proof. unfold long_value. apply replicate_two. lia. Qed.

Lemma long_value_length : sdslen long_value = 512 * 1024 * 1024 + 1.
Proof. unfold long_value, sdslen. rewrite length_replicate. lia. Qed.

(** SET stores a value of one byte more than 512 MB and answers OK. *)
Lemma set_stores_longer_value :
  sdslen long_value > 512 * 1024 * 1024
  ∧ reply (exec setCommand set_long_state) = [RShared shared_ok]
  ∧ reply (exec setCommand set_long_state) ≠ [StringTooLong]
  ∧ value_of (exec setCommand set_long_state) (str "k") = Some long_value.
Proof.
  split; [rewrite long_value_length; lia|].
  unfold set_long_state. rewrite long_value_bytes.
  destruct (set_stores_unchecked
              (replicate (Z.to_nat (512 * 1024 * 1024 + 1 - 2)) x00)) as [Hr Hv].
  split; [exact Hr|]. split; [|exact Hv]. rewrite Hr. discriminate.
Qed.

(** APPEND to a key that is not there stores a value of one byte more
    than 512 MB and answers with its length. *)
Lemma append_stores_longer_value :
  reply (exec appendCommand append_long_state)
  = [RLongLong (512 * 1024 * 1024 + 1)]
  ∧ value_of (exec appendCommand append_long_state) (str "k")
    = Some long_value.
Proof.
  unfold append_long_state.
  pose proof long_value_length as Hlen. rewrite long_value_bytes in *.
  destruct (append_stores_unchecked
              (replicate (Z.to_nat (512 * 1024 * 1024 + 1 - 2)) x00)) as [Hr Hv].
  split; [|exact Hv]. rewrite Hr, Hlen. reflexivity.
Qed.

(** ** MSET *)

Lemma mset_loop_dirty (js : list nat) (s : state) :
  dirty (exec (forM_ js mset_assign) s) = dirty s.
Proof.
  assert (preserves (same dirty) (forM_ js mset_assign)) as Hp by frame.
  apply Hp.
Qed.

Lemma pairs_count (n : nat) :
  Z.odd (Z.of_nat n) = true →
  (Z.of_nat n - 1) / 2 = Z.of_nat (length (pair_indices n)).
Proof.
  intros Hodd. unfold pair_indices. rewrite length_fmap, length_seq.
  rewrite Nat2Z.inj_div. rewrite Zodd_mod in Hodd. apply Z.eqb_eq in Hodd.
  change (Z.of_nat 2) with 2.
  pose proof (Z.div_mod (Z.of_nat n) 2 ltac:(lia)) as Hdm.
  symmetry. apply (Z.div_unique _ _ _ 0); lia.
Qed.

(** X3: MSET with whole pairs stores every pair, one after the
    other, so that each name holds the value of its last pair; no other
    key is touched, no object loses its content, the counter of changes
    grows by the number of pairs, and the answer is OK. *)
Theorem mset_assigns_every_pair (s : state) :
  Z.odd (Z.of_nat (length (argv s))) = true →
  args_raw s → pool_ok s →
  reply (exec msetCommand s) = reply s ++ [RShared shared_ok]
  ∧ dirty (exec msetCommand s) = dirty s + Z.of_nat (length (batch s))
  ∧ (∀ kv, kv ∈ batch s → is_Some (assigned (batch s) !! kv.1))
  ∧ (∀ k v, assigned (batch s) !! k = Some v →
            value_of (exec msetCommand s) k = Some v)
  ∧ (∀ k, assigned (batch s) !! k = None →
          dict (exec msetCommand s) !! k = dict s !! k)
  ∧ bodies_kept s (exec msetCommand s).
Proof.
  intros Hodd Hraw Hpool.
  assert ((Z.of_nat (length (argv s)) mod 2 =? 0) = false) as Hmod.
  { apply Z.eqb_neq. rewrite Zodd_mod in Hodd. apply Z.eqb_eq in Hodd. lia. }
  unfold msetCommand, msetGenericCommand.
  rewrite exec_bind, eval_argc, exec_argc, Hmod.
  rewrite exec_bind, eval_gets, exec_gets, exec_bind, eval_ret, exec_ret.
  rewrite Z.eqb_refl. cbn [negb].
  rewrite !exec_bind, exec_addReply, exec_modify.
  destruct (pair_indices_spec (length (argv s)) Hodd) as [Hnd Hall].
  destruct (mset_loop_inv s Hraw Hpool (pair_indices (length (argv s))) s ∅
              Hnd Hall) as (Hb & _ & Hr & _ & Hval & Hnone).
  { repeat split; done. }
  fold (batch s) in Hval, Hnone. fold (assigned (batch s)) in Hval, Hnone.
  cbn [reply dirty dict heap set_reply set_dirty].
  rewrite Hr, mset_loop_dirty, (pairs_count _ Hodd).
  split; [done|]. split.
  { unfold batch. by rewrite length_fmap. }
  split; [apply assigned_covers|].
  split; [|split; [done|]].
  - intros k v Hk. apply Hval in Hk. revert Hk. unfold value_of.
    by cbn [dict heap set_reply set_dirty].
  - etrans; [apply Hb|]. by apply bodies_kept_heap.
Qed.

Lemma mset_assigns_every_pair_witness :
  reply (exec msetCommand mset_twice_state) = [RShared shared_ok]
  ∧ dirty (exec msetCommand mset_twice_state) = 3
  ∧ value_of (exec msetCommand mset_twice_state) (str "a") = Some (str "3")
  ∧ value_of (exec msetCommand mset_twice_state) (str "b") = Some (str "2").
Proof.
  destruct (mset_assigns_every_pair mset_twice_state) as (Hr & Hd & _ & Hval & _).
  - reflexivity.
  - intros a Ha. vm_compute in Ha.
    repeat (apply elem_of_cons in Ha as [->|Ha];
            [eexists _, _; by vm_compute|]).
    by apply elem_of_nil in Ha.
  - intros n p Hn. by vm_compute in Hn.
  - split; [exact Hr|]. split; [exact Hd|]. split; apply Hval; by vm_compute.
Defined.

(** ** Commands that read *)

#[global] Instance replies_only_preorder : PreOrder replies_only.
Proof.
  split.
  - intros s. exists []. destruct s as [h d e i di ms ev av cm rp].
    unfold set_reply. cbn. by rewrite app_nil_r.
  - intros s1 s2 s3 [r1 ->] [r2 ->]. exists (r1 ++ r2).
    destruct s1 as [h d e i di ms ev av cm rp]. unfold set_reply. cbn.
    by rewrite app_assoc.
Qed.

Lemma preserves_replies_addReply (r : reply_t) :
  preserves replies_only (addReply r).
Proof. intros s. by exists [r]. Qed.

#[global] Hint Resolve preserves_replies_addReply : frame.


Ltac key_lookup Hkey Hko Hname Hk :=
  autorewrite with mrun; rewrite ?Hkey; cbn [default from_option id];
  rewrite ?Hko; cbn [default from_option id]; rewrite ?Hname, ?Hk;
  autorewrite with mrun.

Lemma get_string (s : state) (k : sds) (l : loc) (o : robj) :
  key_holds s k l o → type o = OBJ_STRING →
  exec getCommand s = set_reply (λ r, r ++ [RBulk (text_of o)]) s.
Proof.
  unfold getCommand, getGenericCommand, lookupKeyReadOrReply.
  intros (key & ko & Hkey & Hko & Hname & Hk & Hl) Ht.
  key_lookup Hkey Hko Hname Hk. rewrite Hl. cbn [default from_option id].
  rewrite bool_decide_eq_false_2 by tauto. autorewrite with mrun.
  by rewrite Hl.
Qed.

(** X5: GET answers with the null reply for a key that is not
    there, with the wrong-type error for a value that is no string, and
    with the text of the value otherwise, the decimal text for a value
    kept as an integer; nothing but the reply changes. *)
Theorem get_answers (s : state) (k : sds) :
  (key_absent s k →
     exec getCommand s = set_reply (λ r, r ++ [RShared shared_nullbulk]) s)
  ∧ (∀ l o, key_holds s k l o → type o ≠ OBJ_STRING →
       exec getCommand s = set_reply (λ r, r ++ [WrongType]) s)
  ∧ (∀ l o, key_holds s k l o → type o = OBJ_STRING →
       exec getCommand s = set_reply (λ r, r ++ [RBulk (text_of o)]) s).
Proof.
  split; [|split; [|apply get_string]];
    unfold getCommand, getGenericCommand, lookupKeyReadOrReply.
  - intros (key & ko & Hkey & Hko & Hname & Hk).
    by key_lookup Hkey Hko Hname Hk.
  - intros l o (key & ko & Hkey & Hko & Hname & Hk & Hl) Ht.
    key_lookup Hkey Hko Hname Hk. rewrite Hl. cbn [default from_option id].
    rewrite bool_decide_eq_true_2 by done. by autorewrite with mrun.
Qed.

Lemma get_answers_witness :
  exec getCommand (with_args "get" [str "GET"; str "k"] empty_state)
  = set_reply (λ r, r ++ [RShared shared_nullbulk])
      (with_args "get" [str "GET"; str "k"] empty_state)
  ∧ reply (exec getCommand
             (with_args "get" [str "GET"; str "l"] other_type_state))
    = [WrongType]
  ∧ reply (exec getCommand
             (with_args "get" [str "GET"; str "k"] number_state))
    = [RBulk (str "12345")].
Proof.
  split; [|split].
  - apply (proj1 (get_answers _ (str "k"))).
    exists 2%positive, (mkObj 1 (RawVal (str "k"))). by vm_compute.
  - rewrite (proj1 (proj2 (get_answers _ (str "l"))) 1%positive
               (mkObj 1 (OtherVal 1))); [done| |done].
    exists 3%positive, (mkObj 1 (RawVal (str "l"))). by vm_compute.
  - rewrite (proj2 (proj2 (get_answers _ (str "k"))) 4%positive
               (mkObj 1 (IntVal 12345))); [done| |done].
    exists 6%positive, (mkObj 1 (RawVal (str "k"))). by vm_compute.
Defined.

Lemma strlen_string (s : state) (k : sds) (l : loc) (o : robj) :
  key_holds s k l o → type o = OBJ_STRING →
  exec strlenCommand s
  = set_reply (λ r, r ++ [RLongLong (sdslen (text_of o))]) s.
Proof.
  unfold strlenCommand, lookupKeyReadOrReply.
  intros (key & ko & Hkey & Hko & Hname & Hk & Hl) Ht.
  key_lookup Hkey Hko Hname Hk. rewrite Hl. cbn [default from_option id].
  by rewrite eval_checkType_string, exec_checkType_string.
Qed.

(** X6: STRLEN answers 0 for a key that is not there, with the
    wrong-type error for a value that is no string, and with the number of
    bytes of the text of the value otherwise, which for a value kept as an
    integer is the length of its decimal text; nothing but the reply
    changes. *)
Theorem strlen_answers (s : state) (k : sds) :
  (key_absent s k →
     exec strlenCommand s = set_reply (λ r, r ++ [RShared shared_czero]) s)
  ∧ (∀ l o, key_holds s k l o → type o ≠ OBJ_STRING →
       exec strlenCommand s = set_reply (λ r, r ++ [WrongType]) s)
  ∧ (∀ l o, key_holds s k l o → type o = OBJ_STRING →
       exec strlenCommand s
       = set_reply (λ r, r ++ [RLongLong (sdslen (text_of o))]) s).
Proof.
  split; [|split; [|apply strlen_string]];
    unfold strlenCommand, lookupKeyReadOrReply.
  - intros (key & ko & Hkey & Hko & Hname & Hk).
    by key_lookup Hkey Hko Hname Hk.
  - intros l o (key & ko & Hkey & Hko & Hname & Hk & Hl) Ht.
    key_lookup Hkey Hko Hname Hk. rewrite Hl. cbn [default from_option id].
    by rewrite eval_checkType_other, exec_checkType_other.
Qed.

Lemma strlen_answers_witness :
  reply (exec strlenCommand
           (with_args "strlen" [str "STRLEN"; str "k"] empty_state))
  = [RShared shared_czero]
  ∧ reply (exec strlenCommand
             (with_args "strlen" [str "STRLEN"; str "l"] other_type_state))
    = [WrongType]
  ∧ reply (exec strlenCommand
             (with_args "strlen" [str "STRLEN"; str "k"] number_state))
    = [RLongLong 5].
Proof.
  split; [|split].
  - rewrite (proj1 (strlen_answers _ (str "k"))); [done|].
    exists 2%positive, (mkObj 1 (RawVal (str "k"))). by vm_compute.
  - rewrite (proj1 (proj2 (strlen_answers _ (str "l"))) 1%positive
               (mkObj 1 (OtherVal 1))); [done| |done].
    exists 3%positive, (mkObj 1 (RawVal (str "l"))). by vm_compute.
  - rewrite (proj2 (proj2 (strlen_answers _ (str "k"))) 4%positive
               (mkObj 1 (IntVal 12345))); [done| |done].
    exists 6%positive, (mkObj 1 (RawVal (str "k"))). by vm_compute.
Defined.

Lemma eval_arg_not_number (s : state) (j : nat) :
  arg_not_number s j →
  eval (getLongLongFromObject (Some (eval (arg j) s))) s = None.
Proof.
  intros (a & ao & Ha & Hao & Hn). rewrite eval_arg, Ha.
  cbn [default from_option id]. by rewrite (eval_getLongLongFromObject a ao).
Qed.

(** X7: GETRANGE reads its two indices before it looks at the
    key: an index that is no integer is answered with the not-a-number
    error whatever the key holds.  With two integers, a key that is not
    there is answered with the empty string and a value that is no string
    with the wrong-type error.  Nothing but the reply changes. *)
Theorem getrange_edge_cases (s : state) (k : sds) :
  (arg_not_number s 2 →
     exec getrangeCommand s = set_reply (λ r, r ++ [NotANumber]) s)
  ∧ (∀ start, arg_number s 2 start → arg_not_number s 3 →
       exec getrangeCommand s = set_reply (λ r, r ++ [NotANumber]) s)
  ∧ (∀ start end_, arg_number s 2 start → arg_number s 3 end_ →
       (key_absent s k →
          exec getrangeCommand s
          = set_reply (λ r, r ++ [RShared shared_emptybulk]) s)
       ∧ (∀ l o, key_holds s k l o → type o ≠ OBJ_STRING →
            exec getrangeCommand s = set_reply (λ r, r ++ [WrongType]) s)).
Proof.
  unfold getrangeCommand. split; [|split].
  - intros H2.
    rewrite exec_bind, exec_arg, exec_bind, eval_getLongLongFromObjectOrReply,
      exec_getLongLongFromObjectOrReply, (eval_arg_not_number s 2) by done.
    done.
  - intros start H2 H3.
    rewrite exec_bind, exec_arg, exec_bind, eval_getLongLongFromObjectOrReply,
      exec_getLongLongFromObjectOrReply, (eval_arg_number s 2 start) by done.
    rewrite exec_bind, exec_arg, exec_bind, eval_getLongLongFromObjectOrReply,
      exec_getLongLongFromObjectOrReply, (eval_arg_not_number s 3) by done.
    done.
  - intros start end_ H2 H3.
    rewrite exec_bind, exec_arg, exec_bind, eval_getLongLongFromObjectOrReply,
      exec_getLongLongFromObjectOrReply, (eval_arg_number s 2 start) by done.
    rewrite exec_bind, exec_arg, exec_bind, eval_getLongLongFromObjectOrReply,
      exec_getLongLongFromObjectOrReply, (eval_arg_number s 3 end_) by done.
    unfold lookupKeyReadOrReply. split.
    + intros (key & ko & Hkey & Hko & Hname & Hk).
      by key_lookup Hkey Hko Hname Hk.
    + intros l o (key & ko & Hkey & Hko & Hname & Hk & Hl) Ht.
      key_lookup Hkey Hko Hname Hk. rewrite Hl. cbn [default from_option id].
      by rewrite eval_checkType_other, exec_checkType_other.
Qed.

Lemma getrange_edge_cases_witness :
  reply (exec getrangeCommand
           (with_args "getrange" [str "GETRANGE"; str "k"; str "x"; str "1"]
              number_state))
  = [NotANumber]
  ∧ reply (exec getrangeCommand
             (with_args "getrange" [str "GETRANGE"; str "k"; str "0"; str "1"]
                empty_state))
    = [RShared shared_emptybulk]
  ∧ reply (exec getrangeCommand
             (with_args "getrange" [str "GETRANGE"; str "l"; str "0"; str "1"]
                other_type_state))
    = [WrongType].
Proof.
  split; [|split].
  - rewrite (proj1 (getrange_edge_cases _ (str "k"))); [done|].
    exists 7%positive, (mkObj 1 (RawVal (str "x"))). by vm_compute.
  - destruct (proj2 (proj2 (getrange_edge_cases
                              (with_args "getrange"
                                 [str "GETRANGE"; str "k"; str "0"; str "1"]
                                 empty_state) (str "k"))) 0 1)
      as [Habs _].
    + exists 3%positive, (mkObj 1 (RawVal (str "0"))). by vm_compute.
    + exists 4%positive, (mkObj 1 (RawVal (str "1"))). by vm_compute.
    + rewrite Habs; [done|].
      exists 2%positive, (mkObj 1 (RawVal (str "k"))). by vm_compute.
  - destruct (proj2 (proj2 (getrange_edge_cases
                              (with_args "getrange"
                                 [str "GETRANGE"; str "l"; str "0"; str "1"]
                                 other_type_state) (str "l"))) 0 1)
      as [_ Hwrong].
    + exists 4%positive, (mkObj 1 (RawVal (str "0"))). by vm_compute.
    + exists 5%positive, (mkObj 1 (RawVal (str "1"))). by vm_compute.
    + rewrite (Hwrong 1%positive (mkObj 1 (OtherVal 1))); [done| |done].
      exists 3%positive, (mkObj 1 (RawVal (str "l"))). by vm_compute.
Defined.

(** ** SET and its variants *)

(** A change of the count of holders leaves the name an object stands
    for as it is. *)
Lemma name_alter (h : gmap loc robj) (f : robj → robj) (l key : loc) :
  (∀ o, body (f o) = body o) →
  ptr_sds (default (mkObj 0 (OtherVal 0)) (alter f l h !! key))
  = ptr_sds (default (mkObj 0 (OtherVal 0)) (h !! key)).
Proof.
  intros Hf. destruct (decide (l = key)) as [->|Hne].
  - rewrite lookup_alter_eq. destruct (h !! key) as [o|]; [|done].
    cbn [fmap option_fmap option_map default from_option id].
    unfold ptr_sds. by rewrite Hf.
  - by rewrite lookup_alter_ne.
Qed.

Lemma exec_setKey (s : state) (key val : loc) (ko : robj) (k : sds) :
  heap s !! key = Some ko → ptr_sds ko = k →
  exec (setKey key val) s
  = set_events (λ e, e ++ [ModifiedKey k])
      (set_expires (delete k)
         (set_heap (alter (λ o, mkObj (refcount o + 1) (body o)) val)
            (match dict s !! k with
             | Some old =>
                 set_heap (alter (λ o, mkObj (refcount o - 1) (body o)) old)
                   (set_dict <[k := val]> s)
             | None => set_dict <[k := val]> s
             end))).
Proof.
  intros Hko Hname. unfold setKey. autorewrite with mrun.
  rewrite Hko. cbn [default from_option id]. rewrite Hname.
  destruct (dict s !! k) as [old|] eqn:Hd; autorewrite with mrun;
    cbn [heap dict set_heap set_dict set_expires]; rewrite ?Hko;
    cbn [default from_option id]; rewrite ?Hname, ?Hd;
    cbn [heap dict set_heap set_dict set_expires];
    rewrite ?name_alter by done; rewrite ?Hko;
    cbn [default from_option id]; rewrite ?Hname; done.
Qed.

Lemma bodies_kept_setKey_state (s : state) (val : loc) (k : sds) :
  bodies_kept s
    (set_heap (alter (λ o, mkObj (refcount o + 1) (body o)) val)
       (match dict s !! k with
        | Some old =>
            set_heap (alter (λ o, mkObj (refcount o - 1) (body o)) old)
              (set_dict <[k := val]> s)
        | None => set_dict <[k := val]> s
        end)).
Proof.
  destruct (dict s !! k) as [old|].
  - etrans; [|by apply bodies_kept_alter].
    etrans; [|by apply bodies_kept_alter]. by apply bodies_kept_heap.
  - etrans; [|by apply bodies_kept_alter]. by apply bodies_kept_heap.
Qed.

Lemma setKey_fields (s : state) (val : loc) (k : sds) :
  let s1 := set_heap (alter (λ o, mkObj (refcount o + 1) (body o)) val)
              (match dict s !! k with
               | Some old =>
                   set_heap (alter (λ o, mkObj (refcount o - 1) (body o)) old)
                     (set_dict <[k := val]> s)
               | None => set_dict <[k := val]> s
               end) in
  dict s1 = <[k := val]> (dict s) ∧ expires s1 = expires s
  ∧ dirty s1 = dirty s ∧ events s1 = events s ∧ reply s1 = reply s
  ∧ argv s1 = argv s ∧ mstime s1 = mstime s ∧ integers s1 = integers s
  ∧ ∀ key, ptr_sds (default (mkObj 0 (OtherVal 0)) (heap s1 !! key))
           = ptr_sds (default (mkObj 0 (OtherVal 0)) (heap s !! key)).
Proof.
  cbv zeta. destruct (dict s !! k) as [old|];
    cbn [heap dict expires dirty events reply argv mstime integers set_heap
         set_dict];
    repeat split; intros key; by rewrite !name_alter.
Qed.

Lemma setGeneric_store_tail (s : state) (key val : loc) (ko : robj) (k : sds)
    (expire : option loc) (ms : Z) (r : reply_t) :
  heap s !! key = Some ko → ptr_sds ko = k →
  let s' := exec (setKey key val;;
                  modify (set_dirty (λ d, d + 1));;
                  match expire with
                  | Some _ => now ← gets mstime; setExpire key (to_ll (now + ms))
                  | None => return_void
                  end;;
                  notifyKeyspaceEvent NOTIFY_STRING "set" key;;
                  match expire with
                  | Some _ => notifyKeyspaceEvent NOTIFY_GENERIC "expire" key
                  | None => return_void
                  end;;
                  addReply r) s in
  dict s' = <[k := val]> (dict s)
  ∧ expires s' = match expire with
                 | Some _ => <[k := to_ll (mstime s + ms)]> (expires s)
                 | None => delete k (expires s)
                 end
  ∧ bodies_kept s s'
  ∧ dirty s' = dirty s + 1
  ∧ events s' = events s
                ++ set_events_of k (match expire with
                                    | Some _ => Some ms
                                    | None => None
                                    end)
  ∧ reply s' = reply s ++ [r]
  ∧ argv s' = argv s ∧ mstime s' = mstime s ∧ integers s' = integers s.
Proof.
  intros Hko Hname. cbv zeta. rewrite exec_bind, (exec_setKey s key val ko k) by done.
  pose proof (setKey_fields s val k) as Hf.
  pose proof (bodies_kept_setKey_state s val k) as Hb.
  cbv zeta in Hf. revert Hf Hb.
  generalize (set_heap (alter (λ o, mkObj (refcount o + 1) (body o)) val)
                (match dict s !! k with
                 | Some old =>
                     set_heap (alter (λ o, mkObj (refcount o - 1) (body o)) old)
                       (set_dict <[k := val]> s)
                 | None => set_dict <[k := val]> s
                 end)).
  intros s1 (Hd & Hx & Hdi & Hev & Hr & Ha & Hm & Hi & Hnm) Hb.
  destruct expire as [e|]; autorewrite with mrun;
    cbn [heap dict expires dirty events reply argv mstime integers set_heap
         set_dict set_expires set_dirty set_events set_reply];
    rewrite ?Hnm, ?Hko; cbn [default from_option id];
    rewrite ?Hname, ?Hd, ?Hx, ?Hdi, ?Hev, ?Hr, ?Ha, ?Hm, ?Hi.
  all: repeat split; try done.
  all: try (etrans; [exact Hb|by apply bodies_kept_heap]).
  all: try (unfold set_events_of; by rewrite <- !app_assoc).
  apply insert_delete_eq.
Qed.

(** The test [setGenericCommand] makes before it stores. *)
Lemma setGeneric_decision (s : state) (flags : Z) (key : loc) (ko : robj)
    (k : sds) {A} (stop go : M A) :
  heap s !! key = Some ko → ptr_sds ko = k →
  exec (nx ← (if has_flag flags OBJ_SET_NX
              then o ← lookupKeyWrite key; mret (bool_decide (o ≠ None))
              else mret false);
        xx ← (if nx then mret false
              else if has_flag flags OBJ_SET_XX
              then o ← lookupKeyWrite key; mret (bool_decide (o = None))
              else mret false);
        if nx || xx then stop else go) s
  = if set_aborts flags s k then exec stop s else exec go s.
Proof.
  intros Hko Hname. unfold set_aborts.
  assert (eval (lookupKeyWrite key) s = dict s !! k) as Hlook.
  { rewrite eval_lookupKeyWrite, eval_keyname, eval_getobj, Hko.
    cbn [default from_option id]. by rewrite Hname. }
  destruct (has_flag flags OBJ_SET_NX), (has_flag flags OBJ_SET_XX);
    cbn [andb orb];
    rewrite !exec_bind, ?eval_bind, ?exec_lookupKeyWrite, ?Hlook, ?eval_ret,
      ?exec_ret;
    destruct (dict s !! k) as [old|] eqn:Hdk;
    rewrite ?(bool_decide_eq_true_2 (Some old ≠ None)),
      ?(bool_decide_eq_false_2 (Some old = None)),
      ?(bool_decide_eq_false_2 (@None loc ≠ None)),
      ?(bool_decide_eq_true_2 (@None loc = None)) by (done || tauto);
    cbn [andb orb];
    rewrite ?exec_bind, ?eval_bind, ?exec_lookupKeyWrite, ?Hlook, ?eval_ret,
      ?exec_ret, ?Hdk;
    rewrite ?(bool_decide_eq_true_2 (Some old ≠ None)),
      ?(bool_decide_eq_false_2 (Some old = None)),
      ?(bool_decide_eq_false_2 (@None loc ≠ None)),
      ?(bool_decide_eq_true_2 (@None loc = None)) by (done || tauto);
    cbn [andb orb]; done.
Qed.

Lemma set_ttl_read (s : state) (expire : option loc) (u : time_unit)
    (ttl : option Z) :
  set_ttl s expire u ttl →
  ∃ ms, (ttl = match expire with Some _ => Some ms | None => None end)
        ∧ ∀ A (f : option Z → M A),
            exec (ms ← match expire with
                       | Some e =>
                           r ← getLongLongFromObjectOrReply (Some e);
                           match r with
                           | None => mret None
                           | Some milliseconds =>
                               if milliseconds <=? 0 then
                                 name ← gets cmd;
                                 addReplyError
                                   ("invalid expire time in " +:+ name);;
                                 mret None
                               else
                                 mret (Some (match u with
                                             | UNIT_SECONDS =>
                                                 to_ll (milliseconds * 1000)
                                             | UNIT_MILLISECONDS => milliseconds
                                             end))
                           end
                       | None => mret (Some 0)
                       end; f ms) s
            = exec (f (Some ms)) s.
Proof.
  destruct expire as [e|]; cbn [set_ttl].
  - intros (eo & n & He & Hn & Hpos & ->). eexists. split; [done|].
    intros A f.
    rewrite exec_bind, eval_bind, exec_bind, eval_getLongLongFromObjectOrReply,
      exec_getLongLongFromObjectOrReply, (eval_getLongLongFromObject e eo),
      Hn by done.
    destruct (Z.leb_spec n 0); [lia|]. done.
  - intros ->. exists 0. split; [done|]. intros A f. by rewrite exec_bind.
Qed.

(** What [setGenericCommand] does once its expire argument is read. *)
Lemma setGeneric_run (s : state) (flags : Z) (key val : loc) (ko : robj)
    (k : sds) (expire : option loc) (u : time_unit) (ttl : option Z)
    (ok_reply abort_reply : option reply_t) :
  heap s !! key = Some ko → ptr_sds ko = k →
  set_ttl s expire u ttl →
  let s' := exec (setGenericCommand flags key val expire u
                    ok_reply abort_reply) s in
  if set_aborts flags s k then
    s' = set_reply
           (λ r, r ++ [default (RShared shared_nullbulk) abort_reply]) s
  else
    dict s' = <[k := val]> (dict s)
    ∧ expires s' = match ttl with
                   | Some ms => <[k := to_ll (mstime s + ms)]> (expires s)
                   | None => delete k (expires s)
                   end
    ∧ bodies_kept s s'
    ∧ dirty s' = dirty s + 1
    ∧ events s' = events s ++ set_events_of k ttl
    ∧ reply s' = reply s ++ [default (RShared shared_ok) ok_reply]
    ∧ argv s' = argv s ∧ mstime s' = mstime s ∧ integers s' = integers s.
Proof.
  intros Hko Hname Httl. cbv zeta. unfold setGenericCommand.
  destruct (set_ttl_read s expire u ttl Httl) as (ms & -> & Hread).
  rewrite Hread.
  rewrite (setGeneric_decision s flags key ko k) by done.
  destruct (set_aborts flags s k); [done|].
  pose proof (setGeneric_store_tail s key val ko k expire ms
                (default (RShared shared_ok) ok_reply) Hko Hname) as Ht.
  cbv zeta in Ht. by destruct expire.
Qed.

(** X8: [setGenericCommand], given a key object that names
    [k] and an expire argument that is a positive integer, or none.  When
    NX is asked and the key is there, or XX is asked and it is not, the
    answer is the abort reply and nothing else changes.  Otherwise the
    key refers to the value, its expiration is the one asked for, counted
    from the present time, or none, no object loses its content, the
    counter of changes grows by one, the key is reported as modified, and
    the answer is the OK reply. *)
Theorem setGeneric_outcome (s : state) (flags : Z) (key val : loc) (ko : robj)
    (k : sds) (expire : option loc) (u : time_unit) (ttl : option Z)
    (ok_reply abort_reply : option reply_t) :
  heap s !! key = Some ko → ptr_sds ko = k →
  set_ttl s expire u ttl →
  let s' := exec (setGenericCommand flags key val expire u
                    ok_reply abort_reply) s in
  if set_aborts flags s k then
    s' = set_reply
           (λ r, r ++ [default (RShared shared_nullbulk) abort_reply]) s
  else
    dict s' = <[k := val]> (dict s)
    ∧ expires s' = match ttl with
                   | Some ms => <[k := to_ll (mstime s + ms)]> (expires s)
                   | None => delete k (expires s)
                   end
    ∧ bodies_kept s s'
    ∧ dirty s' = dirty s + 1
    ∧ events s' = events s ++ set_events_of k ttl
    ∧ reply s' = reply s ++ [default (RShared shared_ok) ok_reply]
    ∧ argv s' = argv s ∧ mstime s' = mstime s ∧ integers s' = integers s.
Proof.
  apply setGeneric_run.
Qed.

Lemma setGeneric_outcome_witness :
  value_of set_xx_px_state (str "k") = Some (str "old")
  ∧ dict (exec (setGenericCommand (Z.lor OBJ_SET_XX OBJ_SET_PX)
                  5%positive 6%positive (Some 9%positive)
                  UNIT_MILLISECONDS None None) set_xx_px_state)
    = <[str "k" := 6%positive]> (dict set_xx_px_state)
  ∧ expires (exec (setGenericCommand (Z.lor OBJ_SET_XX OBJ_SET_PX)
                     5%positive 6%positive (Some 9%positive)
                     UNIT_MILLISECONDS None None) set_xx_px_state)
    = <[str "k" := to_ll (mstime set_xx_px_state + 1500)]>
        (expires set_xx_px_state)
  ∧ reply (exec (setGenericCommand (Z.lor OBJ_SET_XX OBJ_SET_PX)
                   5%positive 6%positive (Some 9%positive)
                   UNIT_MILLISECONDS None None) set_xx_px_state)
    = reply set_xx_px_state ++ [RShared shared_ok].
Proof.
  split; [vm_compute; reflexivity|].
  pose proof (setGeneric_outcome set_xx_px_state (Z.lor OBJ_SET_XX OBJ_SET_PX)
                5%positive 6%positive (mkObj 1 (RawVal (str "k"))) (str "k")
                (Some 9%positive) UNIT_MILLISECONDS (Some 1500) None None)
    as H.
  cbv zeta in H.
  assert (set_aborts (Z.lor OBJ_SET_XX OBJ_SET_PX) set_xx_px_state (str "k")
          = false) as Hab by (vm_compute; reflexivity).
  rewrite Hab in H.
  destruct H as (Hd & Hx & _ & _ & _ & Hr & _).
  - vm_compute; reflexivity.
  - reflexivity.
  - exists (mkObj 1 (RawVal (str "1500"))), 1500.
    repeat split; vm_compute; reflexivity.
  - split; [exact Hd|]. split; [exact Hx|exact Hr].
Defined.

Lemma tryObjectEncoding_string (s : state) (a : loc) (o : robj) (t : sds) :
  heap s !! a = Some o → body o = RawVal t → pool_ok s →
  ∃ oe, heap (exec (tryObjectEncoding a) s) !! eval (tryObjectEncoding a) s
        = Some oe
        ∧ text_of oe = t ∧ type oe = OBJ_STRING.
Proof.
  intros Ha Hb Hpool. unfold tryObjectEncoding.
  rewrite exec_bind, eval_bind, eval_getobj, exec_getobj, Ha.
  cbn [default from_option id]. rewrite Hb.
  destruct (string2ll t) as [v|] eqn:Hv.
  2:{ rewrite exec_ret, eval_ret, Ha. eexists; split; [done|].
      split; [by apply text_of_raw|]. unfold type. by rewrite Hb. }
  apply ll2string_string2ll in Hv.
  assert (∃ oe, heap (exec (n ← createObject (IntVal v); decrRefCount a;; mret n) s)
                !! eval (n ← createObject (IntVal v); decrRefCount a;; mret n) s
                = Some oe ∧ text_of oe = t ∧ type oe = OBJ_STRING) as Hnew.
  { autorewrite with mrun. heap_simp.
    pose proof (fresh_loc_ne (heap s) a (ex_intro _ _ Ha)).
    heap_simp. eexists; split; [done|]. done. }
  rewrite exec_bind, eval_bind, exec_gets, eval_gets.
  destruct (integers s !! v) as [sh|] eqn:Hsh; [|done].
  destruct ((0 <=? v) && (v <? OBJ_SHARED_INTEGERS)); [|done].
  destruct (Hpool v sh Hsh) as (po & Hpo & Hpb).
  autorewrite with mrun. heap_simp.
  destruct (decide (sh = a)) as [->|Hne].
  - rewrite Ha in Hpo. simplify_eq. congruence.
  - heap_simp. rewrite Hpo. heap_simp. eexists; split; [done|].
    unfold text_of, type. cbn [body]. by rewrite Hpb.
Qed.

Lemma holds_string_value (s : state) (k v : sds) :
  holds_string s k v → value_of s k = Some v.
Proof. intros (l & o & Hd & Hl & _ & Ht). apply value_of_Some. eauto. Qed.

Lemma type_of_body (o o' : robj) : body o' = body o → type o' = type o.
Proof. unfold type. by intros ->. Qed.

Lemma encode_arg_outcome (j : nat) (s : state) (a : loc) :
  argv s !! j = Some a → args_raw s → pool_ok s →
  let s1 := exec (encode_arg j) s in
  ∃ e oe, argv s1 = <[j := e]> (argv s)
          ∧ heap s1 !! e = Some oe ∧ text_of oe = arg_text s j
          ∧ type oe = OBJ_STRING
          ∧ dict s1 = dict s ∧ expires s1 = expires s ∧ reply s1 = reply s
          ∧ dirty s1 = dirty s ∧ events s1 = events s
          ∧ mstime s1 = mstime s ∧ integers s1 = integers s
          ∧ bodies_kept s s1.
Proof.
  intros Hj Hraw Hpool. cbv zeta.
  destruct (arg_raw_text s j a Hraw Hj) as (oa & Hoa & Hbody).
  destruct (tryObjectEncoding_string s a oa _ Hoa Hbody Hpool)
    as (oe & He & Ht & Hty).
  assert (preserves (same (λ s, (dict s, expires s, reply s, dirty s,
                                 events s, mstime s, integers s, argv s)))
            (tryObjectEncoding a)) as Hp by frame.
  specialize (Hp s). unfold same in Hp.
  injection Hp as Hd Hx Hr Hdi Hev Hm Hi Ha.
  unfold encode_arg.
  rewrite exec_bind, exec_arg, eval_arg, Hj. cbn [default from_option id].
  rewrite exec_bind, exec_set_arg.
  exists (eval (tryObjectEncoding a) s), oe.
  cbn [argv heap dict expires reply dirty events mstime integers set_argv].
  rewrite Ha. repeat split; try done.
  etrans; [apply tryObjectEncoding_bodies|]. by apply bodies_kept_heap.
Qed.

Lemma set_aborts_dict (flags : Z) (s s1 : state) (k : sds) :
  dict s1 = dict s → set_aborts flags s1 k = set_aborts flags s k.
Proof. unfold set_aborts. by intros ->. Qed.

Lemma set_ttl_kept (s s1 : state) (expire : option loc) (u : time_unit)
    (ttl : option Z) :
  bodies_kept s s1 → set_ttl s expire u ttl → set_ttl s1 expire u ttl.
Proof.
  intros Hb. destruct expire as [e|]; [|done]. cbn [set_ttl].
  intros (eo & n & He & Hn & Hpos & ->).
  destruct (Hb e eo He) as (eo1 & He1 & Hbody).
  exists eo1, n. repeat split; try done.
  unfold number_of in *. by rewrite Hbody.
Qed.

(** The value argument [j] is encoded, then [setGenericCommand] runs on
    the key [c->argv[1]] and the value [c->argv[j]]. *)
Lemma set_flow (j : nat) (s : state) (flags : Z) (expire : option loc)
    (u : time_unit) (ttl : option Z) (ok_reply abort_reply : option reply_t)
    (key a : loc) :
  j ≠ 1%nat → argv s !! 1%nat = Some key → argv s !! j = Some a →
  args_raw s → pool_ok s → set_ttl s expire u ttl →
  let k := arg_text s 1 in
  let s1 := exec (encode_arg j) s in
  let s' := exec (setGenericCommand flags (eval (arg 1) s1) (eval (arg j) s1)
                    expire u ok_reply abort_reply) s1 in
  if set_aborts flags s k then
    nothing_stored s s'
    ∧ reply s' = reply s ++ [default (RShared shared_nullbulk) abort_reply]
  else
    stored s s' k (arg_text s j) ttl
    ∧ reply s' = reply s ++ [default (RShared shared_ok) ok_reply].
Proof.
  intros Hj1 Hkey Hj Hraw Hpool Httl. cbv zeta.
  destruct (encode_arg_outcome j s a Hj Hraw Hpool)
    as (e & oe & Ha & He & Ht & Hty & Hd & Hx & Hr & Hdi & Hev & Hm & Hi & Hb).
  destruct (arg_raw_text s 1 key Hraw Hkey) as (ko & Hko & Hkb).
  destruct (Hb key ko Hko) as (ko1 & Hko1 & Hkb1).
  assert (ptr_sds ko1 = arg_text s 1) as Hname.
  { unfold ptr_sds. by rewrite Hkb1, Hkb. }
  assert (eval (arg 1) (exec (encode_arg j) s) = key) as ->.
  { rewrite eval_arg, Ha, list_lookup_insert_ne, Hkey by done. done. }
  assert (eval (arg j) (exec (encode_arg j) s) = e) as ->.
  { rewrite eval_arg, Ha, list_lookup_insert_eq; [done|].
    by eapply lookup_lt_Some. }
  pose proof (setGeneric_run (exec (encode_arg j) s) flags key e ko1
                (arg_text s 1) expire u ttl ok_reply abort_reply Hko1 Hname
                (set_ttl_kept _ _ _ _ _ Hb Httl)) as Hout.
  cbv zeta in Hout. rewrite (set_aborts_dict flags s _ _ Hd) in Hout.
  destruct (set_aborts flags s (arg_text s 1)).
  - rewrite Hout. cbn [reply set_reply]. rewrite Hr. split; [|done].
    repeat split; cbn [dict expires dirty events set_reply]; try done.
    all: etrans; [exact Hb|]; by apply bodies_kept_heap.
  - destruct Hout as (Hd' & Hx' & Hb' & Hdi' & Hev' & Hr' & _).
    rewrite Hr', Hr. split; [|done].
    unfold stored. rewrite Hdi', Hdi, Hev', Hev.
    repeat split; try done.
    + destruct (Hb' e oe He) as (oe' & Hoe' & Hbe).
      exists e, oe'. rewrite Hd', lookup_insert_eq.
      repeat split; [done|..].
      * by rewrite (type_of_body oe oe').
      * by rewrite (text_of_body oe oe').
    + rewrite Hx', Hx, Hm. destruct ttl; by rewrite ?lookup_insert_eq,
        ?lookup_delete_eq.
    + rewrite Hd', Hd. by rewrite lookup_insert_ne.
    + rewrite Hx', Hx. destruct ttl; by rewrite ?lookup_insert_ne,
        ?lookup_delete_ne.
    + by etrans.
Qed.

(** *** The options of SET *)

Lemma setCommand_options_fail (n : nat) :
  ∀ (rest : list loc) (flags : Z) (expire : option loc) (u : time_unit)
    (s : state),
    (length rest ≤ n)%nat →
    eval (setCommand_options rest flags expire u) s = None →
    exec (setCommand_options rest flags expire u) s
    = set_reply (λ r, r ++ [SyntaxError]) s.
Proof.
  induction n as [|n IH]; intros rest flags expire u s Hlen.
  { destruct rest; [done|simpl in Hlen; lia]. }
  destruct rest as [|aj rest']; [done|]. simpl in Hlen.
  cbn [setCommand_options]. rewrite exec_bind, eval_bind.
  rewrite exec_getobj. set (a := ptr_sds _).
  destruct (is_option a "n" "N" "x" "X" && _); [apply IH; lia|].
  destruct (is_option a "x" "X" "x" "X" && _); [apply IH; lia|].
  destruct (is_option a "e" "E" "x" "X" && _).
  { destruct rest' as [|next rest'']; [done|]. apply IH. simpl in Hlen. lia. }
  destruct (is_option a "p" "P" "x" "X" && _).
  { destruct rest' as [|next rest'']; [done|]. apply IH. simpl in Hlen. lia. }
  done.
Qed.




Lemma setCommand_run (s : state) :
  exec setCommand s
  = match set_options s with
    | None => set_reply (λ r, r ++ [SyntaxError]) s
    | Some (flags, expire, u) =>
        exec (setGenericCommand flags
                (eval (arg 1) (exec (encode_arg 2) s))
                (eval (arg 2) (exec (encode_arg 2) s)) expire u None None)
          (exec (encode_arg 2) s)
    end.
Proof.
  unfold setCommand, set_options.
  rewrite exec_bind, exec_gets, eval_gets, exec_bind.
  destruct (eval (setCommand_options _ _ _ _) s) as [[[flags expire] u]|] eqn:E.
  - rewrite (setCommand_options_exec _ _ _ _ _ _ _ (le_n _) E).
    unfold encode_arg. by rewrite !exec_bind, !exec_arg.
  - by rewrite (setCommand_options_fail _ _ _ _ _ _ (le_n _) E).
Qed.



Lemma set_aborts_no_flags (s : state) (k : sds) :
  set_aborts OBJ_SET_NO_FLAGS s k = false.
Proof. done. Qed.

Lemma set_aborts_nx (s : state) (k : sds) :
  set_aborts OBJ_SET_NX s k = bool_decide (dict s !! k ≠ None).
Proof.
  unfold set_aborts.
  change (has_flag OBJ_SET_NX OBJ_SET_NX) with true.
  change (has_flag OBJ_SET_NX OBJ_SET_XX) with false.
  cbn [andb]. by rewrite orb_false_r.
Qed.

(** X10: SET, once its options are accepted and its expire argument,
    if any, is a positive integer.  With NX on a key that is there, or XX
    on a key that is not, the answer is the null reply and nothing is
    stored: keys, values, expirations, counter of changes and events are
    as before.  Otherwise the key holds a string with the bytes of the
    value argument, its expiration is the time asked for, counted from the
    present time, or none at all, no other key and no other expiration is
    touched, no object loses its content, and the answer is OK. *)
Theorem set_outcome (s : state) (key a : loc) (flags : Z)
    (expire : option loc) (u : time_unit) (ttl : option Z) :
  args_raw s → pool_ok s →
  argv s !! 1%nat = Some key → argv s !! 2%nat = Some a →
  set_options s = Some (flags, expire, u) →
  set_ttl s expire u ttl →
  if set_aborts flags s (arg_text s 1) then
    nothing_stored s (exec setCommand s)
    ∧ reply (exec setCommand s) = reply s ++ [RShared shared_nullbulk]
  else
    stored s (exec setCommand s) (arg_text s 1) (arg_text s 2) ttl
    ∧ reply (exec setCommand s) = reply s ++ [RShared shared_ok].
Proof.
  intros Hraw Hpool Hkey Ha Hopt Httl. rewrite setCommand_run, Hopt.
  by apply (set_flow 2 s flags expire u ttl None None key a).
Qed.

Lemma set_outcome_witness :
  value_of set_xx_px_state (str "k") = Some (str "old")
  ∧ value_of (exec setCommand set_xx_px_state) (str "k") = Some (str "new")
  ∧ expires (exec setCommand set_xx_px_state) !! str "k" = Some 2500
  ∧ reply (exec setCommand set_xx_px_state) = [RShared shared_ok].
Proof.
  split; [vm_compute; reflexivity|].
  pose proof (set_outcome set_xx_px_state 5%positive 6%positive
                (Z.lor OBJ_SET_XX OBJ_SET_PX) (Some 9%positive)
                UNIT_MILLISECONDS (Some 1500)) as H.
  assert (set_aborts (Z.lor OBJ_SET_XX OBJ_SET_PX) set_xx_px_state
            (arg_text set_xx_px_state 1) = false) as Hab
    by (vm_compute; reflexivity).
  rewrite Hab in H. destruct H as [(Hv & Hx & _) Hr].
  - intros a Ha. vm_compute in Ha.
    repeat (apply elem_of_cons in Ha as [->|Ha];
            [eexists _, _; vm_compute; split; reflexivity|]).
    by apply elem_of_nil in Ha.
  - intros n p Hn. vm_compute in Hn. discriminate.
  - reflexivity.
  - reflexivity.
  - vm_compute; reflexivity.
  - exists (mkObj 1 (RawVal (str "1500"))), 1500.
    repeat split; vm_compute; reflexivity.
  - split; [exact (holds_string_value _ _ _ Hv)|]. split; [exact Hx|exact Hr].
Defined.

Lemma setnx_run (s : state) :
  exec setnxCommand s
  = exec (setGenericCommand OBJ_SET_NX
            (eval (arg 1) (exec (encode_arg 2) s))
            (eval (arg 2) (exec (encode_arg 2) s)) None UNIT_SECONDS
            (Some (RShared shared_cone)) (Some (RShared shared_czero)))
      (exec (encode_arg 2) s).
Proof. unfold setnxCommand, encode_arg. by rewrite !exec_bind, !exec_arg. Qed.

Lemma setex_run (s : state) :
  exec setexCommand s
  = exec (setGenericCommand OBJ_SET_NO_FLAGS
            (eval (arg 1) (exec (encode_arg 3) s))
            (eval (arg 3) (exec (encode_arg 3) s))
            (Some (eval (arg 2) (exec (encode_arg 3) s))) UNIT_SECONDS
            None None)
      (exec (encode_arg 3) s).
Proof. unfold setexCommand, encode_arg. by rewrite !exec_bind, !exec_arg. Qed.

Lemma psetex_run (s : state) :
  exec psetexCommand s
  = exec (setGenericCommand OBJ_SET_NO_FLAGS
            (eval (arg 1) (exec (encode_arg 3) s))
            (eval (arg 3) (exec (encode_arg 3) s))
            (Some (eval (arg 2) (exec (encode_arg 3) s))) UNIT_MILLISECONDS
            None None)
      (exec (encode_arg 3) s).
Proof. unfold psetexCommand, encode_arg. by rewrite !exec_bind, !exec_arg. Qed.

(** X11: SETNX, SETEX and PSETEX.  SETNX on a key that is
    there answers 0 and stores nothing; on a key that is not there it
    stores the value without expiration and answers 1.  SETEX and PSETEX
    with a positive integer time store the value whether the key is there
    or not, with an expiration that many seconds, or milliseconds, after
    the present time, and answer OK. *)
Theorem set_shorthands (s : state) (key : loc) :
  args_raw s → pool_ok s → argv s !! 1%nat = Some key →
  (∀ a, argv s !! 2%nat = Some a →
     if bool_decide (dict s !! arg_text s 1 ≠ None) then
       nothing_stored s (exec setnxCommand s)
       ∧ reply (exec setnxCommand s) = reply s ++ [RShared shared_czero]
     else
       stored s (exec setnxCommand s) (arg_text s 1) (arg_text s 2) None
       ∧ reply (exec setnxCommand s) = reply s ++ [RShared shared_cone])
  ∧ (∀ a e eo n,
       argv s !! 3%nat = Some a → argv s !! 2%nat = Some e →
       heap s !! e = Some eo → number_of eo = Some n → 0 < n →
       (stored s (exec setexCommand s) (arg_text s 1) (arg_text s 3)
          (Some (to_ll (n * 1000)))
        ∧ reply (exec setexCommand s) = reply s ++ [RShared shared_ok])
       ∧ (stored s (exec psetexCommand s) (arg_text s 1) (arg_text s 3)
            (Some n)
          ∧ reply (exec psetexCommand s) = reply s ++ [RShared shared_ok])).
Proof.
  intros Hraw Hpool Hkey. split.
  - intros a Ha.
    pose proof (set_flow 2 s OBJ_SET_NX None UNIT_SECONDS None
                  (Some (RShared shared_cone)) (Some (RShared shared_czero))
                  key a ltac:(done) Hkey Ha Hraw Hpool eq_refl) as H.
    cbv zeta in H. rewrite set_aborts_nx in H.
    rewrite setnx_run. exact H.
  - intros a e eo n Ha He Heo Hn Hpos.
    assert (∀ u, set_ttl s (Some e) u
                   (Some (match u with
                          | UNIT_SECONDS => to_ll (n * 1000)
                          | UNIT_MILLISECONDS => n
                          end))) as Httl.
    { intros u. exists eo, n. done. }
    assert (eval (arg 2) (exec (encode_arg 3) s) = e) as He1.
    { destruct (encode_arg_outcome 3 s a Ha Hraw Hpool) as (x & ox & Hargv & _).
      rewrite eval_arg, Hargv, list_lookup_insert_ne, He by done. done. }
    split.
    + pose proof (set_flow 3 s OBJ_SET_NO_FLAGS (Some e) UNIT_SECONDS _
                    None None key a ltac:(done) Hkey Ha Hraw Hpool
                    (Httl UNIT_SECONDS)) as H.
      cbv zeta in H. rewrite set_aborts_no_flags in H.
      rewrite setex_run, He1. exact H.
    + pose proof (set_flow 3 s OBJ_SET_NO_FLAGS (Some e) UNIT_MILLISECONDS _
                    None None key a ltac:(done) Hkey Ha Hraw Hpool
                    (Httl UNIT_MILLISECONDS)) as H.
      cbv zeta in H. rewrite set_aborts_no_flags in H.
      rewrite psetex_run, He1. exact H.
Qed.

Ltac args_raw_tac :=
  let a := fresh "a" in
  let Ha := fresh "Ha" in
  intros a Ha; vm_compute in Ha;
  repeat (apply elem_of_cons in Ha as [->|Ha];
          [eexists _, _; vm_compute; split; reflexivity|]);
  by apply elem_of_nil in Ha.

Ltac pool_ok_tac :=
  let n := fresh "n" in
  let p := fresh "p" in
  let Hn := fresh "Hn" in
  intros n p Hn; vm_compute in Hn; discriminate.

Lemma value_of_kept (s s' : state) (k v : sds) :
  dict s' = dict s → bodies_kept s s' →
  value_of s k = Some v → value_of s' k = Some v.
Proof.
  intros Hd Hb (l & o & Hl & Ho & Ht)%value_of_Some.
  destruct (Hb l o Ho) as (o' & Ho' & Hbody).
  apply value_of_Some. exists l, o'. rewrite Hd.
  repeat split; [done..|]. by rewrite (text_of_body o o').
Qed.

Lemma set_shorthands_witness :
  (value_of setnx_busy_state (str "k") = Some (str "old")
   ∧ reply (exec setnxCommand setnx_busy_state) = [RShared shared_czero]
   ∧ value_of (exec setnxCommand setnx_busy_state) (str "k")
     = Some (str "old"))
  ∧ value_of (exec setexCommand setex_state) (str "k") = Some (str "v")
  ∧ expires (exec setexCommand setex_state) !! str "k" = Some 11000.
Proof.
  split.
  - destruct (set_shorthands setnx_busy_state 5%positive) as [Hnx _];
      [args_raw_tac|pool_ok_tac|reflexivity|].
    specialize (Hnx 6%positive eq_refl).
    assert (bool_decide (dict setnx_busy_state
                           !! arg_text setnx_busy_state 1 ≠ None) = true)
      as E by (vm_compute; reflexivity).
    rewrite E in Hnx. destruct Hnx as [((Hd & _ & Hb) & _) Hr].
    assert (value_of setnx_busy_state (str "k") = Some (str "old")) as Hv
      by (vm_compute; reflexivity).
    split; [exact Hv|]. split; [exact Hr|].
    exact (value_of_kept _ _ _ _ Hd Hb Hv).
  - destruct (set_shorthands setex_state 2%positive) as [_ Hex];
      [args_raw_tac|pool_ok_tac|reflexivity|].
    destruct (Hex 4%positive 3%positive (mkObj 1 (RawVal (str "10"))) 10)
      as [[(Hv & Hx & _) _] _];
      [reflexivity|reflexivity|vm_compute; reflexivity
      |vm_compute; reflexivity|lia|].
    split; [exact (holds_string_value _ _ _ Hv)|exact Hx].
Defined.

(** *** The arrival of a command *)

Lemma with_args_snoc (name : string) (args : list sds) (x : sds) (s : state) :
  with_args name (args ++ [x]) s
  = set_argv (λ v, v ++ [fresh_loc (heap (with_args name args s))])
      (exec (createStringObject x) (with_args name args s)).
Proof. unfold with_args. by rewrite foldl_app. Qed.

Lemma with_args_kept (name : string) (args : list sds) (s : state) :
  dict (with_args name args s) = dict s
  ∧ expires (with_args name args s) = expires s
  ∧ integers (with_args name args s) = integers s
  ∧ dirty (with_args name args s) = dirty s
  ∧ mstime (with_args name args s) = mstime s
  ∧ bodies_kept s (with_args name args s).
Proof.
  induction args as [|x args IH] using rev_ind.
  - unfold with_args. cbn [foldl].
    assert (preserves (same (λ s, (dict s, expires s, integers s, dirty s,
                                   mstime s)))
              (forM_ (argv s) decrRefCount)) as Hp by frame.
    specialize (Hp s). unfold same in Hp. injection Hp as Hd Hx Hi Hdi Hm.
    repeat split; try done.
    assert (preserves bodies_kept (forM_ (argv s) decrRefCount)) as Hb
      by frame.
    etrans; [apply Hb|]. by apply bodies_kept_heap.
  - rewrite with_args_snoc, exec_createStringObject.
    destruct IH as (Hd & Hx & Hi & Hdi & Hm & Hb).
    repeat split; try done.
    etrans; [exact Hb|]. etrans; [apply bodies_kept_alloc|].
    by apply bodies_kept_heap.
Qed.

Lemma with_args_are (name : string) (args : list sds) (s : state) :
  args_are (with_args name args s) args.
Proof.
  unfold args_are. induction args as [|x args IH] using rev_ind.
  - unfold with_args. cbn [foldl argv set_reply set_cmd set_argv].
    constructor.
  - rewrite with_args_snoc, exec_createStringObject.
    cbn [argv heap set_argv set_heap].
    apply Forall2_app.
    + eapply Forall2_impl; [exact IH|]. intros l t Hl. cbn beta in *.
      rewrite lookup_insert_ne; [done|]. apply fresh_loc_ne. eauto.
    + constructor; [|constructor]. by rewrite lookup_insert_eq.
Qed.

Lemma args_are_raw (s : state) (args : list sds) :
  args_are s args → args_raw s.
Proof.
  intros H a Ha. apply list_elem_of_lookup in Ha as [i Hi].
  destruct (Forall2_lookup_l _ _ _ _ _ H Hi) as (t & _ & Ht). eauto.
Qed.

Lemma args_are_text (s : state) (args : list sds) (j : nat) (t : sds) :
  args_are s args → args !! j = Some t →
  ∃ l, argv s !! j = Some l ∧ heap s !! l = Some (mkObj 1 (RawVal t))
       ∧ arg_text s j = t.
Proof.
  intros H Hj. destruct (Forall2_lookup_r _ _ _ _ _ H Hj) as (l & Hl & Ht).
  exists l. repeat split; [done..|].
  unfold arg_text. rewrite eval_arg, Hl, eval_getobj.
  cbn [default from_option id]. by rewrite Ht.
Qed.

(** The key argument of a command that has just arrived, and what the
    key holds. *)
Lemma arrived_key (name : string) (c k v : sds) (rest : list sds) (s : state) :
  holds_string s k v →
  ∃ l o, key_holds (with_args name (c :: k :: rest) s) k l o
         ∧ type o = OBJ_STRING ∧ text_of o = v.
Proof.
  intros (l & o & Hd & Hl & Hty & Ht).
  destruct (with_args_kept name (c :: k :: rest) s) as (Hd' & _ & _ & _ & _ & Hb).
  destruct (Hb l o Hl) as (o' & Hl' & Hbody).
  destruct (args_are_text _ _ 1 k (with_args_are name (c :: k :: rest) s)
              eq_refl) as (key & Hkey & Hko & _).
  exists l, o'. split.
  - exists key, (mkObj 1 (RawVal k)). rewrite Hd'. done.
  - by rewrite (type_of_body o o'), (text_of_body o o').
Qed.

(** X12: what SET stores is what the next GET and the next STRLEN
    find.  After a SET with no option, a GET of the same name answers
    with the bytes of the value as they were sent, also when the value
    is kept as an integer in between, and a STRLEN with their number. *)
Theorem set_then_get (s : state) (c k v : sds) :
  args_are s [c; k; v] → pool_ok s →
  exec getCommand (with_args "get" [str "GET"; k] (exec setCommand s))
  = set_reply (λ r, r ++ [RBulk v])
      (with_args "get" [str "GET"; k] (exec setCommand s))
  ∧ exec strlenCommand
      (with_args "strlen" [str "STRLEN"; k] (exec setCommand s))
    = set_reply (λ r, r ++ [RLongLong (sdslen v)])
        (with_args "strlen" [str "STRLEN"; k] (exec setCommand s)).
Proof.
  intros Hargs Hpool.
  destruct (args_are_text s _ 1 k Hargs eq_refl) as (key & Hkey & _ & Hk).
  destruct (args_are_text s _ 2 v Hargs eq_refl) as (a & Ha & _ & Hv).
  assert (set_options s = Some (OBJ_SET_NO_FLAGS, None, UNIT_SECONDS)) as Hopt.
  { unfold set_options. apply Forall2_length in Hargs. cbn [length] in Hargs.
    rewrite drop_ge by lia. done. }
  pose proof (set_flow 2 s OBJ_SET_NO_FLAGS None UNIT_SECONDS None None None
                key a ltac:(done) Hkey Ha (args_are_raw s _ Hargs) Hpool
                eq_refl) as Hout.
  cbv zeta in Hout. rewrite set_aborts_no_flags, Hk, Hv in Hout.
  destruct Hout as [(Hhold & _) _].
  rewrite setCommand_run, Hopt. split.
  - destruct (arrived_key "get" (str "GET") k v [] _ Hhold)
      as (l & o & Hkh & Hty & Ht).
    rewrite <- Ht. by apply (get_string _ k l o).
  - destruct (arrived_key "strlen" (str "STRLEN") k v [] _ Hhold)
      as (l & o & Hkh & Hty & Ht).
    rewrite <- Ht. by apply (strlen_string _ k l o).
Qed.

Lemma set_then_get_witness :
  reply (exec getCommand
           (with_args "get" [str "GET"; str "k"]
              (exec setCommand set_plain_state)))
  = [RBulk (str "007")]
  ∧ reply (exec strlenCommand
             (with_args "strlen" [str "STRLEN"; str "k"]
                (exec setCommand set_plain_state)))
    = [RLongLong 3].
Proof.
  destruct (set_then_get set_plain_state (str "SET") (str "k") (str "007"))
    as [Hg Hs].
  - apply with_args_are.
  - pool_ok_tac.
  - rewrite Hg, Hs. split; reflexivity.
Defined.

(** ** GETSET *)

Lemma getGeneric_absent (s : state) (k : sds) :
  key_absent s k →
  eval getGenericCommand s = C_OK
  ∧ exec getGenericCommand s
    = set_reply (λ r, r ++ [RShared shared_nullbulk]) s.
Proof.
  intros (key & ko & Hkey & Hko & Hname & Hk).
  unfold getGenericCommand, lookupKeyReadOrReply.
  split; by key_lookup Hkey Hko Hname Hk.
Qed.

Lemma getGeneric_wrong (s : state) (k : sds) (l : loc) (o : robj) :
  key_holds s k l o → type o ≠ OBJ_STRING →
  eval getGenericCommand s = C_ERR
  ∧ exec getGenericCommand s = set_reply (λ r, r ++ [WrongType]) s.
Proof.
  intros (key & ko & Hkey & Hko & Hname & Hk & Hl) Ht.
  unfold getGenericCommand, lookupKeyReadOrReply.
  split; key_lookup Hkey Hko Hname Hk; rewrite Hl;
    cbn [default from_option id]; rewrite bool_decide_eq_true_2 by done;
    by autorewrite with mrun.
Qed.

Lemma getGeneric_string (s : state) (k : sds) (l : loc) (o : robj) :
  key_holds s k l o → type o = OBJ_STRING →
  eval getGenericCommand s = C_OK
  ∧ exec getGenericCommand s = set_reply (λ r, r ++ [RBulk (text_of o)]) s.
Proof.
  intros (key & ko & Hkey & Hko & Hname & Hk & Hl) Ht.
  unfold getGenericCommand, lookupKeyReadOrReply.
  split; key_lookup Hkey Hko Hname Hk; rewrite Hl;
    cbn [default from_option id]; rewrite bool_decide_eq_false_2 by tauto;
    autorewrite with mrun; by rewrite ?Hl.
Qed.

(** The storing half of [getsetCommand]. *)
Lemma getset_store (s : state) (key a : loc) :
  argv s !! 1%nat = Some key → argv s !! 2%nat = Some a →
  args_raw s → pool_ok s →
  let s' := exec (a2 ← arg 2; e ← tryObjectEncoding a2; set_arg 2 e;;
                  key ← arg 1; val ← arg 2;
                  setKey key val;;
                  notifyKeyspaceEvent NOTIFY_STRING "set" key;;
                  modify (set_dirty (λ d, d + 1))) s in
  stored s s' (arg_text s 1) (arg_text s 2) None ∧ reply s' = reply s.
Proof.
  intros Hkey Ha Hraw Hpool. cbv zeta.
  assert (exec (a2 ← arg 2; e ← tryObjectEncoding a2; set_arg 2 e;;
                key ← arg 1; val ← arg 2;
                setKey key val;;
                notifyKeyspaceEvent NOTIFY_STRING "set" key;;
                modify (set_dirty (λ d, d + 1))) s
          = exec (encode_arg 2;;
                  key ← arg 1; val ← arg 2;
                  setKey key val;;
                  notifyKeyspaceEvent NOTIFY_STRING "set" key;;
                  modify (set_dirty (λ d, d + 1))) s) as ->.
  { unfold encode_arg. by rewrite !exec_bind. }
  destruct (encode_arg_outcome 2 s a Ha Hraw Hpool)
    as (e & oe & Hargv & He & Ht & Hty & Hd & Hx & Hr & Hdi & Hev & Hm & Hi & Hb).
  destruct (arg_raw_text s 1 key Hraw Hkey) as (ko & Hko & Hkb).
  destruct (Hb key ko Hko) as (ko1 & Hko1 & Hkb1).
  assert (ptr_sds ko1 = arg_text s 1) as Hname.
  { unfold ptr_sds. by rewrite Hkb1, Hkb. }
  rewrite exec_bind, exec_bind, exec_arg, eval_arg, exec_bind, exec_arg,
    eval_arg, Hargv.
  rewrite list_lookup_insert_ne, Hkey by done.
  rewrite list_lookup_insert_eq by (by eapply lookup_lt_Some).
  cbn [default from_option id].
  rewrite exec_bind, (exec_setKey _ key e ko1 (arg_text s 1)) by done.
  pose proof (setKey_fields (exec (encode_arg 2) s) e (arg_text s 1)) as Hf.
  pose proof (bodies_kept_setKey_state (exec (encode_arg 2) s) e
                (arg_text s 1)) as Hb1.
  cbv zeta in Hf. revert Hf Hb1.
  generalize (set_heap (alter (λ o, mkObj (refcount o + 1) (body o)) e)
                (match dict (exec (encode_arg 2) s) !! arg_text s 1 with
                 | Some old =>
                     set_heap (alter (λ o, mkObj (refcount o - 1) (body o)) old)
                       (set_dict <[arg_text s 1 := e]> (exec (encode_arg 2) s))
                 | None => set_dict <[arg_text s 1 := e]> (exec (encode_arg 2) s)
                 end)).
  intros s1 (Hd1 & Hx1 & Hdi1 & Hev1 & Hr1 & Ha1 & Hm1 & Hi1 & Hnm) Hb1.
  autorewrite with mrun.
  cbn [heap dict expires dirty events reply argv mstime integers set_heap
       set_dict set_expires set_dirty set_events set_reply].
  rewrite ?Hnm, ?Hko1. cbn [default from_option id]. rewrite ?Hname.
  split; [|by rewrite Hr1, Hr].
  unfold stored, holds_string.
  cbn [heap dict expires dirty events reply argv mstime integers set_heap
       set_dict set_expires set_dirty set_events set_reply].
  rewrite Hd1, Hx1, Hdi1, Hev1, Hd, Hx, Hdi, Hev.
  repeat split.
  - destruct (Hb1 e oe He) as (oe' & Hoe' & Hbe).
    exists e, oe'. rewrite lookup_insert_eq. repeat split; [done|..].
    + by rewrite (type_of_body oe oe').
    + by rewrite (text_of_body oe oe').
  - by rewrite lookup_delete_eq.
  - by rewrite lookup_insert_ne.
  - by rewrite lookup_delete_ne.
  - etrans; [exact Hb|]. etrans; [exact Hb1|]. by apply bodies_kept_heap.
  - unfold set_events_of. by rewrite <- app_assoc, app_nil_r.
Qed.

Lemma set_reply_args (f : list reply_t → list reply_t) (s : state) :
  (args_raw s → args_raw (set_reply f s))
  ∧ (pool_ok s → pool_ok (set_reply f s))
  ∧ (∀ j, arg_text (set_reply f s) j = arg_text s j).
Proof. done. Qed.

Lemma stored_after_reply (f : list reply_t → list reply_t) (s s' : state)
    (k v : sds) (ttl : option Z) :
  stored (set_reply f s) s' k v ttl → stored s s' k v ttl.
Proof.
  unfold stored. cbn [dict expires dirty events mstime set_reply].
  intros (H1 & H2 & H3 & H4 & H5 & H6).
  split; [done|]. split; [done|]. split; [done|].
  split; [|done]. etrans; [|exact H4]. by apply bodies_kept_heap.
Qed.

(** X13: GETSET on a value that is no string answers with the
    wrong-type error and changes nothing else.  In every other case it
    answers with the text the key held, or with the null reply for a key
    that was not there, and then stores the new value as a plain SET
    does: the key holds a string with the bytes of the argument, its
    expiration is gone, no other key is touched, no object loses its
    content. *)
Theorem getset_outcome (s : state) (key a : loc) :
  args_raw s → pool_ok s →
  argv s !! 1%nat = Some key → argv s !! 2%nat = Some a →
  let k := arg_text s 1 in
  (∀ l o, dict s !! k = Some l → heap s !! l = Some o →
          type o ≠ OBJ_STRING →
          exec getsetCommand s = set_reply (λ r, r ++ [WrongType]) s)
  ∧ (∀ l o, dict s !! k = Some l → heap s !! l = Some o →
            type o = OBJ_STRING →
            stored s (exec getsetCommand s) k (arg_text s 2) None
            ∧ reply (exec getsetCommand s) = reply s ++ [RBulk (text_of o)])
  ∧ (dict s !! k = None →
       stored s (exec getsetCommand s) k (arg_text s 2) None
       ∧ reply (exec getsetCommand s)
         = reply s ++ [RShared shared_nullbulk]).
Proof.
  intros Hraw Hpool Hkey Ha. cbv zeta.
  destruct (arg_raw_text s 1 key Hraw Hkey) as (ko & Hko & Hkb).
  assert (ptr_sds ko = arg_text s 1) as Hname by (by apply ptr_sds_raw).
  unfold getsetCommand. rewrite exec_bind.
  split; [|split].
  - intros l o Hd Hl Ht.
    destruct (getGeneric_wrong s (arg_text s 1) l o) as [-> ->]; [|done|done].
    by exists key, ko.
  - intros l o Hd Hl Ht.
    destruct (getGeneric_string s (arg_text s 1) l o) as [-> ->]; [|done|].
    { by exists key, ko. }
    rewrite bool_decide_eq_false_2 by done.
    pose proof (getset_store (set_reply (λ r, r ++ [RBulk (text_of o)]) s)
                  key a Hkey Ha Hraw Hpool) as [Hst Hr].
    split; [by apply stored_after_reply in Hst|exact Hr].
  - intros Hd.
    destruct (getGeneric_absent s (arg_text s 1)) as [-> ->].
    { by exists key, ko. }
    rewrite bool_decide_eq_false_2 by done.
    pose proof (getset_store
                  (set_reply (λ r, r ++ [RShared shared_nullbulk]) s)
                  key a Hkey Ha Hraw Hpool) as [Hst Hr].
    split; [by apply stored_after_reply in Hst|exact Hr].
Qed.

Lemma getset_outcome_witness :
  expires getset_state !! str "k" = Some 100000
  ∧ reply (exec getsetCommand getset_state) = [RBulk (str "old")]
  ∧ value_of (exec getsetCommand getset_state) (str "k") = Some (str "new")
  ∧ expires (exec getsetCommand getset_state) !! str "k" = None.
Proof.
  split; [vm_compute; reflexivity|].
  destruct (getset_outcome getset_state 6%positive 7%positive)
    as (_ & Hstr & _); [args_raw_tac|pool_ok_tac|reflexivity|reflexivity|].
  destruct (Hstr 4%positive (mkObj 1 (RawVal (str "old"))))
    as [(Hv & Hx & _) Hr];
    [vm_compute; reflexivity|vm_compute; reflexivity|reflexivity|].
  split; [exact Hr|]. split; [exact (holds_string_value _ _ _ Hv)|exact Hx].
Defined.

(** ** APPEND *)

Lemma append_present (s : state) (key l a : loc) (ko o ao : robj)
    (k data : sds) :
  argv s !! 1%nat = Some key → heap s !! key = Some ko → ptr_sds ko = k →
  dict s !! k = Some l → heap s !! l = Some o → type o = OBJ_STRING →
  key ≠ l →
  argv s !! 2%nat = Some a → heap s !! a = Some ao → ptr_sds ao = data →
  stringObjectLen o + sdslen data ≤ 512 * 1024 * 1024 →
  let s' := exec appendCommand s in
  let bytes := text_of o ++ data in
  expires s' = expires s
  ∧ reply s' = reply s ++ [RLongLong (sdslen bytes)]
  ∧ dirty s' = dirty s + 1
  ∧ events s' = events s ++ append_events k
  ∧ if bool_decide (refcount o = 1 ∧ encoding o = OBJ_ENCODING_RAW) then
      heap s' = <[l := mkObj 1 (RawVal bytes)]> (heap s)
      ∧ dict s' = dict s
    else
      let new := fresh_loc (heap s) in
      heap s' = <[new := mkObj 1 (RawVal bytes)]>
                  (<[l := mkObj (refcount o - 1) (body o)]> (heap s))
      ∧ dict s' = <[k := new]> (dict s).
Proof.
  intros Hkey Hko Hname Hk Hl Ht Hkl Ha Hao Hdata Hlen. cbv zeta.
  assert (to_ll (to_size_t (stringObjectLen o + sdslen data))
          = stringObjectLen o + sdslen data) as Htot.
  { pose proof (sdslen_nonneg (text_of o)). pose proof (sdslen_nonneg data).
    unfold stringObjectLen in *. unfold to_size_t.
    rewrite Z.mod_small by lia. apply to_ll_id.
    unfold LLONG_MIN, LLONG_MAX. lia. }
  unfold appendCommand.
  rewrite exec_bind, exec_arg, eval_arg, Hkey. cbn [default from_option id].
  rewrite exec_bind, exec_lookupKeyWrite, eval_lookupKeyWrite, eval_keyname,
    eval_getobj, Hko. cbn [default from_option id]. rewrite Hname, Hk.
  rewrite exec_bind.
  rewrite ?eval_bind, ?exec_bind, ?exec_getobj, ?eval_getobj, ?Hl.
  cbn [default from_option id].
  rewrite ?eval_checkType_string, ?exec_checkType_string by done.
  rewrite ?eval_bind, ?exec_bind, ?exec_arg, ?eval_arg, ?Ha.
  cbn [default from_option id].
  rewrite ?eval_bind, ?exec_bind, ?exec_getobj, ?eval_getobj, ?Hao.
  cbn [default from_option id]. cbv zeta.
  rewrite ?eval_bind, ?exec_bind, ?eval_checkStringLength,
    ?exec_checkStringLength.
  rewrite ?Hdata, ?Htot.
  destruct (Z.gtb_spec (stringObjectLen o + sdslen data) (512 * 1024 * 1024));
    [lia|].
  cbn [negb]. rewrite !(bool_decide_eq_false_2 (true ≠ C_OK)) by (unfold C_OK; tauto).
  pose proof (fresh_loc_ne (heap s) key (ex_intro _ _ Hko)) as Hfk.
  pose proof (fresh_loc_ne (heap s) l (ex_intro _ _ Hl)) as Hfl.
  rewrite ?eval_bind, ?exec_bind.
  destruct (decide (refcount o = 1 ∧ encoding o = OBJ_ENCODING_RAW))
    as [[Hrc Henc]|Hex].
  - rewrite (bool_decide_eq_true_2 (refcount o = 1 ∧ _)) by done.
    destruct (unshare_owned s key l o Hl Hrc Henc) as [He Hx].
    rewrite ?He, ?Hx.
    autorewrite with mrun.
    cbn [heap dict expires reply dirty events set_heap set_dict set_events
         set_dirty set_reply].
    rewrite ?Hl. cbn [default from_option id].
    rewrite ?lookup_alter_eq, ?Hl.
    cbn [fmap option_fmap option_map default from_option id body refcount
         ptr_sds].
    rewrite ?(lookup_alter_ne _ _ l key) by done. rewrite ?Hko.
    cbn [default from_option id]. rewrite ?Hname.
    rewrite (raw_text o Henc). unfold sdscatlen, append_events.
    repeat split; [by rewrite <- app_assoc|].
    apply map_eq. intros i. destruct (decide (i = l)) as [->|Hne].
    + rewrite lookup_alter_eq, lookup_insert_eq, Hl. simpl. by rewrite Hrc.
    + by rewrite lookup_alter_ne, lookup_insert_ne.
  - rewrite (bool_decide_eq_false_2 (refcount o = 1 ∧ _)) by done.
    destruct (unshare_shared s key l o Hl Hex) as [He Hx].
    rewrite ?He, ?Hx.
    assert (l ≠ fresh_loc (heap s)) as Hlf by done.
    autorewrite with mrun.
    cbn [heap dict expires reply dirty events set_heap set_dict set_events
         set_dirty set_reply].
    rewrite ?(lookup_insert_ne _ (fresh_loc (heap s)) key), ?Hko by done.
    cbn [default from_option id]. rewrite ?Hname, ?Hk.
    cbn [heap dict expires reply dirty events set_heap set_dict set_events
         set_dirty set_reply].
    heap_simp.
    rewrite ?(lookup_alter_ne _ _ (fresh_loc (heap s)) key) by done.
    rewrite ?(lookup_alter_ne _ _ l key) by done.
    rewrite ?(lookup_insert_ne _ (fresh_loc (heap s)) key), ?Hko by done.
    cbn [default from_option id]. rewrite ?Hname.
    unfold sdscatlen, append_events.
    repeat split; [by rewrite <- app_assoc|].
    apply map_eq. intros i.
    destruct (decide (i = fresh_loc (heap s))) as [->|Hne1].
    + rewrite lookup_alter_eq, lookup_alter_ne, !lookup_insert_eq by done.
      done.
    + rewrite lookup_alter_ne, (lookup_insert_ne _ _ i) by done.
      destruct (decide (i = l)) as [->|Hne2].
      * rewrite lookup_alter_eq, lookup_insert_eq, lookup_insert_ne, Hl by done.
        done.
      * by rewrite lookup_alter_ne, !lookup_insert_ne.
Qed.

Lemma append_absent (s : state) (key a : loc) :
  argv s !! 1%nat = Some key → argv s !! 2%nat = Some a →
  args_raw s → pool_ok s →
  dict s !! arg_text s 1 = None →
  let s' := exec appendCommand s in
  holds_string s' (arg_text s 1) (arg_text s 2)
  ∧ reply s' = reply s ++ [RLongLong (sdslen (arg_text s 2))]
  ∧ expires s' = expires s
  ∧ (∀ k', k' ≠ arg_text s 1 → dict s' !! k' = dict s !! k')
  ∧ bodies_kept s s'
  ∧ dirty s' = dirty s + 1
  ∧ events s' = events s ++ append_events (arg_text s 1).
Proof.
  intros Hkey Ha Hraw Hpool Hk. cbv zeta.
  destruct (arg_raw_text s 1 key Hraw Hkey) as (ko & Hko & Hkb).
  assert (ptr_sds ko = arg_text s 1) as Hname by (by apply ptr_sds_raw).
  destruct (encode_arg_outcome 2 s a Ha Hraw Hpool)
    as (e & oe & Hargv & He & Ht & Hty & Hd & Hx & Hr & Hdi & Hev & Hm & Hi & Hb).
  destruct (Hb key ko Hko) as (ko1 & Hko1 & Hkb1).
  assert (ptr_sds ko1 = arg_text s 1) as Hname1.
  { unfold ptr_sds. by rewrite Hkb1, Hkb. }
  unfold appendCommand.
  rewrite exec_bind, exec_arg, eval_arg, Hkey. cbn [default from_option id].
  rewrite exec_bind, exec_lookupKeyWrite, eval_lookupKeyWrite, eval_keyname,
    eval_getobj, Hko. cbn [default from_option id]. rewrite Hname, Hk.
  rewrite exec_bind.
  rewrite ?eval_bind, ?exec_bind, ?exec_arg.
  assert (exec (set_arg 2 (eval (tryObjectEncoding (eval (arg 2) s)) s))
            (exec (tryObjectEncoding (eval (arg 2) s)) s)
          = exec (encode_arg 2) s) as Henc.
  { unfold encode_arg. by rewrite !exec_bind, exec_arg. }
  rewrite !Henc. clear Henc.
  assert (eval (arg 2) (exec (encode_arg 2) s) = e) as ->.
  { rewrite eval_arg, Hargv, list_lookup_insert_eq; [done|].
    by eapply lookup_lt_Some. }
  revert Hargv He Hd Hx Hr Hdi Hev Hm Hi Hb Hko1.
  generalize (exec (encode_arg 2) s).
  intros s1 Hargv He Hd Hx Hr Hdi Hev Hm Hi Hb Hko1.
  autorewrite with mrun.
  cbn [heap dict expires reply dirty events set_heap set_dict set_events
       set_dirty set_reply].
  rewrite ?name_alter by done. rewrite ?Hko1.
  cbn [default from_option id]. rewrite ?Hname1.
  rewrite ?lookup_alter_eq, ?He.
  cbn [fmap option_fmap option_map default from_option id].
  unfold holds_string, stringObjectLen.
  cbn [heap dict expires reply dirty events set_heap set_dict set_events
       set_dirty set_reply text_of body].
  fold (text_of oe). rewrite ?Ht, ?Hd, ?Hx, ?Hr, ?Hdi, ?Hev.
  assert (text_of (mkObj (refcount oe + 1) (body oe)) = arg_text s 2) as Ht'.
  { by rewrite (text_of_body oe). }
  rewrite Ht'. unfold append_events.
  split; [|repeat split; try done].
  - exists e, (mkObj (refcount oe + 1) (body oe)).
    rewrite lookup_insert_eq, lookup_alter_eq, He.
    repeat split; [exact Hty|exact Ht'].
  - intros k' Hne. by rewrite lookup_insert_ne.
  - etrans; [exact Hb|]. etrans; [|by apply bodies_kept_heap].
    by apply (bodies_kept_alter _ e (set_dict <[arg_text s 1:=e]> s1)).
  - by rewrite <- app_assoc.
Qed.

(** X14: APPEND.  On a key that is not there it stores the
    argument as the value, as it is, and answers with its length.  On a
    value that is no string it answers with the wrong-type error and
    changes nothing else.  On a string, when old and new bytes together
    are at most 512 MB, the key then holds the old text followed by the
    bytes of the argument, in the object it held when that is a raw
    buffer with one holder and in a new object otherwise, and the answer
    is the new length.  In each case that stores, the expirations are
    untouched, no other key is touched, the counter of changes grows by
    one and the key is reported as modified. *)
Theorem append_outcome (s : state) (key a : loc) :
  args_raw s → pool_ok s →
  argv s !! 1%nat = Some key → argv s !! 2%nat = Some a →
  let k := arg_text s 1 in
  let s' := exec appendCommand s in
  (dict s !! k = None →
     holds_string s' k (arg_text s 2)
     ∧ reply s' = reply s ++ [RLongLong (sdslen (arg_text s 2))]
     ∧ bodies_kept s s')
  ∧ (∀ l o, dict s !! k = Some l → heap s !! l = Some o →
            type o ≠ OBJ_STRING →
            s' = set_reply (λ r, r ++ [WrongType]) s)
  ∧ (∀ l o, dict s !! k = Some l → heap s !! l = Some o →
            type o = OBJ_STRING → key ≠ l →
            sdslen (text_of o) + sdslen (arg_text s 2) ≤ 512 * 1024 * 1024 →
            holds_string s' k (text_of o ++ arg_text s 2)
            ∧ reply s'
              = reply s ++ [RLongLong (sdslen (text_of o ++ arg_text s 2))]
            ∧ others_kept l s s')
  ∧ ((dict s !! k = None
      ∨ ∃ l o, dict s !! k = Some l ∧ heap s !! l = Some o
               ∧ type o = OBJ_STRING ∧ key ≠ l
               ∧ sdslen (text_of o) + sdslen (arg_text s 2)
                 ≤ 512 * 1024 * 1024) →
     expires s' = expires s
     ∧ (∀ k', k' ≠ k → dict s' !! k' = dict s !! k')
     ∧ dirty s' = dirty s + 1
     ∧ events s' = events s ++ append_events k).
Proof.
  intros Hraw Hpool Hkey Ha. cbv zeta.
  destruct (arg_raw_text s 1 key Hraw Hkey) as (ko & Hko & Hkb).
  assert (ptr_sds ko = arg_text s 1) as Hname by (by apply ptr_sds_raw).
  destruct (arg_raw_text s 2 a Hraw Ha) as (ao & Hao & Hab).
  assert (ptr_sds ao = arg_text s 2) as Hdata by (by apply ptr_sds_raw).
  assert (∀ l o, dict s !! arg_text s 1 = Some l → heap s !! l = Some o →
                 type o = OBJ_STRING → key ≠ l →
                 sdslen (text_of o) + sdslen (arg_text s 2)
                 ≤ 512 * 1024 * 1024 →
                 (holds_string (exec appendCommand s) (arg_text s 1)
                    (text_of o ++ arg_text s 2)
                  ∧ reply (exec appendCommand s)
                    = reply s
                      ++ [RLongLong (sdslen (text_of o ++ arg_text s 2))]
                  ∧ others_kept l s (exec appendCommand s))
                 ∧ expires (exec appendCommand s) = expires s
                 ∧ (∀ k', k' ≠ arg_text s 1 →
                          dict (exec appendCommand s) !! k' = dict s !! k')
                 ∧ dirty (exec appendCommand s) = dirty s + 1
                 ∧ events (exec appendCommand s)
                   = events s ++ append_events (arg_text s 1)) as Hpresent.
  { intros l o Hd Hl Hty Hkl Hlen.
    pose proof (append_present s key l a ko o ao (arg_text s 1) (arg_text s 2)
                  Hkey Hko Hname Hd Hl Hty Hkl Ha Hao Hdata Hlen) as Hp.
    cbv zeta in Hp. destruct Hp as (Hx & Hr & Hdi & Hev & Hp).
    pose proof (fresh_loc_ne (heap s) l (ex_intro _ _ Hl)) as Hfl.
    unfold holds_string, others_kept.
    case_bool_decide as Hown; destruct Hp as [Hh Hdict];
      rewrite Hh, Hdict; repeat split; try done.
    - exists l, (mkObj 1 (RawVal (text_of o ++ arg_text s 2))).
      by rewrite Hd, lookup_insert_eq.
    - intros l2 o2 Hne Hl2. rewrite lookup_insert_ne by done. eauto.
    - exists (fresh_loc (heap s)),
        (mkObj 1 (RawVal (text_of o ++ arg_text s 2))).
      by rewrite !lookup_insert_eq.
    - intros l2 o2 Hne Hl2.
      pose proof (fresh_loc_ne (heap s) l2 (ex_intro _ _ Hl2)).
      rewrite !lookup_insert_ne by done. eauto.
    - intros k' Hne. by rewrite lookup_insert_ne. }
  pose proof (append_absent s key a Hkey Ha Hraw Hpool) as Habsent.
  cbv zeta in Habsent.
  split; [|split; [|split]].
  - intros Hd. destruct (Habsent Hd) as (H1 & H2 & _ & _ & H5 & _). done.
  - intros l o Hd Hl Hty.
    unfold appendCommand.
    rewrite exec_bind, exec_arg, eval_arg, Hkey. cbn [default from_option id].
    rewrite exec_bind, exec_lookupKeyWrite, eval_lookupKeyWrite, eval_keyname,
      eval_getobj, Hko. cbn [default from_option id]. rewrite Hname, Hd.
    rewrite exec_bind.
    rewrite ?eval_bind, ?exec_bind, ?exec_getobj, ?eval_getobj, ?Hl.
    cbn [default from_option id].
    by rewrite ?eval_checkType_other, ?exec_checkType_other by done.
  - intros l o Hd Hl Hty Hkl Hlen.
    by destruct (Hpresent l o Hd Hl Hty Hkl Hlen) as [? _].
  - intros [Hd|(l & o & Hd & Hl & Hty & Hkl & Hlen)].
    + destruct (Habsent Hd) as (_ & _ & H3 & H4 & _ & H6 & H7). done.
    + by destruct (Hpresent l o Hd Hl Hty Hkl Hlen) as [_ ?].
Qed.

Lemma append_outcome_witness :
  value_of append_state (str "k") = Some (str "123")
  ∧ value_of (exec appendCommand append_state) (str "k") = Some (str "12345")
  ∧ reply (exec appendCommand append_state) = [RLongLong 5]
  ∧ expires (exec appendCommand append_state) = expires append_state.
Proof.
  split; [vm_compute; reflexivity|].
  destruct (append_outcome append_state 7%positive 8%positive)
    as (_ & _ & Happ & Hrest);
    [args_raw_tac|pool_ok_tac|reflexivity|reflexivity|].
  cbv zeta in Happ, Hrest.
  destruct (Happ 5%positive (mkObj 1 (IntVal 123))) as (Hv & Hr & _);
    [vm_compute; reflexivity|vm_compute; reflexivity|reflexivity|done
    |vm_compute; discriminate|].
  destruct Hrest as (Hx & _).
  { right. exists 5%positive, (mkObj 1 (IntVal 123)).
    repeat split; try (vm_compute; reflexivity); [done|].
    vm_compute; discriminate. }
  split; [exact (holds_string_value _ _ _ Hv)|]. split; [exact Hr|exact Hx].
Defined.

(** ** INCR, DECR, INCRBY, DECRBY *)

Lemma incrDecr_wrong_type (s : state) (d : Z) (k : sds) (l : loc) (o : robj) :
  key_holds s k l o → type o ≠ OBJ_STRING →
  exec (incrDecrCommand d) s = set_reply (λ r, r ++ [WrongType]) s.
Proof.
  intros (key & ko & Hkey & Hko & Hname & Hk & Hl) Ht.
  unfold incrDecrCommand.
  rewrite exec_bind, exec_arg, eval_arg, Hkey. cbn [default from_option id].
  rewrite exec_bind, exec_lookupKeyWrite, eval_lookupKeyWrite, eval_keyname,
    eval_getobj, Hko. cbn [default from_option id]. rewrite Hname, Hk.
  rewrite exec_bind, eval_bind, exec_bind, exec_getobj, eval_getobj, Hl.
  cbn [default from_option id].
  by rewrite eval_checkType_other, exec_checkType_other.
Qed.

Lemma incrDecr_not_number (s : state) (d : Z) (k : sds) (l : loc) (o : robj) :
  key_holds s k l o → type o = OBJ_STRING → number_of o = None →
  exec (incrDecrCommand d) s = set_reply (λ r, r ++ [NotANumber]) s.
Proof.
  intros (key & ko & Hkey & Hko & Hname & Hk & Hl) Ht Hn.
  unfold incrDecrCommand.
  rewrite exec_bind, exec_arg, eval_arg, Hkey. cbn [default from_option id].
  rewrite exec_bind, exec_lookupKeyWrite, eval_lookupKeyWrite, eval_keyname,
    eval_getobj, Hko. cbn [default from_option id]. rewrite Hname, Hk.
  rewrite exec_bind, eval_bind, exec_bind, exec_getobj, eval_getobj, Hl.
  cbn [default from_option id].
  rewrite eval_checkType_string, exec_checkType_string by done.
  rewrite exec_bind, eval_getLongLongFromObjectOrReply,
    exec_getLongLongFromObjectOrReply, (eval_getLongLongFromObject l o), Hn
    by done.
  done.
Qed.

Lemma counter_arg_not_number `{LongDouble} (c : command) (s : state) :
  c = INCRBY ∨ c = DECRBY → arg_not_number s 2 →
  exec (run c) s = set_reply (λ r, r ++ [NotANumber]) s.
Proof.
  intros Hc Ha. pose proof (eval_arg_not_number s 2 Ha) as Hn.
  destruct Hc as [-> | ->]; cbn [run];
    unfold incrbyCommand, decrbyCommand;
    rewrite exec_bind, exec_arg, exec_bind, eval_getLongLongFromObjectOrReply,
      exec_getLongLongFromObjectOrReply, Hn; done.
Qed.

(** X15: INCR, DECR, INCRBY and DECRBY, adding the amount [d].
    A key that is not there counts as 0 and then holds [d].  A key that
    holds the integer [v] then holds [v + d] when that is a signed 64-bit
    integer.  In both cases the value is a string whose text is the
    decimal text of the number, the expirations are untouched and no
    other key is touched.  A value that is no string is answered with the
    wrong-type error and a string that is no integer with the
    not-an-integer error, as is an amount that is no integer; nothing
    else changes then. *)
Theorem counter_outcome `{LongDouble} (c : command) (s : state) (k : sds) :
  (∀ d, counter_delta c s = Some d → LLONG_MIN ≤ d ≤ LLONG_MAX →
     (key_absent s k →
        holds_string (exec (run c) s) k (ll2string d)
        ∧ expires (exec (run c) s) = expires s
        ∧ ∀ k', k' ≠ k → dict (exec (run c) s) !! k' = dict s !! k')
     ∧ (∀ l o v, key_holds s k l o → number_of o = Some v →
          LLONG_MIN ≤ v ≤ LLONG_MAX → LLONG_MIN ≤ v + d ≤ LLONG_MAX →
          holds_string (exec (run c) s) k (ll2string (v + d))
          ∧ expires (exec (run c) s) = expires s
          ∧ ∀ k', k' ≠ k → dict (exec (run c) s) !! k' = dict s !! k')
     ∧ (∀ l o, key_holds s k l o → type o ≠ OBJ_STRING →
          exec (run c) s = set_reply (λ r, r ++ [WrongType]) s)
     ∧ (∀ l o, key_holds s k l o → type o = OBJ_STRING →
          number_of o = None →
          exec (run c) s = set_reply (λ r, r ++ [NotANumber]) s))
  ∧ (c = INCRBY ∨ c = DECRBY → arg_not_number s 2 →
     exec (run c) s = set_reply (λ r, r ++ [NotANumber]) s).
Proof.
  split; [|apply counter_arg_not_number].
  intros d Hc Hd. rewrite (run_counter c s d Hc).
  split; [|split; [|split]].
  - intros Hk. destruct (incrDecr_absent s d k Hk Hd) as (Hh & Hdict & Hx & _).
    split; [|split; [done|]].
    + exists (fresh_loc (heap s)), (mkObj 1 (IntVal d)).
      by rewrite Hh, Hdict, !lookup_insert_eq.
    + intros k' Hne. by rewrite Hdict, lookup_insert_ne.
  - intros l o v Hk Hn Hv Hsum.
    pose proof Hk as (key & ko & Hkey & Hko & Hname & Hdk & Hl).
    destruct (decide (refcount o = 1 ∧ encoding o = OBJ_ENCODING_INT
                      ∧ ¬ (0 ≤ v + d < OBJ_SHARED_INTEGERS)))
      as [(Hrc & Henc & Hpool)|Hnot].
    + destruct (incrDecr_inplace s d v k l o) as (Hh & Hdict & Hx & _);
        try done.
      split; [|split; [done|]].
      * exists l, (mkObj 1 (IntVal (v + d))).
        by rewrite Hh, Hdict, Hdk, lookup_insert_eq.
      * intros k' Hne. by rewrite Hdict.
    + destruct (incrDecr_fresh s d v k l o) as (Hh & Hdict & Hx & _);
        try done.
      pose proof (fresh_loc_ne (heap s) l (ex_intro _ _ Hl)).
      split; [|split; [done|]].
      * exists (fresh_loc (heap s)), (mkObj 1 (IntVal (v + d))).
        rewrite Hh, Hdict, lookup_insert_eq, lookup_insert_ne,
          lookup_insert_eq by done. done.
      * intros k' Hne. by rewrite Hdict, lookup_insert_ne.
  - intros l o Hk Ht. by apply (incrDecr_wrong_type s d k l o).
  - intros l o Hk Ht Hn. by apply (incrDecr_not_number s d k l o).
Qed.

Lemma counter_outcome_witness :
  value_of decrby_state (str "k") = Some (str "10")
  ∧ value_of (exec decrbyCommand decrby_state) (str "k") = Some (str "-20")
  ∧ expires (exec decrbyCommand decrby_state) = expires decrby_state
  ∧ exec incrCommand incr_text_state
    = set_reply (λ r, r ++ [NotANumber]) incr_text_state.
Proof.
  split; [vm_compute; reflexivity|].
  destruct (counter_outcome (H := decimal_long_double) DECRBY decrby_state
              (str "k")) as [Hd _].
  destruct (Hd (-30)) as (_ & Hnum & _);
    [vm_compute; reflexivity|unfold LLONG_MIN, LLONG_MAX; lia|].
  destruct (Hnum 5%positive (mkObj 1 (IntVal 10)) 10) as (Hv & Hx & _).
  { exists 7%positive, (mkObj 1 (RawVal (str "k"))).
    repeat split; vm_compute; reflexivity. }
  { reflexivity. }
  { unfold LLONG_MIN, LLONG_MAX; lia. }
  { unfold LLONG_MIN, LLONG_MAX; lia. }
  split; [exact (holds_string_value _ _ _ Hv)|]. split; [exact Hx|].
  destruct (counter_outcome (H := decimal_long_double) INCR incr_text_state
              (str "k")) as [Hi _].
  destruct (Hi 1) as (_ & _ & _ & Hnan);
    [reflexivity|unfold LLONG_MIN, LLONG_MAX; lia|].
  apply (Hnan 3%positive (mkObj 1 (RawVal (str "abc")))).
  - exists 5%positive, (mkObj 1 (RawVal (str "k"))).
    repeat split; vm_compute; reflexivity.
  - reflexivity.
  - vm_compute; reflexivity.
Defined.

(** ** INCRBYFLOAT *)

Section incrbyfloat_proofs.
Context `{LD : LongDouble}.

Lemma eval_getLongDouble (l : loc) (o : robj) (s : state) :
  heap s !! l = Some o →
  eval (getLongDoubleFromObjectOrReply (Some l)) s = ld_read o
  ∧ exec (getLongDoubleFromObjectOrReply (Some l)) s
    = match ld_read o with
      | Some _ => s
      | None => set_reply (λ r, r ++ [NotAFloat]) s
      end.
Proof.
  intros Hl. unfold getLongDoubleFromObjectOrReply, ld_read.
  rewrite eval_bind, exec_bind, exec_getobj, eval_getobj, Hl.
  cbn [default from_option id].
  destruct (body o) as [t|n|x]; [|done|done].
  destruct (strtold t) as [x|]; [|done]. by destruct (isnan x).
Qed.

Lemma incrbyfloat_start (s : state) (key a : loc) (ko ao : robj) (k : sds) :
  argv s !! 1%nat = Some key → heap s !! key = Some ko → ptr_sds ko = k →
  argv s !! 2%nat = Some a → heap s !! a = Some ao →
  (∀ l, dict s !! k = Some l → ∃ o, heap s !! l = Some o ∧ type o = OBJ_STRING) →
  ∀ x y, float_start s k = Some x → ld_read ao = Some y →
  isnan (ld_add x y) || isinf (ld_add x y) = false →
  exec incrbyfloatCommand s
  = exec (new ← createStringObjectFromLongDouble (ld_add x y);
          match dict s !! k with
          | Some _ => dbOverwrite key new
          | None => dbAdd key new
          end;;
          signalModifiedKey key;;
          notifyKeyspaceEvent NOTIFY_STRING "incrbyfloat" key;;
          modify (set_dirty (λ d, d + 1));;
          addReplyBulk new;;
          aux ← createStringObject (str "SET");
          rewriteClientCommandArgument 0 aux;;
          decrRefCount aux;;
          rewriteClientCommandArgument 2 new) s.
Proof.
  intros Hkey Hko Hname Ha Hao Hstr x y Hx Hy Hfin.
  unfold incrbyfloatCommand, float_start in *.
  rewrite exec_bind, exec_arg, eval_arg, Hkey. cbn [default from_option id].
  rewrite exec_bind, exec_lookupKeyWrite, eval_lookupKeyWrite, eval_keyname,
    eval_getobj, Hko. cbn [default from_option id]. rewrite Hname.
  destruct (dict s !! k) as [l|] eqn:Hd.
  - destruct (Hstr l eq_refl) as (o & Hl & Hty).
    rewrite eval_getobj, Hl in Hx. cbn [default from_option id] in Hx.
    rewrite exec_bind, eval_bind, exec_bind, exec_getobj, eval_getobj, Hl.
    cbn [default from_option id].
    rewrite eval_checkType_string, exec_checkType_string by done.
    destruct (eval_getLongDouble l o s Hl) as [E1 E2].
    rewrite exec_bind, E1, E2, Hx.
    rewrite exec_bind, exec_arg, eval_arg, Ha. cbn [default from_option id].
    destruct (eval_getLongDouble a ao s Hao) as [E3 E4].
    rewrite exec_bind, E3, E4, Hy. cbv zeta. by rewrite Hfin.
  - injection Hx as <-.
    rewrite exec_bind, eval_ret, exec_ret.
    rewrite exec_bind.
    change (eval (getLongDoubleFromObjectOrReply None) s)
      with (Some (ld_of_long 0)).
    change (exec (getLongDoubleFromObjectOrReply None) s) with s.
    cbv beta iota.
    rewrite exec_bind, exec_arg, eval_arg, Ha. cbn [default from_option id].
    destruct (eval_getLongDouble a ao s Hao) as [E3 E4].
    rewrite exec_bind, E3, E4, Hy. cbv zeta. by rewrite Hfin.
Qed.

Lemma text_alter (h : gmap loc robj) (f : robj → robj) (l key : loc) :
  (∀ o, body (f o) = body o) →
  text_of (default (mkObj 0 (OtherVal 0)) (alter f l h !! key))
  = text_of (default (mkObj 0 (OtherVal 0)) (h !! key)).
Proof.
  intros Hf. destruct (decide (l = key)) as [->|Hne].
  - rewrite lookup_alter_eq. destruct (h !! key) as [o|]; [|done].
    cbn [fmap option_fmap option_map default from_option id].
    unfold text_of. by rewrite Hf.
  - by rewrite lookup_alter_ne.
Qed.

Lemma text_getobj_alter (s : state) (f : robj → robj) (l x : loc) :
  (∀ o, body (f o) = body o) →
  text_of (eval (getobj x) (set_heap (alter f l) s))
  = text_of (eval (getobj x) s).
Proof. intros Hf. rewrite !eval_getobj. by apply text_alter. Qed.

(** [rewriteClientCommandArgument]: the argument is replaced, no object
    changes its text, and the name of the command follows a new first
    argument. *)
Lemma rewrite_fields (i : nat) (newval : loc) (s : state) :
  let s' := exec (rewriteClientCommandArgument i newval) s in
  argv s' = <[i := newval]> (argv s)
  ∧ (∀ x, text_of (eval (getobj x) s') = text_of (eval (getobj x) s))
  ∧ cmd s' = (if bool_decide (i = O)
              then String.string_of_list_byte
                     (lower <$> text_of (eval (getobj newval) s))
              else cmd s)
  ∧ dirty s' = dirty s ∧ events s' = events s ∧ reply s' = reply s.
Proof.
  cbv zeta. unfold rewriteClientCommandArgument.
  rewrite !exec_bind, exec_incrRefCount, exec_arg, exec_set_arg,
    exec_decrRefCount.
  case_bool_decide.
  - rewrite exec_bind, exec_getobj, exec_modify, !eval_getobj.
    cbn [heap argv cmd dirty events reply set_heap set_argv set_cmd].
    split; [done|]. split.
    { intros x. rewrite !eval_getobj.
      cbn [heap set_heap set_argv set_cmd]. by rewrite !text_alter. }
    by rewrite !text_alter.
  - autorewrite with mrun.
    cbn [heap argv cmd dirty events reply set_heap set_argv set_cmd].
    split; [done|]. split; [|done].
    intros x. rewrite !eval_getobj.
    cbn [heap set_heap set_argv set_cmd]. by rewrite !text_alter.
Qed.

(** What follows the store in [incrbyfloatCommand]: the events, the
    reply, and the rewriting of the command. *)
Lemma incrbyfloat_tail (s2 : state) (c0 key a new : loc) (ko : robj)
    (k text : sds) :
  argv s2 = [c0; key; a] → heap s2 !! key = Some ko → body ko = RawVal k →
  heap s2 !! new = Some (mkObj 1 (RawVal text)) →
  let s' := exec (signalModifiedKey key;;
                  notifyKeyspaceEvent NOTIFY_STRING "incrbyfloat" key;;
                  modify (set_dirty (λ d, d + 1));;
                  addReplyBulk new;;
                  aux ← createStringObject (str "SET");
                  rewriteClientCommandArgument 0 aux;;
                  decrRefCount aux;;
                  rewriteClientCommandArgument 2 new) s2 in
  dict s' = dict s2 ∧ expires s' = expires s2
  ∧ bodies_kept s2 s'
  ∧ dirty s' = dirty s2 + 1
  ∧ events s' = events s2 ++ incrbyfloat_events k
  ∧ reply s' = reply s2 ++ [RBulk text]
  ∧ argv_text s' = [str "SET"; k; text]
  ∧ cmd s' = "set"%string.
Proof.
  intros Hargv Hko Hkb Hnew. cbv zeta.
  assert (ptr_sds ko = k) as Hname by (by apply ptr_sds_raw).
  split; [|split; [|split]].
  { assert (preserves (same dict)
              (signalModifiedKey key;;
               notifyKeyspaceEvent NOTIFY_STRING "incrbyfloat" key;;
               modify (set_dirty (λ d, d + 1));;
               addReplyBulk new;;
               aux ← createStringObject (str "SET");
               rewriteClientCommandArgument 0 aux;;
               decrRefCount aux;;
               rewriteClientCommandArgument 2 new)) as Hp by frame.
    apply Hp. }
  { assert (preserves (same expires)
              (signalModifiedKey key;;
               notifyKeyspaceEvent NOTIFY_STRING "incrbyfloat" key;;
               modify (set_dirty (λ d, d + 1));;
               addReplyBulk new;;
               aux ← createStringObject (str "SET");
               rewriteClientCommandArgument 0 aux;;
               decrRefCount aux;;
               rewriteClientCommandArgument 2 new)) as Hp by frame.
    apply Hp. }
  { assert (preserves bodies_kept
              (signalModifiedKey key;;
               notifyKeyspaceEvent NOTIFY_STRING "incrbyfloat" key;;
               modify (set_dirty (λ d, d + 1));;
               addReplyBulk new;;
               aux ← createStringObject (str "SET");
               rewriteClientCommandArgument 0 aux;;
               decrRefCount aux;;
               rewriteClientCommandArgument 2 new)) as Hp by frame.
    apply Hp. }
  rewrite !exec_bind.
  set (s3 := exec (addReplyBulk new) _).
  assert (heap s3 = heap s2 ∧ argv s3 = argv s2
          ∧ dirty s3 = dirty s2 + 1
          ∧ events s3 = events s2 ++ incrbyfloat_events k
          ∧ reply s3 = reply s2 ++ [RBulk text])
    as (Hh3 & Ha3 & Hd3 & He3 & Hr3).
  { subst s3. autorewrite with mrun.
    cbn [heap dict expires reply dirty events argv cmd set_heap set_dict
         set_events set_dirty set_reply set_argv set_cmd].
    rewrite Hko, Hnew. cbn [default from_option id]. rewrite Hname.
    unfold incrbyfloat_events. by rewrite <- app_assoc. }
  clearbody s3.
  rewrite eval_createStringObject, exec_createStringObject.
  set (aux := fresh_loc (heap s3)).
  set (s4 := set_heap _ s3).
  destruct (rewrite_fields 0 aux s4) as (Ha5 & Ht5 & Hc5 & Hd5 & He5 & Hr5).
  set (s5 := exec (rewriteClientCommandArgument 0 aux) s4) in *.
  clearbody s5.
  rewrite exec_decrRefCount.
  destruct (rewrite_fields 2 new (set_heap
              (alter (λ o, mkObj (refcount o - 1) (body o)) aux) s5))
    as (Ha7 & Ht7 & Hc7 & Hd7 & He7 & Hr7).
  set (s7 := exec (rewriteClientCommandArgument 2 new) _) in *.
  clearbody s7.
  cbn [argv cmd dirty events reply set_heap] in Ha7, Hc7, Hd7, He7, Hr7.
  change (dirty s4) with (dirty s3) in Hd5.
  change (events s4) with (events s3) in He5.
  change (reply s4) with (reply s3) in Hr5.
  change (argv s4) with (argv s3) in Ha5.
  assert (∀ x, text_of (eval (getobj x) s7) = text_of (eval (getobj x) s4))
    as Ht.
  { intros x. rewrite Ht7, <- Ht5. by apply text_getobj_alter. }
  assert (aux ≠ key) as Hfk.
  { unfold aux. rewrite Hh3. apply fresh_loc_ne. by exists ko. }
  assert (aux ≠ new) as Hfn.
  { unfold aux. rewrite Hh3. apply fresh_loc_ne. by eexists. }
  assert (text_of (eval (getobj aux) s4) = str "SET") as Haux.
  { unfold s4. rewrite eval_getobj. cbn [heap set_heap].
    by rewrite lookup_insert_eq. }
  split; [by rewrite Hd7, Hd5, Hd3|].
  split; [by rewrite He7, He5, He3|].
  split; [by rewrite Hr7, Hr5, Hr3|].
  split.
  - unfold argv_text. rewrite Ha7, Ha5, Ha3, Hargv.
    cbn [fmap list_fmap list_insert insert]. rewrite !Ht, Haux.
    unfold s4. rewrite !eval_getobj. cbn [heap set_heap].
    rewrite !lookup_insert_ne, Hh3, Hko, Hnew by done.
    cbn [default from_option id]. by rewrite (text_of_raw ko k Hkb).
  - rewrite Hc7, Hc5, Haux. vm_compute. reflexivity.
Qed.

Lemma incrbyfloat_store (s : state) (key : loc) (ko : robj) (k text : sds) :
  heap s !! key = Some ko → ptr_sds ko = k →
  (∀ l, dict s !! k = Some l → is_Some (heap s !! l)) →
  let new := fresh_loc (heap s) in
  let s2 := exec (match dict s !! k with
                  | Some _ => dbOverwrite key new
                  | None => dbAdd key new
                  end)
              (set_heap <[new := mkObj 1 (RawVal text)]> s) in
  dict s2 = <[k := new]> (dict s) ∧ expires s2 = expires s
  ∧ dirty s2 = dirty s ∧ events s2 = events s ∧ reply s2 = reply s
  ∧ argv s2 = argv s ∧ bodies_kept s s2
  ∧ heap s2 !! new = Some (mkObj 1 (RawVal text)).
Proof.
  intros Hko Hname Hthere. cbv zeta.
  pose proof (fresh_loc_ne (heap s) key (ex_intro _ _ Hko)) as Hfk.
  destruct (dict s !! k) as [l|] eqn:Hd.
  - pose proof (fresh_loc_ne (heap s) l (Hthere l eq_refl)) as Hfl.
    autorewrite with mrun.
    cbn [heap dict expires reply dirty events argv set_heap set_dict].
    rewrite (lookup_insert_ne _ (fresh_loc (heap s)) key), Hko by done.
    cbn [default from_option id]. rewrite Hname, Hd.
    cbn [heap dict expires reply dirty events argv set_heap set_dict].
    repeat split.
    + etrans; [apply (bodies_kept_alloc (mkObj 1 (RawVal text)))|].
      etrans; [|by apply (bodies_kept_alter _ l)].
      by apply bodies_kept_heap.
    + by rewrite lookup_alter_ne, lookup_insert_eq.
  - autorewrite with mrun.
    cbn [heap dict expires reply dirty events argv set_heap set_dict].
    rewrite (lookup_insert_ne _ (fresh_loc (heap s)) key), Hko by done.
    cbn [default from_option id]. rewrite Hname.
    repeat split.
    + etrans; [apply (bodies_kept_alloc (mkObj 1 (RawVal text)))|].
      by apply bodies_kept_heap.
    + by rewrite lookup_insert_eq.
Qed.

Lemma incrbyfloat_errors (s : state) (key a : loc) (ko ao : robj) (k : sds) :
  argv s !! 1%nat = Some key → heap s !! key = Some ko → ptr_sds ko = k →
  argv s !! 2%nat = Some a → heap s !! a = Some ao →
  (∀ l o, dict s !! k = Some l → heap s !! l = Some o →
          type o ≠ OBJ_STRING →
          exec incrbyfloatCommand s = set_reply (λ r, r ++ [WrongType]) s)
  ∧ ((∀ l, dict s !! k = Some l →
           ∃ o, heap s !! l = Some o ∧ type o = OBJ_STRING) →
     (float_start s k = None ∨ ld_read ao = None →
        exec incrbyfloatCommand s = set_reply (λ r, r ++ [NotAFloat]) s)
     ∧ (∀ x y, float_start s k = Some x → ld_read ao = Some y →
          isnan (ld_add x y) || isinf (ld_add x y) = true →
          exec incrbyfloatCommand s
          = set_reply (λ r, r ++ [NaNOrInfinity]) s)).
Proof.
  intros Hkey Hko Hname Ha Hao.
  assert (∀ {A} (f : loc → M A),
            exec (key ← arg 1; f key) s = exec (f key) s) as Hk1.
  { intros A f. rewrite exec_bind, exec_arg, eval_arg, Hkey. done. }
  assert (eval (lookupKeyWrite key) s = dict s !! k) as Hlook.
  { rewrite eval_lookupKeyWrite, eval_keyname, eval_getobj, Hko.
    cbn [default from_option id]. by rewrite Hname. }
  destruct (eval_getLongDouble a ao s Hao) as [E3 E4].
  split.
  - intros l o Hd Hl Hty. unfold incrbyfloatCommand.
    rewrite Hk1, exec_bind, exec_lookupKeyWrite, Hlook, Hd.
    rewrite exec_bind, eval_bind, exec_bind, exec_getobj, eval_getobj, Hl.
    cbn [default from_option id].
    by rewrite eval_checkType_other, exec_checkType_other.
  - intros Hstr.
    assert (exec incrbyfloatCommand s
            = match float_start s k with
              | None => set_reply (λ r, r ++ [NotAFloat]) s
              | Some x =>
                  match ld_read ao with
                  | None => set_reply (λ r, r ++ [NotAFloat]) s
                  | Some y =>
                      if isnan (ld_add x y) || isinf (ld_add x y)
                      then set_reply (λ r, r ++ [NaNOrInfinity]) s
                      else exec incrbyfloatCommand s
                  end
              end) as Hrun.
    { destruct (float_start s k) as [x|] eqn:Hx.
      2:{ unfold incrbyfloatCommand, float_start in *.
          rewrite Hk1, exec_bind, exec_lookupKeyWrite, Hlook.
          destruct (dict s !! k) as [l|] eqn:Hd; [|done].
          destruct (Hstr l eq_refl) as (o & Hl & Hty).
          rewrite eval_getobj, Hl in Hx. cbn [default from_option id] in Hx.
          rewrite exec_bind, eval_bind, exec_bind, exec_getobj, eval_getobj, Hl.
          cbn [default from_option id].
          rewrite eval_checkType_string, exec_checkType_string by done.
          destruct (eval_getLongDouble l o s Hl) as [E1 E2].
          by rewrite exec_bind, E1, E2, Hx. }
      destruct (ld_read ao) as [y|] eqn:Hy.
      2:{ unfold incrbyfloatCommand, float_start in *.
          rewrite Hk1, exec_bind, exec_lookupKeyWrite, Hlook.
          destruct (dict s !! k) as [l|] eqn:Hd.
          - destruct (Hstr l eq_refl) as (o & Hl & Hty).
            rewrite eval_getobj, Hl in Hx. cbn [default from_option id] in Hx.
            rewrite exec_bind, eval_bind, exec_bind, exec_getobj, eval_getobj,
              Hl.
            cbn [default from_option id].
            rewrite eval_checkType_string, exec_checkType_string by done.
            destruct (eval_getLongDouble l o s Hl) as [E1 E2].
            rewrite exec_bind, E1, E2, Hx.
            rewrite exec_bind, exec_arg, eval_arg, Ha.
            cbn [default from_option id].
            by rewrite exec_bind, E3, E4.
          - rewrite exec_bind, eval_ret, exec_ret. rewrite exec_bind.
            change (eval (getLongDoubleFromObjectOrReply None) s)
              with (Some (ld_of_long 0)).
            change (exec (getLongDoubleFromObjectOrReply None) s) with s.
            cbv beta iota.
            rewrite exec_bind, exec_arg, eval_arg, Ha.
            cbn [default from_option id].
            by rewrite exec_bind, E3, E4. }
      destruct (isnan (ld_add x y) || isinf (ld_add x y)) eqn:Hfin; [|done].
      unfold incrbyfloatCommand, float_start in *.
      rewrite Hk1, exec_bind, exec_lookupKeyWrite, Hlook.
      destruct (dict s !! k) as [l|] eqn:Hd.
      - destruct (Hstr l eq_refl) as (o & Hl & Hty).
        rewrite eval_getobj, Hl in Hx. cbn [default from_option id] in Hx.
        rewrite exec_bind, eval_bind, exec_bind, exec_getobj, eval_getobj, Hl.
        cbn [default from_option id].
        rewrite eval_checkType_string, exec_checkType_string by done.
        destruct (eval_getLongDouble l o s Hl) as [E1 E2].
        rewrite exec_bind, E1, E2, Hx.
        rewrite exec_bind, exec_arg, eval_arg, Ha.
        cbn [default from_option id].
        rewrite exec_bind, E3, E4. cbv zeta. by rewrite Hfin.
      - injection Hx as <-.
        rewrite exec_bind, eval_ret, exec_ret. rewrite exec_bind.
        change (eval (getLongDoubleFromObjectOrReply None) s)
          with (Some (ld_of_long 0)).
        change (exec (getLongDoubleFromObjectOrReply None) s) with s.
        cbv beta iota.
        rewrite exec_bind, exec_arg, eval_arg, Ha.
        cbn [default from_option id].
        rewrite exec_bind, E3, E4. cbv zeta. by rewrite Hfin. }
    split.
    + intros [Hx|Hy]; rewrite Hrun; [by rewrite Hx|].
      rewrite Hy. by destruct (float_start s k).
    + intros x y Hx Hy Hfin. rewrite Hrun, Hx, Hy, Hfin. done.
Qed.

(** X16: INCRBYFLOAT with any arithmetic of long doubles.  A
    value that is no string is answered with the wrong-type error; a
    value or an increment that does not read as a number with the
    not-a-float error; a sum that is not a number or is infinite with
    the error for that; nothing else changes then.  Otherwise the key
    holds a new string object with the text of the sum, the answer is
    that text, the expirations are untouched, no other key is touched, no
    object loses its content, the counter of changes grows by one, the
    key is reported as modified, and the command is rewritten for the
    log into an unconditional SET of that text to the key. *)
Theorem incrbyfloat_outcome (s : state) (c0 key a : loc) (ko ao : robj)
    (k : sds) :
  argv s = [c0; key; a] → heap s !! key = Some ko → body ko = RawVal k →
  heap s !! a = Some ao →
  (∀ l o, dict s !! k = Some l → heap s !! l = Some o →
          type o ≠ OBJ_STRING →
          exec incrbyfloatCommand s = set_reply (λ r, r ++ [WrongType]) s)
  ∧ ((∀ l, dict s !! k = Some l →
           ∃ o, heap s !! l = Some o ∧ type o = OBJ_STRING) →
     (float_start s k = None ∨ ld_read ao = None →
        exec incrbyfloatCommand s = set_reply (λ r, r ++ [NotAFloat]) s)
     ∧ (∀ x y, float_start s k = Some x → ld_read ao = Some y →
          if isnan (ld_add x y) || isinf (ld_add x y) then
            exec incrbyfloatCommand s
            = set_reply (λ r, r ++ [NaNOrInfinity]) s
          else
            let text := ld2string (ld_add x y) in
            let s' := exec incrbyfloatCommand s in
            holds_string s' k text
            ∧ reply s' = reply s ++ [RBulk text]
            ∧ argv_text s' = [str "SET"; k; text]
            ∧ cmd s' = "set"%string
            ∧ expires s' = expires s
            ∧ (∀ k', k' ≠ k → dict s' !! k' = dict s !! k')
            ∧ bodies_kept s s'
            ∧ dirty s' = dirty s + 1
            ∧ events s' = events s ++ incrbyfloat_events k)).
Proof.
  intros Hargv Hko Hkb Hao.
  assert (ptr_sds ko = k) as Hname by (by apply ptr_sds_raw).
  assert (argv s !! 1%nat = Some key) as Hkey by (by rewrite Hargv).
  assert (argv s !! 2%nat = Some a) as Ha by (by rewrite Hargv).
  destruct (incrbyfloat_errors s key a ko ao k Hkey Hko Hname Ha Hao)
    as [Hwrong Herr].
  split; [exact Hwrong|]. intros Hstr.
  destruct (Herr Hstr) as [Hnot Hnan]. split; [exact Hnot|].
  intros x y Hx Hy.
  destruct (isnan (ld_add x y) || isinf (ld_add x y)) eqn:Hfin.
  { by apply (Hnan x y). }
  cbv zeta.
  rewrite (incrbyfloat_start s key a ko ao k Hkey Hko Hname Ha Hao Hstr x y
             Hx Hy Hfin).
  unfold createStringObjectFromLongDouble.
  rewrite exec_bind, eval_createStringObject, exec_createStringObject,
    exec_bind.
  destruct (incrbyfloat_store s key ko k (ld2string (ld_add x y)) Hko Hname)
    as (Hd & Hex & Hdi & Hev & Hr & Hav & Hb & Hnew).
  { intros l Hl. destruct (Hstr l Hl) as (o & Ho & _). eauto. }
  destruct (Hb key ko Hko) as (ko2 & Hko2 & Hkb2).
  rewrite Hargv in Hav.
  destruct (incrbyfloat_tail _ c0 key a (fresh_loc (heap s)) ko2 k
              (ld2string (ld_add x y)) Hav Hko2 ltac:(congruence) Hnew)
    as (Hd' & Hex' & Hb' & Hdi' & Hev' & Hr' & Hat & Hcmd).
  rewrite Hr', Hr, Hat, Hcmd, Hex', Hex, Hdi', Hdi, Hev', Hev.
  repeat split; try done.
  - destruct (Hb' _ _ Hnew) as (on & Hon & Hbn).
    exists (fresh_loc (heap s)), on. rewrite Hd', Hd, lookup_insert_eq.
    repeat split; [done|..].
    + by rewrite (type_of_body (mkObj 1 (RawVal (ld2string (ld_add x y)))) on).
    + by rewrite (text_of_body (mkObj 1 (RawVal (ld2string (ld_add x y)))) on).
  - intros k' Hne. by rewrite Hd', Hd, lookup_insert_ne.
  - by etrans.
Qed.

End incrbyfloat_proofs.

Lemma incrbyfloat_outcome_witness :
  value_of incrbyfloat_state (str "k") = Some (str "10.50")
  ∧ value_of (exec incrbyfloatCommand incrbyfloat_state) (str "k")
    = Some (str "5010.5")
  ∧ reply (exec incrbyfloatCommand incrbyfloat_state) = [RBulk (str "5010.5")]
  ∧ argv_text (exec incrbyfloatCommand incrbyfloat_state)
    = [str "SET"; str "k"; str "5010.5"].
Proof.
  split; [vm_compute; reflexivity|].
  destruct (incrbyfloat_outcome (LD := decimal_long_double) incrbyfloat_state
              4%positive 5%positive 6%positive
              (mkObj 1 (RawVal (str "k"))) (mkObj 1 (RawVal (str "5.0e3")))
              (str "k")) as [_ Hrest];
    [vm_compute; reflexivity..|].
  destruct Hrest as [_ Hsum].
  { intros l Hl. vm_compute in Hl. injection Hl as <-.
    eexists. split; vm_compute; reflexivity. }
  pose proof (Hsum (Dec 1050 (-2)) (Dec 50 2)) as H.
  assert (isnan (ld_add (Dec 1050 (-2)) (Dec 50 2))
          || isinf (ld_add (Dec 1050 (-2)) (Dec 50 2)) = false) as Hfin
    by (vm_compute; reflexivity).
  rewrite Hfin in H. cbv zeta in H.
  destruct H as (Hv & Hr & Hat & _);
    [vm_compute; reflexivity|vm_compute; reflexivity|].
  split; [exact (holds_string_value _ _ _ Hv)|]. split; [exact Hr|exact Hat].
Defined.

(** ** What is written to the log *)

#[global] Instance args_kept_preorder : PreOrder args_kept.
Proof.
  split; [by intros s Hin Hpool|].
  intros s1 s2 s3 H12 H23 Hin Hpool.
  destruct (H12 Hin Hpool) as (Hin2 & Hpool2 & Ht2 & Hc2).
  destruct (H23 Hin2 Hpool2) as (Hin3 & Hpool3 & Ht3 & Hc3).
  repeat split; [done|done|congruence|congruence].
Qed.

Lemma argv_text_bodies (s s' : state) :
  args_in s → bodies_kept s s' → argv s' = argv s →
  argv_text s' = argv_text s.
Proof.
  intros Hin Hb Ha. unfold argv_text. rewrite Ha.
  apply list_fmap_ext. intros i a Hi.
  destruct (Hin a) as [o Ho]; [by eapply list_elem_of_lookup_2|].
  destruct (Hb a o Ho) as (o' & Ho' & Hbody).
  rewrite !eval_getobj, Ho, Ho'. by apply text_of_body.
Qed.

Lemma pool_ok_bodies (s s' : state) :
  pool_ok s → bodies_kept s s' → integers s' = integers s → pool_ok s'.
Proof.
  intros Hpool Hb Hi n p Hn. rewrite Hi in Hn.
  destruct (Hpool n p Hn) as (o & Ho & Hbody).
  destruct (Hb p o Ho) as (o' & Ho' & Hbody').
  exists o'. split; [done|congruence].
Qed.

Lemma args_in_bodies (s s' : state) :
  args_in s → bodies_kept s s' → argv s' = argv s → args_in s'.
Proof.
  intros Hin Hb Ha a Hel. rewrite Ha in Hel.
  destruct (Hin a Hel) as [o Ho]. destruct (Hb a o Ho) as (o' & Ho' & _).
  by exists o'.
Qed.

(** A step that writes into no object and replaces no argument. *)
Lemma args_kept_of {A} (m : M A) :
  preserves bodies_kept m →
  preserves (same (λ s, (argv s, integers s, cmd s))) m →
  preserves args_kept m.
Proof.
  intros Hb Hs s Hin Hpool. specialize (Hb s). specialize (Hs s).
  unfold same in Hs. injection Hs as Ha Hi Hc.
  split; [by apply (args_in_bodies s)|].
  split; [by apply (pool_ok_bodies s)|].
  split; [by apply argv_text_bodies|done].
Qed.

#[global] Hint Extern 4 (preserves args_kept _) =>
  apply args_kept_of; solve [frame] : frame.

(** [tryObjectEncoding] gives an object of the heap with the text of the
    one it was given. *)
Lemma tryObjectEncoding_same_text (s : state) (a : loc) (o : robj) :
  heap s !! a = Some o → pool_ok s →
  ∃ oe, heap (exec (tryObjectEncoding a) s) !! eval (tryObjectEncoding a) s
        = Some oe
        ∧ text_of oe = text_of o.
Proof.
  intros Ha Hpool. destruct (body o) as [t|n|x] eqn:Hb.
  - rewrite (text_of_raw o t Hb). by apply (tryObjectEncoding_text s a o t).
  - unfold tryObjectEncoding.
    rewrite exec_bind, eval_bind, eval_getobj, exec_getobj, Ha.
    cbn [default from_option id]. rewrite Hb, exec_ret, eval_ret. eauto.
  - unfold tryObjectEncoding.
    rewrite exec_bind, eval_bind, eval_getobj, exec_getobj, Ha.
    cbn [default from_option id]. rewrite Hb, exec_ret, eval_ret. eauto.
Qed.

(** [c->argv[j] = tryObjectEncoding(c->argv[j])]: the argument may be
    another object then, but it reads the same. *)
Lemma encode_arg_kept (j : nat) : preserves args_kept (encode_arg j).
Proof.
  intros s Hin Hpool. unfold encode_arg.
  rewrite exec_bind, exec_arg, eval_arg, exec_bind, exec_set_arg.
  set (a := default 1%positive (argv s !! j)).
  assert (preserves bodies_kept (tryObjectEncoding a)) as Hb by frame.
  assert (preserves (same (λ s, (argv s, integers s, cmd s)))
            (tryObjectEncoding a)) as Hs by frame.
  specialize (Hb s). specialize (Hs s). unfold same in Hs.
  injection Hs as Ha Hi Hc.
  set (s1 := exec (tryObjectEncoding a) s) in *.
  set (e := eval (tryObjectEncoding a) s).
  destruct (argv s !! j) as [aj|] eqn:Hj.
  2:{ assert (<[j := e]> (argv s1) = argv s1) as Hid.
      { apply list_insert_ge. rewrite Ha. by apply lookup_ge_None. }
      assert (set_argv <[j := e]> s1 = s1) as ->.
      { destruct s1. unfold set_argv. cbn in *. by rewrite Hid. }
      split; [by apply (args_in_bodies s)|].
      split; [by apply (pool_ok_bodies s)|].
      split; [by apply argv_text_bodies|done]. }
  cbn [default from_option id] in a. subst a.
  destruct (Hin aj) as [o Ho]; [by eapply list_elem_of_lookup_2|].
  destruct (tryObjectEncoding_same_text s aj o Ho Hpool) as (oe & He & Ht).
  fold s1 e in He.
  split; [|split; [|split]].
  - intros x Hx. cbn [argv heap set_argv] in *.
    apply list_elem_of_lookup_1 in Hx as [i Hi'].
    apply list_lookup_insert_Some in Hi' as [(_ & <- & _)|[_ Hi']].
    + by exists oe.
    + apply (args_in_bodies s s1 Hin Hb Ha).
      by eapply list_elem_of_lookup_2.
  - by apply (pool_ok_bodies s).
  - unfold argv_text. cbn [argv set_argv]. rewrite Ha.
    rewrite list_fmap_insert.
    change (eval (getobj e) (set_argv <[j := e]> s1))
      with (eval (getobj e) s1).
    rewrite eval_getobj, He. cbn [default from_option id]. rewrite Ht.
    assert ((λ l, text_of (eval (getobj l) (set_argv <[j := e]> s1)))
              <$> argv s
            = (λ l, text_of (eval (getobj l) s)) <$> argv s) as ->.
    { apply list_fmap_ext. intros i x Hi'.
      destruct (Hin x) as [ox Hox]; [by eapply list_elem_of_lookup_2|].
      destruct (Hb x ox Hox) as (ox' & Hox' & Hbody).
      change (eval (getobj x) (set_argv <[j := e]> s1))
        with (eval (getobj x) s1).
      rewrite !eval_getobj, Hox, Hox'. by apply text_of_body. }
    apply list_insert_id. rewrite list_lookup_fmap, Hj.
    cbn [fmap option_fmap option_map]. by rewrite eval_getobj, Ho.
  - done.
Qed.

Lemma preserves_encode (j : nat) {B} (f : M B) :
  preserves args_kept f →
  preserves args_kept
    (a ← arg j; e ← tryObjectEncoding a; set_arg j e;; f).
Proof.
  intros Hf s.
  assert (exec (a ← arg j; e ← tryObjectEncoding a; set_arg j e;; f) s
          = exec f (exec (encode_arg j) s)) as ->.
  { unfold encode_arg. by rewrite !exec_bind, !exec_arg. }
  etrans; [apply encode_arg_kept|apply Hf].
Qed.

Ltac text_step := first [ apply preserves_encode | frame_step ].

Ltac text_frame :=
  repeat text_step; try solve [intros ?; done | eauto with frame].

Lemma setCommand_options_args rest flags expire u :
  preserves args_kept (setCommand_options rest flags expire u).
Proof.
  apply setCommand_options_preserves; [apply _|].
  intros f s Hin Hpool. done.
Qed.

Lemma mset_busykeys_args js b : preserves args_kept (mset_busykeys js b).
Proof. apply mset_busykeys_preserves; apply _. Qed.

#[global] Hint Resolve setCommand_options_args mset_busykeys_args : frame.

Lemma set_args : preserves args_kept setCommand.
Proof. unfold setCommand. text_frame. Qed.

Lemma setnx_args : preserves args_kept setnxCommand.
Proof. unfold setnxCommand. text_frame. Qed.

Lemma setex_args : preserves args_kept setexCommand.
Proof. unfold setexCommand. text_frame. Qed.

Lemma psetex_args : preserves args_kept psetexCommand.
Proof. unfold psetexCommand. text_frame. Qed.

Lemma getset_args : preserves args_kept getsetCommand.
Proof. unfold getsetCommand. text_frame. Qed.

Lemma mset_args nx : preserves args_kept (msetGenericCommand nx).
Proof. unfold msetGenericCommand, mset_assign. text_frame. Qed.

(** *** Commands that write into an object *)

#[global] Instance kept_at_preorder (P : loc → Prop) : PreOrder (kept_at P).
Proof.
  split; [intros s l o _ Hl; eauto|].
  intros s1 s2 s3 H12 H23 l o HP Hl.
  destruct (H12 l o HP Hl) as (o2 & Ho2 & E2).
  destruct (H23 l o2 HP Ho2) as (o3 & Ho3 & E3).
  exists o3. split; [done|congruence].
Qed.

Lemma kept_at_bodies (P : loc → Prop) (s s' : state) :
  bodies_kept s s' → kept_at P s s'.
Proof. intros H l o _ Hl. eauto. Qed.

Section guards.
Context (P : loc → Prop) (s : state).
Hypothesis Hin : ∀ l, P l → is_Some (heap s !! l).
Hypothesis Hapart : ∀ k l, dict s !! k = Some l → ¬ P l.

(** A step that leaves the heap and the keyspace alone. *)
Lemma guards_ro {A B} (m : M A) (f : A → M B) :
  preserves (same (λ s, (heap s, dict s))) m →
  (∀ s1, heap s1 = heap s → dict s1 = dict s → guards P s (f (eval m s1))) →
  guards P s (m ≫= f).
Proof.
  intros Hm Hf s1 H1 H2. rewrite exec_bind.
  specialize (Hm s1). unfold same in Hm. injection Hm as Hh Hd.
  apply (Hf s1 H1 H2); congruence.
Qed.

Lemma guards_bodies {A} (m : M A) :
  preserves bodies_kept m → guards P s m.
Proof.
  intros Hm s1 H1 _. apply kept_at_bodies.
  etrans; [by apply bodies_kept_heap|apply Hm].
Qed.

Lemma guards_then {A B} (m : M A) (f : A → M B) :
  guards P s m → (∀ a, preserves bodies_kept (f a)) → guards P s (m ≫= f).
Proof.
  intros Hm Hf s1 H1 H2. rewrite exec_bind.
  etrans; [by apply Hm|]. apply kept_at_bodies, Hf.
Qed.

(** A write into an object that is not in [P]. *)
Lemma guards_set_ptr (l : loc) (b : objval) :
  ¬ P l → guards P s (set_ptr l b).
Proof.
  intros Hl s1 H1 _ i o Hi Ho. rewrite exec_set_ptr. cbn [heap set_heap].
  rewrite H1, lookup_alter_ne by (by intros ->). eauto.
Qed.

Lemma guards_on_bind {A B} (m : M A) (f : A → M B) :
  guards_on P s m → (∀ a, guards_on P s (f a)) → guards_on P s (m ≫= f).
Proof. intros Hm Hf s1 H1. rewrite exec_bind. by apply Hf, Hm. Qed.

Lemma guards_on_bodies {A} (m : M A) :
  preserves bodies_kept m → guards_on P s m.
Proof.
  intros Hm s1 H1. etrans; [done|]. apply kept_at_bodies, Hm.
Qed.

Lemma guards_on_set_ptr (l : loc) (b : objval) :
  ¬ P l → guards_on P s (set_ptr l b).
Proof.
  intros Hl s1 H1 i o Hi Ho. rewrite exec_set_ptr. cbn [heap set_heap].
  rewrite lookup_alter_ne by (by intros ->). by apply H1.
Qed.

(** From the first write on: [m] returns an address that is not in [P]. *)
Lemma guards_switch {A B} (m : M A) (f : A → M B) (Q : A → Prop) :
  (∀ s1, heap s1 = heap s → kept_at P s (exec m s1) ∧ Q (eval m s1)) →
  (∀ a, Q a → guards_on P s (f a)) →
  guards P s (m ≫= f).
Proof.
  intros Hm Hf s1 H1 _. rewrite exec_bind. destruct (Hm s1 H1) as [Hk HQ].
  by apply Hf.
Qed.

Lemma fresh_loc_free (s1 : state) : heap s1 = heap s → ¬ P (fresh_loc (heap s1)).
Proof.
  intros H1 HP. destruct (Hin _ HP) as [o Ho].
  by rewrite H1, fresh_loc_fresh in Ho.
Qed.

Lemma createObject_free (b : objval) (s1 : state) :
  heap s1 = heap s →
  kept_at P s (exec (createObject b) s1) ∧ ¬ P (eval (createObject b) s1).
Proof.
  intros H1. split.
  - apply kept_at_bodies. etrans; [by apply bodies_kept_heap|].
    apply preserves_bodies_createObject.
  - rewrite eval_createObject. by apply fresh_loc_free.
Qed.

Lemma unshare_free (key l : loc) (s1 : state) :
  heap s1 = heap s → ¬ P l →
  kept_at P s (exec (dbUnshareStringValue key l) s1)
  ∧ ¬ P (eval (dbUnshareStringValue key l) s1).
Proof.
  intros H1 Hl. split.
  - apply kept_at_bodies. etrans; [by apply bodies_kept_heap|].
    assert (preserves bodies_kept (dbUnshareStringValue key l)) as Hp by frame.
    apply Hp.
  - unfold dbUnshareStringValue. rewrite eval_bind, exec_getobj.
    destruct (_ || _).
    + rewrite !eval_bind, eval_createStringObject, eval_ret.
      by apply fresh_loc_free.
    + by rewrite eval_ret.
Qed.

Ltac g_ro := apply guards_ro; [solve [frame]|intros ? ? ?].

Ltac g_on_step :=
  lazymatch goal with
  | |- guards_on _ _ (set_ptr _ _) => by apply guards_on_set_ptr
  | |- guards_on _ _ (mbind _ _) => apply guards_on_bind; [|intros ?]
  | |- guards_on _ _ (match ?x with _ => _ end) => destruct x
  | |- guards_on _ _ _ => apply guards_on_bodies; solve [frame]
  end.

Lemma looked_up_free (key l : loc) (s1 : state) :
  dict s1 = dict s → eval (lookupKeyWrite key) s1 = Some l → ¬ P l.
Proof.
  intros H2 Hl. rewrite eval_lookupKeyWrite, H2 in Hl. by eapply Hapart.
Qed.

Lemma incrDecr_guards (d : Z) : guards P s (incrDecrCommand d).
Proof.
  unfold incrDecrCommand.
  g_ro. g_ro. g_ro.
  destruct (eval _ _); [apply guards_bodies; frame|].
  g_ro. destruct (eval _ _) as [value|]; [|apply guards_bodies; frame].
  destruct (_ || _); [apply guards_bodies; frame|].
  g_ro. apply guards_then; [|intros; frame].
  destruct (eval (lookupKeyWrite _) _) as [l|] eqn:Hl;
    [|apply guards_bodies; frame].
  assert (¬ P l) as Hfree by (eapply looked_up_free; [|exact Hl]; done).
  clear Hl.
  destruct (_ && _); [|apply guards_bodies; frame].
  apply guards_then; [|intros; frame].
  by apply guards_set_ptr.
Qed.

Lemma setrange_write_guards (key o : loc) (offset : Z) (value : sds) :
  ¬ P o → guards_on P s (setrange_write key o offset value).
Proof. intros Hw. unfold setrange_write. repeat g_on_step. Qed.

Lemma setrange_guards : guards P s setrangeCommand.
Proof.
  unfold setrangeCommand.
  g_ro. g_ro. g_ro. g_ro.
  destruct (eval _ _) as [offset|]; [|apply guards_bodies; frame].
  destruct (_ <? _); [apply guards_bodies; frame|].
  g_ro. g_ro.
  destruct (eval (lookupKeyWrite _) _) as [l|] eqn:Hl.
  - assert (¬ P l) as Hfree by (eapply looked_up_free; [|exact Hl]; done).
    clear Hl. g_ro. g_ro.
    destruct (eval _ _); [apply guards_bodies; frame|]. cbv zeta.
    destruct (_ =? _); [apply guards_bodies; frame|].
    g_ro. destruct (bool_decide _); [apply guards_bodies; frame|].
    eapply (guards_switch _ _ (λ a, ¬ P a)).
    + intros ? ?. by apply unshare_free.
    + intros a Ha. by apply setrange_write_guards.
  - clear Hl. destruct (_ =? _); [apply guards_bodies; frame|].
    g_ro. destruct (bool_decide _); [apply guards_bodies; frame|].
    eapply (guards_switch _ _ (λ a, ¬ P a)); [intros; by apply createObject_free|].
    intros a Ha. apply guards_on_bind; [apply guards_on_bodies; frame|intros _].
    by apply setrange_write_guards.
Qed.

Lemma append_guards : guards P s appendCommand.
Proof.
  unfold appendCommand.
  g_ro. g_ro. apply guards_then; [|intros [?|]; frame].
  destruct (eval (lookupKeyWrite _) _) as [l|] eqn:Hl;
    [|apply guards_bodies; frame].
  assert (¬ P l) as Hfree by (eapply looked_up_free; [|exact Hl]; done).
  clear Hl. g_ro. g_ro.
  destruct (eval _ _); [apply guards_bodies; frame|].
  g_ro. g_ro. cbv zeta. g_ro.
  destruct (bool_decide _); [apply guards_bodies; frame|].
  eapply (guards_switch _ _ (λ a, ¬ P a)).
  - intros ? ?. by apply unshare_free.
  - intros a Ha. repeat g_on_step.
Qed.

End guards.

Section logged.
Context `{LD : LongDouble}.

Lemma guarded_args {A} (m : M A) (s : state) :
  args_in s →
  guards (λ l, l ∈ argv s) s m →
  argv (exec m s) = argv s →
  argv_text (exec m s) = argv_text s.
Proof.
  intros Hin Hg Ha. unfold argv_text. rewrite Ha.
  apply list_fmap_ext. intros i a Hi.
  assert (a ∈ argv s) as Hel by (by eapply list_elem_of_lookup_2).
  destruct (Hin a Hel) as [o Ho].
  destruct (Hg s eq_refl eq_refl a o Hel Ho) as (o' & Ho' & Hb).
  rewrite !eval_getobj, Ho, Ho'. by apply text_of_body.
Qed.

Lemma writer_args {A} (m : M A) (s : state) :
  args_in s →
  guards (λ l, l ∈ argv s) s m →
  preserves (same (λ s, (argv s, cmd s))) m →
  argv_text (exec m s) = argv_text s ∧ cmd (exec m s) = cmd s.
Proof.
  intros Hin Hg Hs. specialize (Hs s). unfold same in Hs.
  injection Hs as Ha Hc. split; [by apply guarded_args|done].
Qed.

Lemma kept_args {A} (m : M A) (s : state) :
  args_in s → pool_ok s → preserves args_kept m →
  argv_text (exec m s) = argv_text s ∧ cmd (exec m s) = cmd s.
Proof. intros Hin Hpool Hm. by destruct (Hm s Hin Hpool) as (_ & _ & ? & ?). Qed.

Lemma append_args (s : state) :
  args_in s → pool_ok s → args_apart s →
  argv_text (exec appendCommand s) = argv_text s
  ∧ cmd (exec appendCommand s) = cmd s.
Proof.
  intros Hin Hpool Hap.
  pose proof (append_guards (λ l, l ∈ argv s) s Hin Hap) as Hg.
  destruct (eval (lookupKeyWrite (eval (arg 1) s)) s) as [l|] eqn:Hl.
  - assert (argv (exec appendCommand s) = argv s
            ∧ cmd (exec appendCommand s) = cmd s) as [Ha Hc].
    { unfold appendCommand.
      rewrite exec_bind, exec_arg, exec_bind, exec_lookupKeyWrite, Hl.
      match goal with
      | |- argv (exec ?m s) = _ ∧ _ =>
          assert (preserves (same (λ s, (argv s, cmd s))) m) as Hp by frame
      end.
      specialize (Hp s). unfold same in Hp. by injection Hp as -> ->. }
    split; [by apply guarded_args|done].
  - unfold appendCommand.
    rewrite exec_bind, exec_arg, exec_bind, exec_lookupKeyWrite, Hl.
    apply kept_args; [done..|]. text_frame.
Qed.

(** X17: Any command of this file but INCRBYFLOAT, run where the
    arguments are objects of the heap, none of them a stored value, and
    the pool of integers is in order: afterwards the command has the name
    and every argument reads the bytes it had before.  What SET, GETSET,
    MSET or APPEND do to an argument that stands for an integer, and what
    SETRANGE, APPEND and the counters write into a value, changes no
    text among the arguments: INCRBYFLOAT is the one command that
    rewrites its arguments. *)
Theorem no_rewrite_but_incrbyfloat (c : command) (s : state) :
  c ≠ INCRBYFLOAT → args_in s → pool_ok s → args_apart s →
  argv_text (exec (run c) s) = argv_text s
  ∧ cmd (exec (run c) s) = cmd s.
Proof.
  intros Hc Hin Hpool Hap.
  destruct c; cbn [run]; try done.
  - apply kept_args; [done..|apply set_args].
  - apply kept_args; [done..|apply setnx_args].
  - apply kept_args; [done..|apply setex_args].
  - apply kept_args; [done..|apply psetex_args].
  - apply kept_args; [done..|]. unfold getCommand. frame.
  - apply kept_args; [done..|apply getset_args].
  - apply writer_args; [done| |frame]. by apply setrange_guards.
  - apply kept_args; [done..|]. frame.
  - apply kept_args; [done..|]. frame.
  - apply kept_args; [done..|apply mset_args].
  - apply kept_args; [done..|apply mset_args].
  - apply writer_args; [done| |frame]. by apply incrDecr_guards.
  - apply writer_args; [done| |frame]. by apply incrDecr_guards.
  - apply writer_args; [done| |frame]. unfold incrbyCommand.
    apply guards_ro; [frame|intros ? ? ?].
    apply guards_ro; [frame|intros ? ? ?].
    destruct (eval _ _); [by apply incrDecr_guards|].
    apply guards_bodies. frame.
  - apply writer_args; [done| |frame]. unfold decrbyCommand.
    apply guards_ro; [frame|intros ? ? ?].
    apply guards_ro; [frame|intros ? ? ?].
    destruct (eval _ _); [by apply incrDecr_guards|].
    apply guards_bodies. frame.
  - by apply append_args.
  - apply kept_args; [done..|]. frame.
Qed.

End logged.

Lemma no_rewrite_but_incrbyfloat_witness :
  argv_text (exec (run (LD := decimal_long_double) APPEND) append_state)
  = [str "APPEND"; str "k"; str "45"]
  ∧ cmd (exec (run (LD := decimal_long_double) APPEND) append_state)
    = "append"%string.
Proof.
  destruct (no_rewrite_but_incrbyfloat (LD := decimal_long_double) APPEND
              append_state) as [Ht Hc]; [done| | | |].
  - intros a Ha. vm_compute in Ha.
    repeat (apply elem_of_cons in Ha as [->|Ha];
            [eexists; vm_compute; reflexivity|]).
    by apply elem_of_nil in Ha.
  - pool_ok_tac.
  - apply (bool_decide_unpack _). vm_compute. reflexivity.
  - split; [rewrite Ht|rewrite Hc]; vm_compute; reflexivity.
Defined.

(** *** Times to live *)


